(** * jk-webapi: codec, signer, request executor and persistence store

    A shallow embedding of [src/lib/base64.ts], [src/lib/sign.ts],
    [src/lib/time.ts], [src/lib/request.ts] and [src/lib/storage.ts],
    together with the host primitives they call (UTF-16 strings, [Buffer],
    [btoa]/[atob], the URI escaping functions, MD5, [localStorage]).

    Conventions.
    - A JavaScript string is the list of its UTF-16 code units, each a [Z]
      in [0, 65536).
    - A byte is a [Z] in [0, 256).
    - A host function that may throw returns a [result]; [try]/[catch] in
      the source is a [match] on it. The message text of a host
      exception is the host's own, a parameter [wording].
    - Clock readings, fresh identifiers and the answers of the network
      are oracles of the [Host]; what changes ([localStorage], the
      requests sent, how often each oracle was asked) is a [State] that
      the program threads through a state-and-exception monad [M].

    The definitions come first, the proofs after them. *)

From Stdlib Require Import ZArith QArith Qround List Lia Bool String Ascii.
From stdpp Require Import base gmap.
Import ListNotations.
Open Scope Z_scope.

(** ** JavaScript strings *)

Definition jsstring := list Z.

Definition is_code_unit (c : Z) : bool := (0 <=? c) && (c <? 65536).

(** The code units of an ASCII literal of the source. *)
Definition lit (s : string) : jsstring :=
  List.map (fun a => Z.of_N (N_of_ascii a)) (list_ascii_of_string s).

(** [!s] on a string: only the empty string is falsy. *)
Definition str_falsy (s : jsstring) : bool :=
  match s with [] => true | _ => false end.

Definition jsstring_eqb (a b : jsstring) : bool :=
  bool_decide (a = b).

(** ** Exceptions *)

Inductive exn :=
| URIError
| InvalidCharacterError
| RangeError
| TypeError (msg : jsstring).

Inductive result (A : Type) :=
| Ok (a : A)
| Throw (e : exn).
Arguments Ok {A} a.
Arguments Throw {A} e.

Definition rbind {A B} (r : result A) (k : A -> result B) : result B :=
  match r with
  | Ok a => k a
  | Throw e => Throw e
  end.

Notation "x <-! r ;; k" := (rbind r (fun x => k))
  (at level 100, r at next level, right associativity).

(** [(error as Error).message]. The text of an exception a host function
    throws is the host's own and differs from engine to engine; [wording]
    gives it. A [TypeError] built here carries its text. *)
Definition message (wording : exn -> jsstring) (e : exn) : jsstring :=
  match e with
  | TypeError msg => msg
  | _ => wording e
  end.

(** ** Unicode: UTF-16 and UTF-8 *)

Definition is_high_surrogate (c : Z) : bool := (0xD800 <=? c) && (c <=? 0xDBFF).
Definition is_low_surrogate (c : Z) : bool := (0xDC00 <=? c) && (c <=? 0xDFFF).

(** A Unicode scalar value: a code point that is not a surrogate. *)
Definition is_scalar (v : Z) : bool :=
  (0 <=? v) && (v <? 0x110000) && negb ((0xD800 <=? v) && (v <=? 0xDFFF)).

(** The code points of a string, read as [String.prototype.codePointAt]
    does: a high surrogate followed by a low one is one supplementary code
    point; any other surrogate stands alone and is reported as [None]. *)
Fixpoint code_points (s : jsstring) : list (option Z) :=
  match s with
  | [] => []
  | c :: rest =>
      if is_high_surrogate c then
        match rest with
        | d :: rest' =>
            if is_low_surrogate d
            then Some (0x10000 + (c - 0xD800) * 0x400 + (d - 0xDC00)) :: code_points rest'
            else None :: code_points rest
        | [] => [None]
        end
      else if is_low_surrogate c then None :: code_points rest
      else Some c :: code_points rest
  end.

(** [String.prototype.isWellFormed]: code units in range and no lone
    surrogate. These are the strings that have a UTF-8 encoding. *)
Definition isWellFormed (s : jsstring) : bool :=
  forallb is_code_unit s &&
  forallb (fun o => match o with Some _ => true | None => false end) (code_points s).

Definition utf16_encode_cp (v : Z) : jsstring :=
  if v <? 0x10000 then [v]
  else [0xD800 + (v - 0x10000) / 0x400; 0xDC00 + (v - 0x10000) mod 0x400].

Definition utf16_encode (vs : list Z) : jsstring :=
  List.concat (List.map utf16_encode_cp vs).

(** [String.prototype.toWellFormed], which is also the conversion to a
    [USVString] that Web IDL applies to the arguments of
    [FormData.append]: every lone surrogate becomes U+FFFD. *)
Definition toWellFormed (s : jsstring) : jsstring :=
  List.concat
    (List.map (fun o => match o with
                        | Some v => utf16_encode_cp v
                        | None => [0xFFFD]
                        end)
              (code_points s)).

(** The UTF-8 code of a scalar value (division and remainder by powers of
    two stand for the shifts and masks). *)
Definition utf8_encode_cp (v : Z) : list Z :=
  if v <? 0x80 then [v]
  else if v <? 0x800 then [0xC0 + v / 64; 0x80 + v mod 64]
  else if v <? 0x10000 then
    [0xE0 + v / 4096; 0x80 + (v / 64) mod 64; 0x80 + v mod 64]
  else
    [0xF0 + v / 262144; 0x80 + (v / 4096) mod 64; 0x80 + (v / 64) mod 64;
     0x80 + v mod 64].

Definition utf8_encode (vs : list Z) : list Z :=
  List.concat (List.map utf8_encode_cp vs).

Definition is_cont (b : Z) : bool := (0x80 <=? b) && (b <=? 0xBF).
Definition in_range (lo hi b : Z) : bool := (lo <=? b) && (b <=? hi).

(** UTF-8 decoding with replacement, as the WHATWG decoder and V8 do it:
    each maximal ill-formed prefix becomes one U+FFFD and decoding resumes
    at the byte that broke the sequence. *)
Fixpoint utf8_decode_lossy (bs : list Z) : list Z :=
  match bs with
  | [] => []
  | b0 :: r0 =>
      if in_range 0 0x7F b0 then b0 :: utf8_decode_lossy r0
      else if in_range 0xC2 0xDF b0 then
        match r0 with
        | [] => [0xFFFD]
        | b1 :: r1 =>
            if is_cont b1
            then (b0 - 0xC0) * 64 + (b1 - 0x80) :: utf8_decode_lossy r1
            else 0xFFFD :: utf8_decode_lossy r0
        end
      else if in_range 0xE0 0xEF b0 then
        let lo := if b0 =? 0xE0 then 0xA0 else 0x80 in
        let hi := if b0 =? 0xED then 0x9F else 0xBF in
        match r0 with
        | [] => [0xFFFD]
        | b1 :: r1 =>
            if in_range lo hi b1 then
              match r1 with
              | [] => [0xFFFD]
              | b2 :: r2 =>
                  if is_cont b2
                  then (b0 - 0xE0) * 4096 + (b1 - 0x80) * 64 + (b2 - 0x80)
                       :: utf8_decode_lossy r2
                  else 0xFFFD :: utf8_decode_lossy r1
              end
            else 0xFFFD :: utf8_decode_lossy r0
        end
      else if in_range 0xF0 0xF4 b0 then
        let lo := if b0 =? 0xF0 then 0x90 else 0x80 in
        let hi := if b0 =? 0xF4 then 0x8F else 0xBF in
        match r0 with
        | [] => [0xFFFD]
        | b1 :: r1 =>
            if in_range lo hi b1 then
              match r1 with
              | [] => [0xFFFD]
              | b2 :: r2 =>
                  if is_cont b2 then
                    match r2 with
                    | [] => [0xFFFD]
                    | b3 :: r3 =>
                        if is_cont b3
                        then (b0 - 0xF0) * 262144 + (b1 - 0x80) * 4096
                             + (b2 - 0x80) * 64 + (b3 - 0x80)
                             :: utf8_decode_lossy r3
                        else 0xFFFD :: utf8_decode_lossy r2
                    end
                  else 0xFFFD :: utf8_decode_lossy r1
              end
            else 0xFFFD :: utf8_decode_lossy r0
        end
      else 0xFFFD :: utf8_decode_lossy r0
  end.

(** ** Hexadecimal digits *)

Definition hex_upper (n : Z) : Z := nth (Z.to_nat n) (lit "0123456789ABCDEF") 0.
Definition hex_lower (n : Z) : Z := nth (Z.to_nat n) (lit "0123456789abcdef") 0.

Definition hex_value (c : Z) : option Z :=
  if in_range 48 57 c then Some (c - 48)
  else if in_range 65 70 c then Some (c - 55)
  else if in_range 97 102 c then Some (c - 87)
  else None.

Definition is_alnum (c : Z) : bool :=
  in_range 48 57 c || in_range 65 90 c || in_range 97 122 c.

(** ** Base64 *)

Definition b64_char (n : Z) : Z :=
  nth (Z.to_nat n)
      (lit "ABCDEFGHIJKLMNOPQRSTUVWXYZabcdefghijklmnopqrstuvwxyz0123456789+/") 0.

Definition b64_pad : Z := 61.

(** Value of a character of the standard alphabet. *)
Definition b64_value (c : Z) : option Z :=
  if in_range 65 90 c then Some (c - 65)
  else if in_range 97 122 c then Some (c - 71)
  else if in_range 48 57 c then Some (c + 4)
  else if c =? 43 then Some 62
  else if c =? 47 then Some 63
  else None.

(** Node's table also takes the URL-safe [-] and [_]. *)
Definition unbase64 (c : Z) : option Z :=
  if c =? 45 then Some 62
  else if c =? 95 then Some 63
  else b64_value c.

(** Standard Base64 with padding: three bytes make four characters. *)
Fixpoint base64_encode (bs : list Z) : jsstring :=
  match bs with
  | [] => []
  | [a] => [b64_char (a / 4); b64_char (a mod 4 * 16); b64_pad; b64_pad]
  | [a; b] =>
      [b64_char (a / 4); b64_char (a mod 4 * 16 + b / 16);
       b64_char (b mod 16 * 4); b64_pad]
  | a :: b :: c :: rest =>
      b64_char (a / 4) :: b64_char (a mod 4 * 16 + b / 16)
      :: b64_char (b mod 16 * 4 + c / 64) :: b64_char (c mod 64)
      :: base64_encode rest
  end.

(** Four sextets make three bytes; a final group of two or three sextets
    makes one or two bytes and its spare low bits are dropped; a single
    left-over sextet makes nothing. *)
Fixpoint sextets_to_bytes (l : list Z) : list Z :=
  match l with
  | a :: b :: c :: d :: rest =>
      a * 4 + b / 16 :: b mod 16 * 16 + c / 4 :: c mod 4 * 64 + d
      :: sextets_to_bytes rest
  | [a; b; c] => [a * 4 + b / 16; b mod 16 * 16 + c / 4]
  | [a; b] => [a * 4 + b / 16]
  | _ => []
  end.

(** [Buffer.from(s, "base64")] reads leniently: of each code unit it
    looks at the low byte only; characters outside the alphabet (white
    space included) are skipped and reading stops at the first [=]. It
    never throws. *)
Fixpoint node_sextets (s : jsstring) : list Z :=
  match s with
  | [] => []
  | c :: rest =>
      let c := c mod 256 in
      if c =? b64_pad then []
      else match unbase64 c with
           | Some v => v :: node_sextets rest
           | None => node_sextets rest
           end
  end.

Module Buffer.
(** [Buffer.from(s, "utf-8")]: a lone surrogate is written as U+FFFD. *)
Definition from_utf8 (s : jsstring) : list Z :=
  List.concat
    (List.map (fun o => match o with
                        | Some v => utf8_encode_cp v
                        | None => [0xEF; 0xBF; 0xBD]
                        end)
              (code_points s)).

(** [buf.toString("base64")]. *)
Definition toString_base64 (buf : list Z) : jsstring := base64_encode buf.

(** [Buffer.from(s, "base64")]. *)
Definition from_base64 (s : jsstring) : list Z :=
  sextets_to_bytes (node_sextets s).

(** [buf.toString("utf-8")]: no byte order mark is stripped. *)
Definition toString_utf8 (buf : list Z) : jsstring :=
  utf16_encode (utf8_decode_lossy buf).
End Buffer.

(** [btoa]: the argument must be a binary string. *)
Definition btoa (s : jsstring) : result jsstring :=
  if forallb (in_range 0 255) s then Ok (base64_encode s)
  else Throw InvalidCharacterError.

Definition is_ascii_whitespace (c : Z) : bool :=
  (c =? 9) || (c =? 10) || (c =? 12) || (c =? 13) || (c =? 32).

(** Removes up to two trailing [=]. *)
Definition strip_padding (d : jsstring) : jsstring :=
  match rev d with
  | p :: q :: r =>
      if p =? b64_pad
      then if q =? b64_pad then rev r else rev (q :: r)
      else d
  | [p] => if p =? b64_pad then [] else d
  | [] => d
  end.

Fixpoint all_b64_values (d : jsstring) : option (list Z) :=
  match d with
  | [] => Some []
  | c :: rest =>
      match b64_value c, all_b64_values rest with
      | Some v, Some vs => Some (v :: vs)
      | _, _ => None
      end
  end.

(** [atob], the forgiving-base64 decode of the HTML standard: ASCII white
    space is removed; when the length is then a multiple of four, one or
    two trailing [=] are removed; a length of 1 modulo 4 or any remaining
    character outside the alphabet is an error. *)
Definition atob (s : jsstring) : result jsstring :=
  let d := List.filter (fun c => negb (is_ascii_whitespace c)) s in
  let d := if (length d mod 4 =? 0)%nat then strip_padding d else d in
  if (length d mod 4 =? 1)%nat then Throw InvalidCharacterError
  else match all_b64_values d with
       | Some vs => Ok (sextets_to_bytes vs)
       | None => Throw InvalidCharacterError
       end.

(** ** URI escaping *)

Definition percent (b : Z) : jsstring := [37; hex_upper (b / 16); hex_upper (b mod 16)].

(** Characters [encodeURIComponent] leaves alone: alphanumerics and
    [-_.!~*'()]. *)
Definition uri_unreserved (c : Z) : bool :=
  is_alnum c || existsb (Z.eqb c) (lit "-_.!~*'()").

Definition uri_encode_cp (v : Z) : jsstring :=
  if uri_unreserved v then [v]
  else List.concat (List.map percent (utf8_encode_cp v)).

Fixpoint uri_encode_cps (cps : list (option Z)) : result jsstring :=
  match cps with
  | [] => Ok []
  | None :: _ => Throw URIError
  | Some v :: rest => r <-! uri_encode_cps rest;; Ok (uri_encode_cp v ++ r)
  end.

(** [encodeURIComponent]: throws [URIError] on a lone surrogate. *)
Definition encodeURIComponent (s : jsstring) : result jsstring :=
  uri_encode_cps (code_points s).

(** Two hexadecimal digits at the head of [s]. *)
Definition hex2 (s : jsstring) : option Z :=
  match s with
  | h1 :: h2 :: _ =>
      match hex_value h1, hex_value h2 with
      | Some a, Some b => Some (a * 16 + b)
      | _, _ => None
      end
  | _ => None
  end.

(** [u] and four hexadecimal digits at the head of [s]. *)
Definition hex_u4 (s : jsstring) : option Z :=
  match s with
  | u :: h1 :: h2 :: h3 :: h4 :: _ =>
      if u =? 117 then
        match hex_value h1, hex_value h2, hex_value h3, hex_value h4 with
        | Some a, Some b, Some c, Some d =>
            Some (a * 4096 + b * 256 + c * 16 + d)
        | _, _, _, _ => None
        end
      else None
  | _ => None
  end.

(** [unescape]: [%uXXXX] and [%XX] become the code unit they name; a [%]
    not followed by such digits stays. [skip] counts the code units
    already consumed by the escape sequence just read. *)
Fixpoint unescape_from (skip : nat) (s : jsstring) : jsstring :=
  match s with
  | [] => []
  | c :: rest =>
      match skip with
      | S k => unescape_from k rest
      | O =>
          if c =? 37 then
            match hex_u4 rest with
            | Some v => v :: unescape_from 5 rest
            | None =>
                match hex2 rest with
                | Some v => v :: unescape_from 2 rest
                | None => c :: unescape_from 0 rest
                end
            end
          else c :: unescape_from 0 rest
      end
  end.

Definition unescape (s : jsstring) : jsstring := unescape_from 0 s.

(** Characters [escape] leaves alone: alphanumerics and [@*_+-./]. *)
Definition escape_unreserved (c : Z) : bool :=
  is_alnum c || existsb (Z.eqb c) (lit "@*_+-./").

Definition escape_unit (c : Z) : jsstring :=
  if escape_unreserved c then [c]
  else if c <? 256 then percent c
  else [37; 117; hex_upper (c / 4096); hex_upper (c / 256 mod 16);
        hex_upper (c / 16 mod 16); hex_upper (c mod 16)].

(** [escape]. *)
Definition escape (s : jsstring) : jsstring :=
  List.concat (List.map escape_unit s).

(** Number of leading one bits of a byte. *)
Definition leading_ones (b : Z) : nat :=
  if b <? 0x80 then 0
  else if b <? 0xC0 then 1
  else if b <? 0xE0 then 2
  else if b <? 0xF0 then 3
  else if b <? 0xF8 then 4
  else 5.

(** [n] groups [%XX] at the head of [s]. *)
Fixpoint pct_octets (n : nat) (s : jsstring) : option (list Z) :=
  match n with
  | O => Some []
  | S n' =>
      match s with
      | p :: ((_ :: _ :: rest) as digits) =>
          if p =? 37 then
            match hex2 digits, pct_octets n' rest with
            | Some b, Some bs => Some (b :: bs)
            | _, _ => None
            end
          else None
      | _ => None
      end
  end.

(** The code point of a well-formed UTF-8 sequence of exactly one code
    point (Unicode Table 3-7): no overlong form, no surrogate, nothing
    above U+10FFFF. *)
Definition utf8_valid_cp (octets : list Z) : option Z :=
  match octets with
  | [b0; b1] =>
      if in_range 0xC2 0xDF b0 && is_cont b1
      then Some ((b0 - 0xC0) * 64 + (b1 - 0x80)) else None
  | [b0; b1; b2] =>
      let lo := if b0 =? 0xE0 then 0xA0 else 0x80 in
      let hi := if b0 =? 0xED then 0x9F else 0xBF in
      if in_range 0xE0 0xEF b0 && in_range lo hi b1 && is_cont b2
      then Some ((b0 - 0xE0) * 4096 + (b1 - 0x80) * 64 + (b2 - 0x80))
      else None
  | [b0; b1; b2; b3] =>
      let lo := if b0 =? 0xF0 then 0x90 else 0x80 in
      let hi := if b0 =? 0xF4 then 0x8F else 0xBF in
      if in_range 0xF0 0xF4 b0 && in_range lo hi b1 && is_cont b2 && is_cont b3
      then Some ((b0 - 0xF0) * 262144 + (b1 - 0x80) * 4096
                 + (b2 - 0x80) * 64 + (b3 - 0x80))
      else None
  | _ => None
  end.

(** [decodeURIComponent]: every [%] must start an escape [%XX]; a byte
    with the top bit set must start a well-formed UTF-8 sequence written
    as consecutive escapes; anything else throws [URIError]. *)
Fixpoint uri_decode_from (skip : nat) (s : jsstring) : result jsstring :=
  match s with
  | [] => Ok []
  | c :: rest =>
      match skip with
      | S k => uri_decode_from k rest
      | O =>
          if c =? 37 then
            match hex2 rest with
            | None => Throw URIError
            | Some b =>
                match leading_ones b with
                | O => r <-! uri_decode_from 2 rest;; Ok (b :: r)
                | S n' =>
                    match n' with
                    | O => Throw URIError
                    | _ =>
                        if (4 <? S n')%nat then Throw URIError
                        else
                          match pct_octets n' (skipn 2 rest) with
                          | None => Throw URIError
                          | Some more =>
                              match utf8_valid_cp (b :: more) with
                              | None => Throw URIError
                              | Some v =>
                                  r <-! uri_decode_from (2 + 3 * n') rest;;
                                  Ok (utf16_encode_cp v ++ r)
                              end
                          end
                    end
                end
            end
          else r <-! uri_decode_from 0 rest;; Ok (c :: r)
      end
  end.

Definition decodeURIComponent (s : jsstring) : result jsstring :=
  uri_decode_from 0 s.

(** ** [src/lib/base64.ts] *)

(** The result object [{ data?: string; error?: string }]. *)
Record Decoded := { data : option jsstring; error : option jsstring }.

(** [hasBuffer] is [typeof Buffer !== "undefined"]. The [try] block of the
    source holds only the [Buffer] calls, which do not throw on a string;
    the last line is outside it, so its exceptions reach the caller. *)
Definition encodeUtf8ToBase64 (hasBuffer : bool) (input : jsstring) : result jsstring :=
  if str_falsy input then Ok []
  else if hasBuffer then
    Ok (Buffer.toString_base64 (Buffer.from_utf8 input))
  else
    e <-! encodeURIComponent input;;
    btoa (unescape e).

Definition decodeBase64ToUtf8 (hasBuffer : bool) (wording : exn -> jsstring)
                              (input : jsstring) : Decoded :=
  if str_falsy input then {| data := Some []; error := None |}
  else if hasBuffer then
    match Ok (Buffer.toString_utf8 (Buffer.from_base64 input)) with
    | Ok decoded => {| data := Some decoded; error := None |}
    | Throw err => {| data := None; error := Some (message wording err) |}
    end
  else
    match (b <-! atob input;; decodeURIComponent (escape b)) with
    | Ok decoded => {| data := Some decoded; error := None |}
    | Throw err => {| data := None; error := Some (message wording err) |}
    end.

(** ** MD5 (RFC 1321) on 32-bit words *)

Definition w32 (x : Z) : Z := x mod 2 ^ 32.

Definition rotl32 (x n : Z) : Z :=
  w32 (Z.lor (Z.shiftl x n) (Z.shiftr x (32 - n))).

Definition not32 (x : Z) : Z := Z.lxor x 0xFFFFFFFF.

Definition md5_F (x y z : Z) : Z := Z.lor (Z.land x y) (Z.land (not32 x) z).
Definition md5_G (x y z : Z) : Z := Z.lor (Z.land x z) (Z.land y (not32 z)).
Definition md5_H (x y z : Z) : Z := Z.lxor (Z.lxor x y) z.
Definition md5_I (x y z : Z) : Z := Z.lxor y (Z.lor x (not32 z)).

Definition md5_K : list Z :=
  [0xd76aa478; 0xe8c7b756; 0x242070db; 0xc1bdceee;
   0xf57c0faf; 0x4787c62a; 0xa8304613; 0xfd469501;
   0x698098d8; 0x8b44f7af; 0xffff5bb1; 0x895cd7be;
   0x6b901122; 0xfd987193; 0xa679438e; 0x49b40821;
   0xf61e2562; 0xc040b340; 0x265e5a51; 0xe9b6c7aa;
   0xd62f105d; 0x02441453; 0xd8a1e681; 0xe7d3fbc8;
   0x21e1cde6; 0xc33707d6; 0xf4d50d87; 0x455a14ed;
   0xa9e3e905; 0xfcefa3f8; 0x676f02d9; 0x8d2a4c8a;
   0xfffa3942; 0x8771f681; 0x6d9d6122; 0xfde5380c;
   0xa4beea44; 0x4bdecfa9; 0xf6bb4b60; 0xbebfbc70;
   0x289b7ec6; 0xeaa127fa; 0xd4ef3085; 0x04881d05;
   0xd9d4d039; 0xe6db99e5; 0x1fa27cf8; 0xc4ac5665;
   0xf4292244; 0x432aff97; 0xab9423a7; 0xfc93a039;
   0x655b59c3; 0x8f0ccc92; 0xffeff47d; 0x85845dd1;
   0x6fa87e4f; 0xfe2ce6e0; 0xa3014314; 0x4e0811a1;
   0xf7537e82; 0xbd3af235; 0x2ad7d2bb; 0xeb86d391].

Definition md5_S : list Z :=
  [7; 12; 17; 22; 7; 12; 17; 22; 7; 12; 17; 22; 7; 12; 17; 22;
   5; 9; 14; 20; 5; 9; 14; 20; 5; 9; 14; 20; 5; 9; 14; 20;
   4; 11; 16; 23; 4; 11; 16; 23; 4; 11; 16; 23; 4; 11; 16; 23;
   6; 10; 15; 21; 6; 10; 15; 21; 6; 10; 15; 21; 6; 10; 15; 21].

Definition md5_state : Type := Z * Z * Z * Z.

Definition md5_init : md5_state := (0x67452301, 0xefcdab89, 0x98badcfe, 0x10325476).

(** Operation [i] of the 64 applied to one block [M] of sixteen words. *)
Definition md5_step (M : list Z) (st : md5_state) (i : nat) : md5_state :=
  let '(a, b, c, d) := st in
  let '(f, g) :=
    if (i <? 16)%nat then (md5_F b c d, i)
    else if (i <? 32)%nat then (md5_G b c d, (5 * i + 1) mod 16)%nat
    else if (i <? 48)%nat then (md5_H b c d, (3 * i + 5) mod 16)%nat
    else (md5_I b c d, (7 * i) mod 16)%nat in
  let x := w32 (a + f + nth i md5_K 0 + nth g M 0) in
  (d, w32 (b + rotl32 x (nth i md5_S 0)), b, c).

Definition md5_block (st : md5_state) (M : list Z) : md5_state :=
  let '(a0, b0, c0, d0) := st in
  let '(a, b, c, d) := fold_left (md5_step M) (seq 0 64) st in
  (w32 (a0 + a), w32 (b0 + b), w32 (c0 + c), w32 (d0 + d)).

(** Little-endian bytes of a word and back. *)
Definition le_bytes4 (x : Z) : list Z :=
  [x mod 256; x / 256 mod 256; x / 65536 mod 256; x / 16777216 mod 256].

Fixpoint le_words (bs : list Z) : list Z :=
  match bs with
  | a :: b :: c :: d :: rest =>
      a + b * 256 + c * 65536 + d * 16777216 :: le_words rest
  | _ => []
  end.

(** The message, a one bit, zero bits up to 56 modulo 64 bytes, then the
    bit length as a 64-bit little-endian number. *)
Definition md5_pad (msg : list Z) : list Z :=
  let len := Z.of_nat (length msg) in
  let bits := (8 * len) mod 2 ^ 64 in
  msg ++ [0x80] ++ repeat 0 (Z.to_nat ((55 - len) mod 64))
      ++ le_bytes4 (bits mod 2 ^ 32) ++ le_bytes4 (bits / 2 ^ 32).

(** The blocks of sixteen words; [fuel] bounds their number. *)
Fixpoint md5_blocks (fuel : nat) (ws : list Z) : list (list Z) :=
  match fuel with
  | O => []
  | S fuel' =>
      match ws with
      | [] => []
      | _ => firstn 16 ws :: md5_blocks fuel' (skipn 16 ws)
      end
  end.

(** The digest of a byte sequence: sixteen bytes. *)
Definition md5 (msg : list Z) : list Z :=
  let ws := le_words (md5_pad msg) in
  let '(a, b, c, d) := fold_left md5_block (md5_blocks (length ws) ws) md5_init in
  le_bytes4 a ++ le_bytes4 b ++ le_bytes4 c ++ le_bytes4 d.

(** Rendering of bytes as two hexadecimal digits each. *)
Definition hex_string (digit : Z -> Z) (bs : list Z) : jsstring :=
  List.concat (List.map (fun b => [digit (b / 16); digit (b mod 16)]) bs).

(** [String.prototype.toUpperCase] on the ASCII letters; other code units
    are left as they are (exact on ASCII strings, which is all the signer
    applies it to). *)
Definition toUpperCase (s : jsstring) : jsstring :=
  List.map (fun c => if in_range 97 122 c then c - 32 else c) s.

Module CryptoJS.
(** [CryptoJS.enc.Latin1.parse]: one byte per code unit. *)
Definition Latin1_parse (s : jsstring) : list Z :=
  List.map (fun c => c mod 256) s.

(** [CryptoJS.enc.Utf8.parse]. *)
Definition Utf8_parse (s : jsstring) : result (list Z) :=
  e <-! encodeURIComponent s;; Ok (Latin1_parse (unescape e)).

(** [CryptoJS.MD5(message)] for a string message. *)
Definition MD5 (message : jsstring) : result (list Z) :=
  bytes <-! Utf8_parse message;; Ok (md5 bytes).

(** [hash.toString(CryptoJS.enc.Hex)]: lower-case digits. *)
Definition toString_Hex (hash : list Z) : jsstring := hex_string hex_lower hash.
End CryptoJS.

(** ** [src/lib/sign.ts] *)

(** Modelled from the spec: the native command [md5_upper_hex] of the
    Tauri backend ([src-tauri/src/main.rs]) is not part of the sources at
    hand. By the spec it is byte-for-byte interchangeable with the
    in-process provider: the MD5 digest of the UTF-8 bytes of the input as
    32 upper-case hexadecimal digits. A string that is not well-formed has
    no UTF-8 form and cannot cross the bridge. *)
Definition native_md5_upper_hex (input : jsstring) : result jsstring :=
  if isWellFormed input
  then Ok (hex_string hex_upper (md5 (Buffer.from_utf8 input)))
  else Throw (TypeError (lit "invalid args `input` for command `md5_upper_hex`")).

(** [invoke("md5_upper_hex", { input })]; [tauri] tells whether the page
    runs inside the Tauri shell. Outside it the call fails. *)
Definition invoke_md5_upper_hex (tauri : bool) (input : jsstring) : result jsstring :=
  if tauri then native_md5_upper_hex input
  else Throw (TypeError (lit "Cannot read properties of undefined (reading 'invoke')")).

Definition md5UpperHex (tauri : bool) (input : jsstring) : result jsstring :=
  if str_falsy input then Ok []
  else
    match invoke_md5_upper_hex tauri input with
    | Ok r => Ok r
    | Throw _ =>
        hash <-! CryptoJS.MD5 input;;
        Ok (toUpperCase (CryptoJS.toString_Hex hash))
    end.

(** ** Dates and [src/lib/time.ts] *)

(** A valid [Date], by what its local-time getters and [toISOString]
    return; [getMonth] counts from zero. *)
Record jsDate := {
  getFullYear : Z;
  getMonth : Z;
  getDate : Z;
  getHours : Z;
  getMinutes : Z;
  getSeconds : Z;
  toISOString : jsstring
}.

Fixpoint uint_digits (u : Decimal.uint) : jsstring :=
  match u with
  | Decimal.Nil => []
  | Decimal.D0 r => 48 :: uint_digits r
  | Decimal.D1 r => 49 :: uint_digits r
  | Decimal.D2 r => 50 :: uint_digits r
  | Decimal.D3 r => 51 :: uint_digits r
  | Decimal.D4 r => 52 :: uint_digits r
  | Decimal.D5 r => 53 :: uint_digits r
  | Decimal.D6 r => 54 :: uint_digits r
  | Decimal.D7 r => 55 :: uint_digits r
  | Decimal.D8 r => 56 :: uint_digits r
  | Decimal.D9 r => 57 :: uint_digits r
  end.

(** [n.toString()] for an integer [n >= 0]. *)
Definition decimal (n : Z) : jsstring := uint_digits (N.to_uint (Z.to_N n)).

(** [s.padStart(targetLength, "0")]. *)
Definition padStart0 (targetLength : nat) (s : jsstring) : jsstring :=
  repeat 48 (targetLength - length s)%nat ++ s.

(** date-fns [addLeadingZeros]. *)
Definition addLeadingZeros (number : Z) (targetLength : nat) : jsstring :=
  let sign := if number <? 0 then lit "-" else [] in
  sign ++ padStart0 targetLength (decimal (Z.abs number)).

(** date-fns [format(date, "yyyyMMddHHmmss")]: the calendar year of the
    era, then month, day, hour, minute and second, each padded to the
    width of its token. *)
Definition getTimestamp (date : jsDate) : jsstring :=
  let signedYear := getFullYear date in
  let year := if 0 <? signedYear then signedYear else 1 - signedYear in
  addLeadingZeros year 4
  ++ addLeadingZeros (getMonth date + 1) 2
  ++ addLeadingZeros (getDate date) 2
  ++ addLeadingZeros (getHours date) 2
  ++ addLeadingZeros (getMinutes date) 2
  ++ addLeadingZeros (getSeconds date) 2.

(** ** JSON values *)

(** Numbers are modelled by integers. An object is the list of its
    properties in insertion order. *)
Unset Elimination Schemes.
Inductive json :=
| JNull
| JBool (b : bool)
| JNum (n : Z)
| JStr (s : jsstring)
| JArr (elems : list json)
| JObj (props : list (jsstring * json)).
Set Elimination Schemes.

(** A value of type [unknown] that came from [JSON.parse], or
    [undefined] ([None]); also the result of reading a property. *)
Definition unknown := option json.

(** [!v]. *)
Definition falsy (v : unknown) : bool :=
  match v with
  | None => true
  | Some JNull => true
  | Some (JBool b) => negb b
  | Some (JNum n) => n =? 0
  | Some (JStr s) => str_falsy s
  | Some (JArr _) => false
  | Some (JObj _) => false
  end.

(** [typeof v === "object"]; [typeof null] is ["object"] too. *)
Definition typeof_object (v : unknown) : bool :=
  match v with
  | Some JNull | Some (JArr _) | Some (JObj _) => true
  | _ => false
  end.

Fixpoint assoc (k : jsstring) (props : list (jsstring * json)) : option json :=
  match props with
  | [] => None
  | (k', v) :: rest => if jsstring_eqb k' k then Some v else assoc k rest
  end.

(** [v.k] for a non-nullish [v]; only objects carry the properties read
    here. *)
Definition get_prop (v : unknown) (k : jsstring) : unknown :=
  match v with
  | Some (JObj props) => assoc k props
  | _ => None
  end.

(** ** [src/lib/types.ts] *)

Record PresetRequest := {
  pr_url : jsstring;
  pr_appkey : jsstring;
  pr_password : jsstring;
  pr_ver : jsstring;
  pr_timestamp : option jsstring;
  pr_dataRaw : jsstring;
  pr_dataB64 : option jsstring
}.

Record PresetItem := {
  p_id : jsstring;
  p_name : jsstring;
  p_request : PresetRequest;
  p_updatedAt : jsstring
}.

Record GroupItem := {
  g_id : jsstring;
  g_name : jsstring;
  g_presets : list PresetItem;
  g_updatedAt : jsstring
}.

Record StorageGroups := {
  groups : list GroupItem;
  lastUsedGroupId : option jsstring;
  lastUsedPresetId : option jsstring
}.

Record RequestSummary := {
  rs_url : jsstring;
  rs_appkey : jsstring;
  rs_ver : jsstring;
  rs_timestamp : jsstring;
  rs_sign : jsstring;
  rs_dataB64Len : Z
}.

Record HistoryItem := {
  h_id : jsstring;
  h_ts : jsstring;
  h_durationMs : Z;
  h_status : option Z;
  h_ok : bool;
  h_requestSummary : RequestSummary;
  h_request : option PresetRequest;
  h_responseText : jsstring;
  h_errorMessage : option jsstring
}.

Record StorageHistory := {
  items : list HistoryItem;
  limit : option Z
}.

(** *** What [JSON.stringify] makes of these records

    An optional property that is [undefined] is left out. *)

Definition opt_prop {A} (k : string) (enc : A -> json) (o : option A)
  : list (jsstring * json) :=
  match o with
  | Some a => [(lit k, enc a)]
  | None => []
  end.

Definition json_of_PresetRequest (r : PresetRequest) : json :=
  JObj ([(lit "url", JStr (pr_url r)); (lit "appkey", JStr (pr_appkey r));
         (lit "password", JStr (pr_password r)); (lit "ver", JStr (pr_ver r))]
        ++ opt_prop "timestamp" JStr (pr_timestamp r)
        ++ [(lit "dataRaw", JStr (pr_dataRaw r))]
        ++ opt_prop "dataB64" JStr (pr_dataB64 r)).

Definition json_of_PresetItem (p : PresetItem) : json :=
  JObj [(lit "id", JStr (p_id p)); (lit "name", JStr (p_name p));
        (lit "request", json_of_PresetRequest (p_request p));
        (lit "updatedAt", JStr (p_updatedAt p))].

Definition json_of_GroupItem (g : GroupItem) : json :=
  JObj [(lit "id", JStr (g_id g)); (lit "name", JStr (g_name g));
        (lit "presets", JArr (List.map json_of_PresetItem (g_presets g)));
        (lit "updatedAt", JStr (g_updatedAt g))].

Definition json_of_StorageGroups (s : StorageGroups) : json :=
  JObj ([(lit "groups", JArr (List.map json_of_GroupItem (groups s)))]
        ++ opt_prop "lastUsedGroupId" JStr (lastUsedGroupId s)
        ++ opt_prop "lastUsedPresetId" JStr (lastUsedPresetId s)).

Definition json_of_RequestSummary (r : RequestSummary) : json :=
  JObj [(lit "url", JStr (rs_url r)); (lit "appkey", JStr (rs_appkey r));
        (lit "ver", JStr (rs_ver r)); (lit "timestamp", JStr (rs_timestamp r));
        (lit "sign", JStr (rs_sign r)); (lit "dataB64Len", JNum (rs_dataB64Len r))].

Definition json_of_HistoryItem (h : HistoryItem) : json :=
  JObj ([(lit "id", JStr (h_id h)); (lit "ts", JStr (h_ts h));
         (lit "durationMs", JNum (h_durationMs h));
         (lit "status", match h_status h with Some n => JNum n | None => JNull end);
         (lit "ok", JBool (h_ok h));
         (lit "requestSummary", json_of_RequestSummary (h_requestSummary h))]
        ++ opt_prop "request" json_of_PresetRequest (h_request h)
        ++ [(lit "responseText", JStr (h_responseText h))]
        ++ opt_prop "errorMessage" JStr (h_errorMessage h)).

Definition json_of_StorageHistory (s : StorageHistory) : json :=
  JObj ([(lit "items", JArr (List.map json_of_HistoryItem (items s)))]
        ++ opt_prop "limit" JNum (limit s)).

(** ** The host and its state *)

(** One entry of a [FormData]. *)
Definition form_entry : Type := jsstring * jsstring.

Record HttpRequest := {
  http_url : jsstring;
  http_method : jsstring;
  http_body : list form_entry;
  http_abort_after : Z
}.

Record Response := {
  res_status : Z;
  res_text : result jsstring
}.

(** [res.ok]. *)
Definition res_ok (r : Response) : bool := in_range 200 299 (res_status r).

(** What the program cannot decide: whether it runs in the Tauri shell,
    what the clocks read at each reading, which identifiers are drawn, and
    how the network answers a request (a [Throw] is a transport failure
    or the abort fired by the timer). A reading of [performance.now()] is
    a number of milliseconds with a fraction; it is modelled by the
    rational number it denotes. *)
Record Host := {
  tauri : bool;
  clock : nat -> jsDate;
  performance_now : nat -> Q;
  randomUUID : nat -> jsstring;
  fetch : HttpRequest -> result Response
}.

(** [localStorage] keeps one document per key; the text written by
    [setItem] is represented by the JSON value it denotes. [None] means
    there is no [window]. *)
Record State := {
  localStorage : option (gmap jsstring json);
  dates_read : nat;
  perf_read : nat;
  uuids_drawn : nat;
  sent : list HttpRequest
}.

Definition M (A : Type) : Type := State -> result A * State.

Definition ret {A} (a : A) : M A := fun st => (Ok a, st).

Definition bind {A B} (m : M A) (k : A -> M B) : M B :=
  fun st =>
    match m st with
    | (Ok a, st') => k a st'
    | (Throw e, st') => (Throw e, st')
    end.

Notation "x <- m ;; k" := (bind m (fun x => k))
  (at level 100, m at next level, right associativity).

Definition lift {A} (r : result A) : M A := fun st => (r, st).

Fixpoint mapM {A B} (f : A -> M B) (l : list A) : M (list B) :=
  match l with
  | [] => ret []
  | x :: rest => y <- f x;; ys <- mapM f rest;; ret (y :: ys)
  end.

(** [m] run from [st] returns [a]. *)
Definition returns {A} (m : M A) (st : State) (a : A) : Prop :=
  exists st', m st = (Ok a, st').

Section Program.
Variable host : Host.

(** [new Date()]. *)
Definition newDate : M jsDate :=
  fun st =>
    (Ok (clock host (dates_read st)),
     {| localStorage := localStorage st; dates_read := S (dates_read st);
        perf_read := perf_read st; uuids_drawn := uuids_drawn st;
        sent := sent st |}).

(** [performance.now()]. *)
Definition performanceNow : M Q :=
  fun st =>
    (Ok (performance_now host (perf_read st)),
     {| localStorage := localStorage st; dates_read := dates_read st;
        perf_read := S (perf_read st); uuids_drawn := uuids_drawn st;
        sent := sent st |}).

(** [generateId()] of [src/lib/utils.ts]: a random identifier. *)
Definition generateId : M jsstring :=
  fun st =>
    (Ok (randomUUID host (uuids_drawn st)),
     {| localStorage := localStorage st; dates_read := dates_read st;
        perf_read := perf_read st; uuids_drawn := S (uuids_drawn st);
        sent := sent st |}).

(** [fetch(url, { method, body, signal })]: the request leaves, then the
    network answers or fails. *)
Definition doFetch (req : HttpRequest) : M Response :=
  fun st =>
    (fetch host req,
     {| localStorage := localStorage st; dates_read := dates_read st;
        perf_read := perf_read st; uuids_drawn := uuids_drawn st;
        sent := sent st ++ [req] |}).

(** ** [src/lib/request.ts] *)

Record RequestOptions := {
  opt_request : PresetRequest;
  opt_timeoutMs : Z;
  opt_forceTime : option jsstring
}.

Record RequestExecution := {
  ex_responseText : jsstring;
  ex_status : option Z;
  ex_ok : bool;
  ex_durationMs : Z;
  ex_timestamp : jsstring;
  ex_sign : jsstring
}.

(** [form.append(name, value)]: both arguments are converted to
    [USVString]s. *)
Definition FormData_append (form : list form_entry) (name value : jsstring)
  : list form_entry :=
  form ++ [(toWellFormed name, toWellFormed value)].

(** [Math.round]: the nearest integer, a tie going up. *)
Definition Math_round (x : Q) : Z := Qfloor (x + (1 # 2))%Q.

Definition executeMultipartRequest (options : RequestOptions) : M RequestExecution :=
  let request := opt_request options in
  let timeoutMs := opt_timeoutMs options in
  let forceTime := opt_forceTime options in
  timestamp <-
    match forceTime with
    | Some t => ret t
    | None =>
        match pr_timestamp request with
        | Some t => ret t
        | None => d <- newDate;; ret (getTimestamp d)
        end
    end;;
  let dataB64 :=
    match pr_dataB64 request with
    | Some b => if (0 <? length b)%nat then b else []
    | None => []
    end in
  sign <- lift (md5UpperHex (tauri host) (timestamp ++ dataB64 ++ pr_password request));;
  let form := [] in
  let form := FormData_append form (lit "appkey") (pr_appkey request) in
  let form := FormData_append form (lit "timestamp") timestamp in
  let form := FormData_append form (lit "data") dataB64 in
  let form := FormData_append form (lit "sign") sign in
  let form := FormData_append form (lit "ver")
                (if str_falsy (pr_ver request) then lit "1" else pr_ver request) in
  startedAt <- performanceNow;;
  res <- doFetch {| http_url := pr_url request; http_method := lit "POST";
                    http_body := form; http_abort_after := timeoutMs |};;
  text <- lift (res_text res);;
  finishedAt <- performanceNow;;
  ret {| ex_responseText := text;
         ex_status := Some (res_status res);
         ex_ok := res_ok res;
         ex_durationMs := Math_round (finishedAt - startedAt)%Q;
         ex_timestamp := timestamp;
         ex_sign := sign |}.

(** ** [src/lib/storage.ts] *)

Definition GROUPS_KEY : jsstring := lit "jk_wms_webapi_groups".
Definition HISTORY_KEY : jsstring := lit "jk_wms_webapi_history".
Definition HISTORY_LIMIT : Z := 500.

(** [ensureWindow()]: the [Storage] object, if there is one. *)
Definition ensureWindow : M (option (gmap jsstring json)) :=
  fun st => (Ok (localStorage st), st).

(** [storage.setItem(key, text)]. *)
Definition setItem (key : jsstring) (value : json) : M unit :=
  fun st =>
    (Ok tt,
     {| localStorage := (fun m : gmap jsstring json => <[key := value]> m) <$> localStorage st;
        dates_read := dates_read st; perf_read := perf_read st;
        uuids_drawn := uuids_drawn st; sent := sent st |}).

(** [readStorage]: the stored text always parses here, since the store
    keeps documents; a missing key gives the fallback. *)
Definition readStorage (key : jsstring) (fallback : json) : M json :=
  storage <- ensureWindow;;
  match storage with
  | None => ret fallback
  | Some m =>
      match m !! key with
      | None => ret fallback
      | Some raw => ret raw
      end
  end.

Definition writeStorage (key : jsstring) (value : json) : M unit :=
  storage <- ensureWindow;;
  match storage with
  | None => ret tt
  | Some _ => setItem key value
  end.

(** [loadGroups] and [loadHistory] hand out the stored document as it
    is (the cast [as T] checks nothing), or the empty default. *)
Definition loadGroups : M json :=
  readStorage GROUPS_KEY (JObj [(lit "groups", JArr [])]).

Definition loadHistory : M json :=
  readStorage HISTORY_KEY
    (JObj [(lit "items", JArr []); (lit "limit", JNum HISTORY_LIMIT)]).

(** [saveGroups] and [saveHistory] take whatever they are given: the
    typed callers pass a record, [importAll] passes the raw payload. *)
Definition saveGroups (data : json) : M unit := writeStorage GROUPS_KEY data.
Definition saveHistory (data : json) : M unit := writeStorage HISTORY_KEY data.

(** [arr.findIndex(pred)]. *)
Fixpoint findIndex {A} (pred : A -> bool) (arr : list A) : Z :=
  match arr with
  | [] => -1
  | x :: rest =>
      if pred x then 0
      else let i := findIndex pred rest in if i =? -1 then -1 else i + 1
  end.

Definition upsertPreset (groupId : jsstring) (preset : PresetItem)
                        (existing : StorageGroups) : M StorageGroups :=
  groups' <-
    mapM (fun group =>
            if negb (jsstring_eqb (g_id group) groupId) then ret group
            else
              let index :=
                findIndex (fun p => jsstring_eqb (p_id p) (p_id preset))
                          (g_presets group) in
              let presets :=
                if index =? -1 then g_presets group ++ [preset]
                else List.map (fun p => if jsstring_eqb (p_id p) (p_id preset)
                                        then preset else p)
                              (g_presets group) in
              d <- newDate;;
              ret {| g_id := g_id group; g_name := g_name group;
                     g_presets := presets; g_updatedAt := toISOString d |})
         (groups existing);;
  let result := {| groups := groups';
                   lastUsedGroupId := Some groupId;
                   lastUsedPresetId := Some (p_id preset) |} in
  _ <- saveGroups (json_of_StorageGroups result);;
  ret result.

Definition createGroup (name : jsstring) (existing : StorageGroups) : M StorageGroups :=
  id <- generateId;;
  d <- newDate;;
  let newGroup := {| g_id := id; g_name := name; g_presets := [];
                     g_updatedAt := toISOString d |} in
  let result := {| groups := groups existing ++ [newGroup];
                   lastUsedGroupId := Some (g_id newGroup);
                   lastUsedPresetId := None |} in
  _ <- saveGroups (json_of_StorageGroups result);;
  ret result.

Definition deleteGroup (groupId : jsstring) (existing : StorageGroups) : M StorageGroups :=
  let result :=
    {| groups := List.filter (fun g => negb (jsstring_eqb (g_id g) groupId))
                             (groups existing);
       lastUsedGroupId :=
         if bool_decide (lastUsedGroupId existing = Some groupId)
         then None else lastUsedGroupId existing;
       lastUsedPresetId :=
         match lastUsedPresetId existing with
         | Some last =>
             if negb (str_falsy last)
                && existsb (fun g => existsb (fun p => jsstring_eqb (p_id p) last)
                                             (g_presets g))
                           (groups existing)
             then Some last else None
         | None => None
         end |} in
  _ <- saveGroups (json_of_StorageGroups result);;
  ret result.

Definition deletePreset (groupId presetId : jsstring) (existing : StorageGroups)
  : M StorageGroups :=
  groups' <-
    mapM (fun group =>
            if negb (jsstring_eqb (g_id group) groupId) then ret group
            else
              d <- newDate;;
              ret {| g_id := g_id group; g_name := g_name group;
                     g_presets :=
                       List.filter (fun p => negb (jsstring_eqb (p_id p) presetId))
                                   (g_presets group);
                     g_updatedAt := toISOString d |})
         (groups existing);;
  let result := {| groups := groups';
                   lastUsedGroupId := lastUsedGroupId existing;
                   lastUsedPresetId :=
                     if bool_decide (lastUsedPresetId existing = Some presetId)
                     then None else lastUsedPresetId existing |} in
  _ <- saveGroups (json_of_StorageGroups result);;
  ret result.

Definition renameGroup (groupId name : jsstring) (existing : StorageGroups)
  : M StorageGroups :=
  groups' <-
    mapM (fun group =>
            if jsstring_eqb (g_id group) groupId
            then d <- newDate;;
                 ret {| g_id := g_id group; g_name := name;
                        g_presets := g_presets group;
                        g_updatedAt := toISOString d |}
            else ret group)
         (groups existing);;
  let result := {| groups := groups';
                   lastUsedGroupId := lastUsedGroupId existing;
                   lastUsedPresetId := lastUsedPresetId existing |} in
  _ <- saveGroups (json_of_StorageGroups result);;
  ret result.

Definition clonePreset (groupId : jsstring) (preset : PresetItem)
                       (existing : StorageGroups) : M StorageGroups :=
  id <- generateId;;
  d <- newDate;;
  let clone := {| p_id := id; p_name := p_name preset ++ lit " Copy";
                  p_request := p_request preset;
                  p_updatedAt := toISOString d |} in
  groups' <-
    mapM (fun group =>
            if jsstring_eqb (g_id group) groupId
            then d' <- newDate;;
                 ret {| g_id := g_id group; g_name := g_name group;
                        g_presets := g_presets group ++ [clone];
                        g_updatedAt := toISOString d' |}
            else ret group)
         (groups existing);;
  let result := {| groups := groups';
                   lastUsedGroupId := lastUsedGroupId existing;
                   lastUsedPresetId := lastUsedPresetId existing |} in
  _ <- saveGroups (json_of_StorageGroups result);;
  ret result.

(** [arr.slice(0, end)] for an integer [end]: a negative [end] counts
    from the end of the array. *)
Definition slice0 {A} (arr : list A) (end_ : Z) : list A :=
  let len := Z.of_nat (length arr) in
  let final := if end_ <? 0 then Z.max (len + end_) 0 else Z.min end_ len in
  firstn (Z.to_nat final) arr.

Definition pushHistory (entry : HistoryItem) (existing : StorageHistory)
  : M StorageHistory :=
  let limit' := match limit existing with Some l => l | None => HISTORY_LIMIT end in
  let items' := slice0 (entry :: items existing) limit' in
  let result := {| items := items'; limit := Some limit' |} in
  _ <- saveHistory (json_of_StorageHistory result);;
  ret result.

Definition clearHistory : M StorageHistory :=
  let result := {| items := []; limit := Some HISTORY_LIMIT |} in
  _ <- saveHistory (json_of_StorageHistory result);;
  ret result.

Definition exportAll (groups : StorageGroups) (history : StorageHistory)
  : StorageGroups * StorageHistory :=
  (groups, history).

(** The result is [null] ([None]) or the pair [{ groups, history }] of
    the payload's two properties, unchecked. *)
Definition importAll (data : unknown) : M (option (json * json)) :=
  if falsy data || negb (typeof_object data) then ret None
  else
    let payload_groups := get_prop data (lit "groups") in
    let payload_history := get_prop data (lit "history") in
    if falsy payload_groups || falsy payload_history then ret None
    else
      match payload_groups, payload_history with
      | Some g, Some h =>
          _ <- saveGroups g;;
          _ <- saveHistory h;;
          ret (Some (g, h))
      | _, _ => ret None
      end.

End Program.

(** The state after [localStorage.setItem(key, value)], if there is a
    [localStorage]. *)
Definition put_doc (key : jsstring) (value : json) (st : State) : State :=
  {| localStorage := (fun m : gmap jsstring json => <[key := value]> m) <$> localStorage st;
     dates_read := dates_read st; perf_read := perf_read st;
     uuids_drawn := uuids_drawn st; sent := sent st |}.

(** ** Properties stated in the spec *)

(** The limit in force: [existing.limit ?? HISTORY_LIMIT]. *)
Definition history_limit (h : StorageHistory) : Z :=
  match limit h with Some l => l | None => HISTORY_LIMIT end.

Definition group_exists (gid : jsstring) (s : StorageGroups) : bool :=
  existsb (fun g => jsstring_eqb (g_id g) gid) (groups s).

Definition preset_exists (pid : jsstring) (s : StorageGroups) : bool :=
  existsb (fun g => existsb (fun p => jsstring_eqb (p_id p) pid) (g_presets g))
          (groups s).

(** The invariant of the groups aggregate: the last used group and
    preset, when recorded, exist. *)
Definition last_used_resolve (s : StorageGroups) : bool :=
  match lastUsedGroupId s with Some gid => group_exists gid s | None => true end
  && match lastUsedPresetId s with Some pid => preset_exists pid s | None => true end.

(** The payloads [importAll] takes: an object whose [groups] and
    [history] properties are both truthy. *)
Definition import_accepts (data : unknown) : bool :=
  negb (falsy data) && typeof_object data
  && negb (falsy (get_prop data (lit "groups")))
  && negb (falsy (get_prop data (lit "history"))).

(** An object that has both properties, whatever their values. *)
Definition has_both_props (data : unknown) : bool :=
  match data with
  | Some (JObj _) =>
      match get_prop data (lit "groups"), get_prop data (lit "history") with
      | Some _, Some _ => true
      | _, _ => false
      end
  | _ => false
  end.

(** ** Notions the properties are stated with *)

Definition is_some {A} (o : option A) : bool :=
  match o with Some _ => true | None => false end.

Definition is_byte : Z -> bool := in_range 0 255.
Definition is_sextet (n : Z) : bool := in_range 0 63 n.
Definition is_nibble : Z -> bool := in_range 0 15.
Definition is_digit (c : Z) : bool := in_range 48 57 c.
Definition is_upper_hex (c : Z) : bool := in_range 48 57 c || in_range 65 70 c.

(** The Unicode scalar values a string spells. *)
Definition scalars (s : jsstring) : list Z :=
  List.concat (List.map (fun o => match o with Some v => [v] | None => [] end)
                        (code_points s)).

(** The UTF-8 bytes of a string. *)
Definition utf8_bytes (s : jsstring) : list Z := utf8_encode (scalars s).

(** The MD5 digest of the UTF-8 bytes of a string as upper-case
    hexadecimal digits. *)
Definition md5_hex (s : jsstring) : jsstring :=
  hex_string hex_upper (md5 (utf8_bytes s)).

(** The sextets of a byte sequence, before they are written as
    characters, and the padding that completes the last group. *)
Fixpoint sextets_of (bs : list Z) : list Z :=
  match bs with
  | [] => []
  | [a] => [a / 4; a mod 4 * 16]
  | [a; b] => [a / 4; a mod 4 * 16 + b / 16; b mod 16 * 4]
  | a :: b :: c :: rest =>
      a / 4 :: a mod 4 * 16 + b / 16 :: b mod 16 * 4 + c / 64 :: c mod 64
      :: sextets_of rest
  end.

Fixpoint padding_of (bs : list Z) : jsstring :=
  match bs with
  | [] => []
  | [_] => [b64_pad; b64_pad]
  | [_; _] => [b64_pad]
  | _ :: _ :: _ :: rest => padding_of rest
  end.

(** The facts about one sextet and its character, about one nibble and
    its digits, and about one padded number, checked by running the
    definitions over the whole range. *)
Definition sextet_check (n : Z) : bool :=
  match b64_value (b64_char n), unbase64 (b64_char n) with
  | Some a, Some b => (a =? n) && (b =? n)
  | _, _ => false
  end
  && negb (b64_char n =? b64_pad) && negb (is_ascii_whitespace (b64_char n)).

Definition nibble_check (n : Z) : bool :=
  match hex_value (hex_upper n) with Some a => a =? n | None => false end
  && negb (hex_upper n =? 117)
  && is_upper_hex (hex_upper n)
  && bool_decide (toUpperCase [hex_lower n] = [hex_upper n]).

Definition padded_ok (width : nat) (n : Z) : bool :=
  (length (addLeadingZeros n width) =? width)%nat
  && forallb is_digit (addLeadingZeros n width).

Definition in_alphabet (c : Z) : bool := is_some (b64_value c).

(** A character that is neither of the alphabet nor the padding sign. *)
Definition outside_alphabet (c : Z) : bool :=
  negb (in_alphabet c) && negb (c =? b64_pad).

(** Such a character that is not white space either. *)
Definition stray (c : Z) : bool :=
  negb (is_ascii_whitespace c) && outside_alphabet c.

(** What [decodeBase64ToUtf8] returns when [atob] throws: no [data], and
    as [error] the text the host gives its [InvalidCharacterError]. *)
Definition atob_rejected (wording : exn -> jsstring) : Decoded :=
  {| data := None; error := Some (wording InvalidCharacterError) |}.

(** A date of the common era range whose year has at most four digits. *)
Definition calendar_date (d : jsDate) : bool :=
  in_range (-9998) 9999 (getFullYear d) && in_range 0 11 (getMonth d)
  && in_range 1 31 (getDate d) && in_range 0 23 (getHours d)
  && in_range 0 59 (getMinutes d) && in_range 0 59 (getSeconds d).

(** The effective timestamp: the forced one, else the stored one, else
    the clock's. *)
Definition resolved_timestamp (host : Host) (options : RequestOptions) (st : State)
  : jsstring :=
  match opt_forceTime options with
  | Some t => t
  | None =>
      match pr_timestamp (opt_request options) with
      | Some t => t
      | None => getTimestamp (clock host (dates_read st))
      end
  end.

(** The effective payload: [dataB64], or the empty string without it. *)
Definition resolved_payload (options : RequestOptions) : jsstring :=
  match pr_dataB64 (opt_request options) with Some b => b | None => [] end.

(** The five fields of the multipart body, in order, each value as the
    [USVString] a [FormData] holds. *)
Definition multipart_fields (request : PresetRequest) (timestamp payload sign : jsstring)
  : list form_entry :=
  [(lit "appkey", toWellFormed (pr_appkey request));
   (lit "timestamp", toWellFormed timestamp);
   (lit "data", toWellFormed payload);
   (lit "sign", toWellFormed sign);
   (lit "ver", toWellFormed (if str_falsy (pr_ver request) then lit "1"
                             else pr_ver request))].

(** The spec's words for a generated time stamp, [yyyyMMddHHmmss]: the
    year in four decimal digits, then month (counted from 1), day, hour,
    minute and second in two digits each. *)
Definition decimal_digit (n : Z) : Z := 48 + n mod 10.

Definition two_digits (n : Z) : jsstring := [decimal_digit (n / 10); decimal_digit n].

Definition four_digits (n : Z) : jsstring :=
  [decimal_digit (n / 1000); decimal_digit (n / 100); decimal_digit (n / 10);
   decimal_digit n].

Definition yyyyMMddHHmmss (d : jsDate) : jsstring :=
  four_digits (getFullYear d) ++ two_digits (getMonth d + 1)
  ++ two_digits (getDate d) ++ two_digits (getHours d)
  ++ two_digits (getMinutes d) ++ two_digits (getSeconds d).

Definition written_as (width : nat) (digits : Z -> jsstring) (n : Z) : bool :=
  bool_decide (addLeadingZeros n width = digits n).

(** The characters of a Base64 text before its padding, for the bytes
    [bs]. *)
Definition base64_body (bs : list Z) : jsstring := List.map b64_char (sextets_of bs).

Definition without_white_space (s : jsstring) : jsstring :=
  List.filter (fun c => negb (is_ascii_whitespace c)) s.

Definition request_sent (options : RequestOptions) (timestamp payload sign : jsstring)
  : HttpRequest :=
  {| http_url := pr_url (opt_request options); http_method := lit "POST";
     http_body := multipart_fields (opt_request options) timestamp payload sign;
     http_abort_after := opt_timeoutMs options |}.

(** What [upsertPreset] makes of the preset list of the target group. *)
Definition upserted (preset : PresetItem) (presets : list PresetItem) : list PresetItem :=
  if existsb (fun p => jsstring_eqb (p_id p) (p_id preset)) presets
  then List.map (fun p => if jsstring_eqb (p_id p) (p_id preset) then preset else p) presets
  else presets ++ [preset].

(** How each operation relates a group to what it becomes. *)
Definition upsert_rel (groupId : jsstring) (preset : PresetItem) (g g' : GroupItem) : Prop :=
  (g_id g <> groupId -> g' = g)
  /\ (g_id g = groupId ->
      g_id g' = g_id g /\ g_name g' = g_name g
      /\ g_presets g' = upserted preset (g_presets g)).

Definition same_group (g g' : GroupItem) : Prop :=
  g_id g' = g_id g /\ g_presets g' = g_presets g.

Definition grown_group (g g' : GroupItem) : Prop :=
  g_id g' = g_id g /\ forall p, In p (g_presets g) -> In p (g_presets g').

Definition pruned_group (presetId : jsstring) (g g' : GroupItem) : Prop :=
  g_id g' = g_id g
  /\ forall p, In p (g_presets g) -> p_id p <> presetId -> In p (g_presets g').

(** ** The rest of [src/lib/storage.ts] and what is said about it *)

Section Seeding.
Variable host : Host.


End Seeding.

(** What [JSON.stringify] makes of the object [exportAll] returns. *)
Definition json_of_export (e : StorageGroups * StorageHistory) : json :=
  JObj [(lit "groups", json_of_StorageGroups (fst e));
        (lit "history", json_of_StorageHistory (snd e))].

(** One run has left the request log alone and has done to
    [localStorage], if there is one, nothing but put [doc] under [key]. *)
Definition stored_after (st st' : State) (key : jsstring) (doc : json) : Prop :=
  sent st' = sent st
  /\ localStorage st' = (fun m : gmap jsstring json => <[key := doc]> m) <$> localStorage st.

(** One run has left both the request log and [localStorage] alone. *)
Definition keeps_store (st st' : State) : Prop :=
  sent st' = sent st /\ localStorage st' = localStorage st.

(** [arr.find(pred)]. *)
Definition find_preset (id : jsstring) (presets : list PresetItem) : option PresetItem :=
  List.find (fun p => jsstring_eqb (p_id p) id) presets.

Definition without_preset (id : jsstring) (presets : list PresetItem) : list PresetItem :=
  List.filter (fun p => negb (jsstring_eqb (p_id p) id)) presets.

(** The entries pushed one after the other, each into what the push
    before returned. *)
Fixpoint pushAll (entries : list HistoryItem) (h : StorageHistory) : M StorageHistory :=
  match entries with
  | [] => ret h
  | e :: rest => h' <- pushHistory e h;; pushAll rest h'
  end.

(** The number a string of decimal digits writes. *)
Definition digits_value (s : jsstring) : Z :=
  fold_left (fun acc c => acc * 10 + (c - 48)) s 0.

Definition unpadded_ok (width : nat) (n : Z) : bool :=
  digits_value (addLeadingZeros n width) =? n.

(** [app/page.tsx], [handleSend]: the request kept in the history entry
    of an execution is the request that was executed, with the time
    stamp the execution used and the empty string for a missing
    [dataB64]. *)
Definition snapshot (request : PresetRequest) (execution : RequestExecution)
  : PresetRequest :=
  {| pr_url := pr_url request;
     pr_appkey := pr_appkey request;
     pr_password := pr_password request;
     pr_ver := pr_ver request;
     pr_timestamp := Some (ex_timestamp execution);
     pr_dataRaw := pr_dataRaw request;
     pr_dataB64 := Some (match pr_dataB64 request with Some b => b | None => [] end) |}.

(** What [executeMultipartRequest] returns when the answer [res] with
    the body [text] has come, the two readings of [performance.now()]
    being [startedAt] and [finishedAt]. *)
Definition execution_of (res : Response) (text : jsstring) (startedAt finishedAt : Q)
                        (timestamp sign : jsstring) : RequestExecution :=
  {| ex_responseText := text;
     ex_status := Some (res_status res);
     ex_ok := in_range 200 299 (res_status res);
     ex_durationMs := Math_round (finishedAt - startedAt)%Q;
     ex_timestamp := timestamp;
     ex_sign := sign |}.

(** What an operation on the groups named [groupId] does to one group:
    nothing to a group with another id; a target keeps its id and gets
    the name and the presets given. Only [updatedAt] is left open. *)
Definition edited_group (groupId : jsstring) (name' : jsstring -> jsstring)
    (presets' : list PresetItem -> list PresetItem) (g g' : GroupItem) : Prop :=
  (g_id g <> groupId -> g' = g)
  /\ (g_id g = groupId ->
      g_id g' = g_id g /\ g_name g' = name' (g_name g)
      /\ g_presets g' = presets' (g_presets g)).

(** Two groups that differ at most in [updatedAt]. *)
Definition same_content (g g' : GroupItem) : Prop :=
  g_id g' = g_id g /\ g_name g' = g_name g /\ g_presets g' = g_presets g.

(** The copy [clonePreset] makes. *)
Definition clone_of (host : Host) (st : State) (preset : PresetItem) : PresetItem :=
  {| p_id := randomUUID host (uuids_drawn st);
     p_name := p_name preset ++ lit " Copy";
     p_request := p_request preset;
     p_updatedAt := toISOString (clock host (dates_read st)) |}.

(** A run of [m] returns, and writes what it returns, encoded by [enc],
    under [key], and does nothing else to the store. *)
Definition writes_through {A} (key : jsstring) (enc : A -> json) (m : M A) (st : State)
  : Prop :=
  exists r st', m st = (Ok r, st') /\ stored_after st st' key (enc r).

(** The document stored under [key], if there is a [localStorage] that
    has one. *)
Definition stored_doc (key : jsstring) (st : State) : option json :=
  match localStorage st with Some m => m !! key | None => None end.

(** ** Sample values *)

Definition sample_request : PresetRequest :=
  {| pr_url := lit "https://example.test/api"; pr_appkey := lit "demo";
     pr_password := lit "secret"; pr_ver := lit "1";
     pr_timestamp := Some (lit "20240115093000");
     pr_dataRaw := lit "{}"; pr_dataB64 := Some (lit "eyJhIjoxfQ==") |}.

Definition sample_preset (id : string) : PresetItem :=
  {| p_id := lit id; p_name := lit id; p_request := sample_request;
     p_updatedAt := lit "2024-01-15T01:30:00.000Z" |}.

Definition sample_group (id : string) (presets : list PresetItem) : GroupItem :=
  {| g_id := lit id; g_name := lit id; g_presets := presets;
     g_updatedAt := lit "2024-01-15T01:30:00.000Z" |}.

Definition sample_entry (id : string) : HistoryItem :=
  {| h_id := lit id; h_ts := lit "2024-01-15T01:30:00.000Z";
     h_durationMs := 12; h_status := Some 200; h_ok := true;
     h_requestSummary :=
       {| rs_url := lit "https://example.test/api"; rs_appkey := lit "demo";
          rs_ver := lit "1"; rs_timestamp := lit "20240115093000";
          rs_sign := lit "73C98F0652469629488F74D8503171F7"; rs_dataB64Len := 12 |};
     h_request := None; h_responseText := lit "ok"; h_errorMessage := None |}.

Definition sample_date : jsDate :=
  {| getFullYear := 2024; getMonth := 0; getDate := 15; getHours := 9;
     getMinutes := 30; getSeconds := 0;
     toISOString := lit "2024-01-15T01:30:00.000Z" |}.

(** A host outside the Tauri shell whose network always answers 200 and
    whose stopwatch reads 0.6, 1.4, 2.2, ... milliseconds. *)
Definition sample_host : Host :=
  {| tauri := false;
     clock := fun _ => sample_date;
     performance_now := fun n => (Z.of_nat n * 8 + 6) # 10;
     randomUUID := fun n => lit "id-" ++ decimal (Z.of_nat n);
     fetch := fun _ => Ok {| res_status := 200; res_text := Ok (lit "ok") |} |}.

(** The texts of one engine. *)
Definition sample_wording (e : exn) : jsstring :=
  match e with
  | URIError => lit "URI malformed"
  | InvalidCharacterError => lit "Invalid character"
  | RangeError => lit "Invalid time value"
  | TypeError msg => msg
  end.

(** A browser with an empty [localStorage]. *)
Definition state0 : State :=
  {| localStorage := Some ∅; dates_read := 0; perf_read := 0;
     uuids_drawn := 0; sent := [] |}.

Definition sample_groups : StorageGroups :=
  {| groups := [sample_group "g1" [sample_preset "p1"; sample_preset "p2"];
                sample_group "g2" []];
     lastUsedGroupId := Some (lit "g1");
     lastUsedPresetId := Some (lit "p1") |}.

Definition sample_options : RequestOptions :=
  {| opt_request := sample_request; opt_timeoutMs := 1000; opt_forceTime := None |}.

(** * The model against known values *)

(** The test suite of RFC 1321, in part, and a message of two blocks. *)
Example md5_of_nothing :
  hex_string hex_lower (md5 []) = lit "d41d8cd98f00b204e9800998ecf8427e".
Proof. vm_compute. reflexivity. Qed.

Example md5_of_abc :
  hex_string hex_lower (md5 (lit "abc")) = lit "900150983cd24fb0d6963f7d28e17f72".
Proof. vm_compute. reflexivity. Qed.

Example md5_of_message_digest :
  hex_string hex_lower (md5 (lit "message digest"))
  = lit "f96b697d7cb7938d525a2f31aaf161d0".
Proof. vm_compute. reflexivity. Qed.

Example md5_of_eighty_digits :
  hex_string hex_lower
    (md5 (lit "12345678901234567890123456789012345678901234567890123456789012345678901234567890"))
  = lit "57edf4a22be3c955ac49da2e2107b67a".
Proof. vm_compute. reflexivity. Qed.

(** The example of the spec: the payload [{"a":1}], its Base64 form and
    the signature with the password [secret]. *)
Example base64_of_sample_json :
  encodeUtf8ToBase64 true [123; 34; 97; 34; 58; 49; 125] = Ok (lit "eyJhIjoxfQ==")
  /\ encodeUtf8ToBase64 false [123; 34; 97; 34; 58; 49; 125] = Ok (lit "eyJhIjoxfQ==").
Proof. split; vm_compute; reflexivity. Qed.

Example signature_of_sample :
  md5UpperHex false (lit "20240115093000eyJhIjoxfQ==secret")
  = Ok (lit "73C98F0652469629488F74D8503171F7")
  /\ md5UpperHex true (lit "20240115093000eyJhIjoxfQ==secret")
     = Ok (lit "73C98F0652469629488F74D8503171F7").
Proof. split; vm_compute; reflexivity. Qed.

Example getTimestamp_of_sample_date :
  getTimestamp sample_date = lit "20240115093000".
Proof. vm_compute. reflexivity. Qed.

(** A lone surrogate has no UTF-8 form: [Buffer] writes U+FFFD, the URI
    functions throw. *)
Example lone_surrogate_encoded :
  encodeUtf8ToBase64 true [0xD83D] = Ok (lit "77+9")
  /\ encodeUtf8ToBase64 false [0xD83D] = Throw URIError.
Proof. split; vm_compute; reflexivity. Qed.

(** * Tests on integers *)

Lemma forallb_below (P : Z -> bool) (n : nat) :
  forallb P (List.map Z.of_nat (seq 0 n)) = true ->
  forall z, 0 <= z < Z.of_nat n -> P z = true.
Proof.
  intros H z Hz. rewrite forallb_forall in H. apply H.
  apply in_map_iff. exists (Z.to_nat z). split; [lia|].
  apply in_seq. lia.
Qed.

Ltac arith := Z.to_euclidean_division_equations; lia.

Lemma in_range_iff lo hi b : in_range lo hi b = true <-> lo <= b <= hi.
Proof. unfold in_range. rewrite andb_true_iff, !Z.leb_le. tauto. Qed.

Lemma in_range_true lo hi b : lo <= b <= hi -> in_range lo hi b = true.
Proof. apply in_range_iff. Qed.

Lemma in_range_false lo hi b : b < lo \/ hi < b -> in_range lo hi b = false.
Proof.
  intros H. destruct (in_range lo hi b) eqn:E; [|reflexivity].
  apply in_range_iff in E. lia.
Qed.

Lemma is_cont_range b : is_cont b = in_range 0x80 0xBF b.
Proof. reflexivity. Qed.

Lemma ltb_true a b : a < b -> (a <? b) = true.
Proof. apply Z.ltb_lt. Qed.

Lemma ltb_false a b : b <= a -> (a <? b) = false.
Proof. apply Z.ltb_ge. Qed.

Lemma eqb_true a b : a = b -> (a =? b) = true.
Proof. apply Z.eqb_eq. Qed.

Lemma eqb_false a b : a <> b -> (a =? b) = false.
Proof. apply Z.eqb_neq. Qed.

(** Settles every range test, comparison and equality test of the goal
    whose outcome follows from the hypotheses by linear arithmetic. *)
Ltac settle_tests :=
  rewrite ?is_cont_range;
  repeat match goal with
  | |- context [in_range ?lo ?hi ?b] =>
      first [ rewrite (in_range_true lo hi b) by arith
            | rewrite (in_range_false lo hi b) by arith ]
  | |- context [?a <? ?b] =>
      first [ rewrite (ltb_true a b) by arith | rewrite (ltb_false a b) by arith ]
  | |- context [?a =? ?b] =>
      first [ rewrite (eqb_true a b) by arith | rewrite (eqb_false a b) by arith
            | destruct (Z.eqb_spec a b) ]
  end.

Lemma is_scalar_iff v :
  is_scalar v = true <-> (0 <= v < 0xD800 \/ 0xDFFF < v < 0x110000).
Proof.
  unfold is_scalar. rewrite !andb_true_iff, negb_true_iff, andb_false_iff.
  rewrite Z.leb_le, Z.ltb_lt, !Z.leb_gt. lia.
Qed.

(** * UTF-8 *)

Lemma utf8_encode_cp_cases v :
  is_scalar v = true ->
  (0 <= v < 0x80 /\ utf8_encode_cp v = [v])
  \/ (0x80 <= v < 0x800 /\ utf8_encode_cp v = [0xC0 + v / 64; 0x80 + v mod 64])
  \/ (0x800 <= v < 0x10000 /\ (v < 0xD800 \/ 0xDFFF < v)
      /\ utf8_encode_cp v = [0xE0 + v / 4096; 0x80 + v / 64 mod 64; 0x80 + v mod 64])
  \/ (0x10000 <= v < 0x110000
      /\ utf8_encode_cp v = [0xF0 + v / 262144; 0x80 + v / 4096 mod 64;
                             0x80 + v / 64 mod 64; 0x80 + v mod 64]).
Proof.
  intros Hv. apply is_scalar_iff in Hv. unfold utf8_encode_cp.
  destruct (Z.ltb_spec v 0x80); [left; split; [lia|reflexivity]|].
  destruct (Z.ltb_spec v 0x800); [right; left; split; [lia|reflexivity]|].
  destruct (Z.ltb_spec v 0x10000);
    [right; right; left; repeat split; try lia | right; right; right; split; [lia|reflexivity]].
Qed.

Lemma utf8_encode_cp_bytes v :
  is_scalar v = true -> forallb is_byte (utf8_encode_cp v) = true.
Proof.
  intros Hv. unfold is_byte.
  destruct (utf8_encode_cp_cases v Hv) as [[H ->]|[[H ->]|[(H & H' & ->)|[H ->]]]];
    cbn [forallb]; settle_tests; reflexivity.
Qed.

Lemma utf8_decode_lossy_cp v rest :
  is_scalar v = true ->
  utf8_decode_lossy (utf8_encode_cp v ++ rest) = v :: utf8_decode_lossy rest.
Proof.
  intros Hv.
  destruct (utf8_encode_cp_cases v Hv) as [[H ->]|[[H ->]|[(H & H' & ->)|[H ->]]]];
    cbn [app utf8_decode_lossy]; repeat (progress (settle_tests; cbn [andb]));
    f_equal; arith.
Qed.

Lemma utf8_decode_lossy_encode vs :
  forallb is_scalar vs = true -> utf8_decode_lossy (utf8_encode vs) = vs.
Proof.
  induction vs as [|v vs IH]; [reflexivity|].
  cbn [forallb]. rewrite andb_true_iff. intros [Hv Hvs].
  unfold utf8_encode. cbn [List.map List.concat].
  rewrite utf8_decode_lossy_cp by exact Hv. f_equal. now apply IH.
Qed.

(** * UTF-16 *)

Lemma surrogate_iff c :
  (is_high_surrogate c = true <-> 0xD800 <= c <= 0xDBFF)
  /\ (is_low_surrogate c = true <-> 0xDC00 <= c <= 0xDFFF).
Proof. split; apply in_range_iff. Qed.

Lemma code_points_pair c d r :
  is_high_surrogate c = true -> is_low_surrogate d = true ->
  code_points (c :: d :: r)
  = Some (0x10000 + (c - 0xD800) * 0x400 + (d - 0xDC00)) :: code_points r.
Proof. intros Hc Hd. cbn [code_points]. now rewrite Hc, Hd. Qed.

Lemma code_points_bmp c r :
  is_high_surrogate c = false -> is_low_surrogate c = false ->
  code_points (c :: r) = Some c :: code_points r.
Proof. intros Hc Hd. cbn [code_points]. now rewrite Hc, Hd. Qed.

(** A well-formed string is the UTF-16 form of its scalar values. *)
Lemma wellFormed_scalars_bounded (n : nat) (s : jsstring) :
  (length s <= n)%nat ->
  isWellFormed s = true ->
  code_points s = List.map Some (scalars s)
  /\ forallb is_scalar (scalars s) = true
  /\ utf16_encode (scalars s) = s.
Proof.
  revert s. induction n as [|n IH]; intros s Hlen.
  { destruct s; [intros _; now repeat split | cbn in Hlen; lia]. }
  destruct s as [|c rest]; [intros _; now repeat split|].
  unfold isWellFormed. rewrite andb_true_iff. intros [Hunits Hcps].
  cbn [forallb] in Hunits. apply andb_true_iff in Hunits. destruct Hunits as [Hc Hrest].
  unfold is_code_unit in Hc. apply andb_true_iff in Hc.
  rewrite Z.leb_le, Z.ltb_lt in Hc.
  destruct (is_high_surrogate c) eqn:Eh.
  - destruct rest as [|d rest'].
    { cbn [code_points] in Hcps. rewrite Eh in Hcps. discriminate. }
    destruct (is_low_surrogate d) eqn:El.
    + rewrite code_points_pair in Hcps by assumption.
      cbn [forallb] in Hcps, Hrest. apply andb_true_iff in Hrest. destruct Hrest as [_ Hrest].
      destruct (IH rest') as (IH1 & IH2 & IH3).
      { cbn [length] in Hlen. lia. }
      { unfold isWellFormed. now rewrite Hrest, Hcps. }
      apply surrogate_iff in Eh, El.
      unfold scalars. rewrite code_points_pair by (apply surrogate_iff; assumption).
      cbn [List.map List.concat app]. fold (scalars rest').
      repeat split.
      * cbn [List.map]. now rewrite <- IH1.
      * cbn [forallb]. rewrite IH2, andb_true_r. apply is_scalar_iff. lia.
      * unfold utf16_encode. cbn [List.map List.concat]. fold (utf16_encode (scalars rest')).
        rewrite IH3. unfold utf16_encode_cp. settle_tests. cbn [app].
        f_equal; [arith | f_equal; arith].
    + cbn [code_points] in Hcps. rewrite Eh, El in Hcps. discriminate.
  - destruct (is_low_surrogate c) eqn:El.
    { cbn [code_points] in Hcps. rewrite Eh, El in Hcps. discriminate. }
    rewrite code_points_bmp in Hcps by assumption. cbn [forallb] in Hcps.
    destruct (IH rest) as (IH1 & IH2 & IH3).
    { cbn [length] in Hlen. lia. }
    { unfold isWellFormed. now rewrite Hrest, Hcps. }
    assert (Hh : ~ 0xD800 <= c <= 0xDBFF) by (rewrite <- (proj1 (surrogate_iff c)); congruence).
    assert (Hl : ~ 0xDC00 <= c <= 0xDFFF) by (rewrite <- (proj2 (surrogate_iff c)); congruence).
    unfold scalars. rewrite code_points_bmp by assumption.
    cbn [List.map List.concat app]. fold (scalars rest).
    repeat split.
    * cbn [List.map]. now rewrite <- IH1.
    * cbn [forallb]. rewrite IH2, andb_true_r. apply is_scalar_iff. lia.
    * unfold utf16_encode. cbn [List.map List.concat]. fold (utf16_encode (scalars rest)).
      rewrite IH3. unfold utf16_encode_cp. settle_tests. reflexivity.
Qed.

Lemma wellFormed_scalars (s : jsstring) :
  isWellFormed s = true ->
  code_points s = List.map Some (scalars s)
  /\ forallb is_scalar (scalars s) = true
  /\ utf16_encode (scalars s) = s.
Proof. apply (wellFormed_scalars_bounded (length s)). lia. Qed.

Lemma from_utf8_wellFormed s :
  isWellFormed s = true -> Buffer.from_utf8 s = utf8_bytes s.
Proof.
  intros Hwf. destruct (wellFormed_scalars s Hwf) as (Hcp & _ & _).
  unfold Buffer.from_utf8, utf8_bytes, utf8_encode. rewrite Hcp.
  rewrite List.map_map. reflexivity.
Qed.

Lemma utf8_encode_bytes vs :
  forallb is_scalar vs = true -> forallb is_byte (utf8_encode vs) = true.
Proof.
  induction vs as [|v vs IH]; [reflexivity|].
  cbn [forallb]. rewrite andb_true_iff. intros [Hv Hvs].
  unfold utf8_encode. cbn [List.map List.concat]. rewrite forallb_app.
  rewrite (utf8_encode_cp_bytes v Hv). now apply IH.
Qed.

(** * Base64 *)

Lemma list_ind3 {A} (P : list A -> Prop) :
  P [] -> (forall a, P [a]) -> (forall a b, P [a; b]) ->
  (forall a b c l, P l -> P (a :: b :: c :: l)) ->
  forall l, P l.
Proof.
  intros H0 H1 H2 H3. fix IH 1.
  intros [|a [|b [|c l]]]; [exact H0 | apply H1 | apply H2 | apply H3, IH].
Qed.

Lemma sextet_checked n : is_sextet n = true -> sextet_check n = true.
Proof.
  intros H. apply in_range_iff in H.
  apply (forallb_below sextet_check (Z.to_nat 64)); [vm_compute; reflexivity | lia].
Qed.

Lemma sextet_char n :
  is_sextet n = true ->
  b64_value (b64_char n) = Some n /\ unbase64 (b64_char n) = Some n
  /\ (b64_char n =? b64_pad) = false /\ is_ascii_whitespace (b64_char n) = false.
Proof.
  intros H. apply sextet_checked in H. unfold sextet_check in H.
  rewrite !andb_true_iff, !negb_true_iff in H. destruct H as [[H Hp] Hw].
  destruct (b64_value (b64_char n)) as [a|]; [|discriminate].
  destruct (unbase64 (b64_char n)) as [b|]; [|discriminate].
  apply andb_true_iff in H. rewrite !Z.eqb_eq in H. destruct H as [-> ->]. auto.
Qed.

Lemma base64_encode_split bs :
  base64_encode bs = List.map b64_char (sextets_of bs) ++ padding_of bs.
Proof.
  induction bs as [| | |a b c l IH] using list_ind3; try reflexivity.
  cbn [base64_encode sextets_of padding_of List.map app]. now rewrite IH.
Qed.

Lemma sextets_of_range bs :
  forallb is_byte bs = true -> forallb is_sextet (sextets_of bs) = true.
Proof.
  unfold is_byte, is_sextet.
  induction bs as [| | |a b c l IH] using list_ind3; cbn [forallb sextets_of];
    rewrite ?andb_true_iff, ?in_range_iff; intros H.
  - reflexivity.
  - repeat split; arith.
  - repeat split; arith.
  - destruct H as (Ha & Hb & Hc & Hl). repeat split; try arith. now apply IH.
Qed.

Lemma sextets_to_bytes_of bs :
  forallb is_byte bs = true -> sextets_to_bytes (sextets_of bs) = bs.
Proof.
  unfold is_byte.
  induction bs as [| | |a b c l IH] using list_ind3; cbn [forallb sextets_of sextets_to_bytes];
    rewrite ?andb_true_iff, ?in_range_iff; intros H.
  - reflexivity.
  - f_equal. arith.
  - f_equal; [arith | f_equal; arith].
  - destruct H as (Ha & Hb & Hc & Hl). rewrite IH by exact Hl.
    f_equal; [arith | f_equal; [arith | f_equal; arith]].
Qed.

Lemma padding_cases bs :
  padding_of bs = [] \/ padding_of bs = [b64_pad] \/ padding_of bs = [b64_pad; b64_pad].
Proof. induction bs using list_ind3; cbn [padding_of]; auto. Qed.

Lemma b64_char_low n : is_sextet n = true -> b64_char n mod 256 = b64_char n.
Proof.
  intros H. apply in_range_iff in H. apply Z.eqb_eq.
  apply (forallb_below (fun n => b64_char n mod 256 =? b64_char n) (Z.to_nat 64));
    [vm_compute; reflexivity | lia].
Qed.

Lemma node_sextets_chars ss pad :
  forallb is_sextet ss = true ->
  pad = [] \/ pad = [b64_pad] \/ pad = [b64_pad; b64_pad] ->
  node_sextets (List.map b64_char ss ++ pad) = ss.
Proof.
  intros Hss Hpad. induction ss as [|n ss IH].
  - destruct Hpad as [->|[->| ->]]; reflexivity.
  - cbn [forallb] in Hss. apply andb_true_iff in Hss. destruct Hss as [Hn Hss].
    destruct (sextet_char n Hn) as (_ & Hu & Hp & _).
    cbn [List.map app node_sextets]. cbv zeta. rewrite (b64_char_low n Hn), Hp, Hu.
    f_equal. now apply IH.
Qed.

Lemma from_base64_encoded bs :
  forallb is_byte bs = true ->
  Buffer.from_base64 (Buffer.toString_base64 bs) = bs.
Proof.
  intros Hbs. unfold Buffer.from_base64, Buffer.toString_base64.
  rewrite base64_encode_split.
  rewrite node_sextets_chars by (auto using sextets_of_range, padding_cases).
  now apply sextets_to_bytes_of.
Qed.

(** ** The forgiving decoder on an encoder's output *)

Lemma all_b64_values_chars ss :
  forallb is_sextet ss = true -> all_b64_values (List.map b64_char ss) = Some ss.
Proof.
  induction ss as [|n ss IH]; [reflexivity|].
  cbn [forallb]. rewrite andb_true_iff. intros [Hn Hss].
  destruct (sextet_char n Hn) as (Hv & _).
  cbn [List.map all_b64_values]. now rewrite Hv, IH.
Qed.

Lemma chars_not_pad ss c :
  forallb is_sextet ss = true -> In c (List.map b64_char ss) -> (c =? b64_pad) = false.
Proof.
  intros Hss Hin. apply in_map_iff in Hin. destruct Hin as (n & <- & Hn).
  rewrite forallb_forall in Hss. now destruct (sextet_char n (Hss n Hn)) as (_ & _ & Hp & _).
Qed.

Lemma strip_padding_chars ss pad :
  forallb is_sextet ss = true ->
  pad = [] \/ pad = [b64_pad] \/ pad = [b64_pad; b64_pad] ->
  strip_padding (List.map b64_char ss ++ pad) = List.map b64_char ss.
Proof.
  intros Hss Hpad. set (x := List.map b64_char ss).
  assert (Hlast : forall p r, rev x = p :: r -> (p =? b64_pad) = false).
  { intros p r Hrev. apply (chars_not_pad ss p Hss). fold x.
    apply in_rev. rewrite Hrev. now left. }
  unfold strip_padding. destruct Hpad as [->|[->| ->]].
  - rewrite app_nil_r. destruct (rev x) as [|p [|q r]] eqn:Hrev; [reflexivity| |];
      now rewrite (Hlast _ _ eq_refl).
  - rewrite rev_app_distr. cbn [rev app]. rewrite Z.eqb_refl.
    destruct (rev x) as [|q r] eqn:Hrev.
    + apply (f_equal (@rev Z)) in Hrev. rewrite rev_involutive in Hrev. now rewrite Hrev.
    + rewrite (Hlast _ _ eq_refl). rewrite <- (rev_involutive x), Hrev. reflexivity.
  - rewrite rev_app_distr. cbn [rev app]. rewrite Z.eqb_refl. apply rev_involutive.
Qed.

Lemma base64_encode_length bs : (length (base64_encode bs) mod 4 = 0)%nat.
Proof.
  induction bs as [| | |a b c l IH] using list_ind3; try reflexivity.
  cbn [base64_encode length].
  change (S (S (S (S (length (base64_encode l)))))) with (4 + length (base64_encode l))%nat.
  rewrite <- Nat.Div0.add_mod_idemp_r, IH. reflexivity.
Qed.

Lemma sextets_of_length bs : ((length (sextets_of bs) mod 4 =? 1) = false)%nat.
Proof.
  induction bs as [| | |a b c l IH] using list_ind3; try reflexivity.
  cbn [sextets_of length].
  change (S (S (S (S (length (sextets_of l)))))) with (4 + length (sextets_of l))%nat.
  rewrite <- Nat.Div0.add_mod_idemp_l. exact IH.
Qed.

Lemma base64_encode_no_space bs :
  forallb is_byte bs = true ->
  List.filter (fun c => negb (is_ascii_whitespace c)) (base64_encode bs) = base64_encode bs.
Proof.
  intros Hbs. apply forallb_filter_id. rewrite base64_encode_split, forallb_app.
  apply andb_true_iff. split.
  - apply forallb_forall. intros c Hin. apply in_map_iff in Hin.
    destruct Hin as (n & <- & Hn).
    pose proof (sextets_of_range bs Hbs) as Hr. rewrite forallb_forall in Hr.
    destruct (sextet_char n (Hr n Hn)) as (_ & _ & _ & Hw). now rewrite Hw.
  - destruct (padding_cases bs) as [->|[->| ->]]; reflexivity.
Qed.

Lemma atob_encoded bs :
  forallb is_byte bs = true -> atob (base64_encode bs) = Ok bs.
Proof.
  intros Hbs. unfold atob.
  rewrite base64_encode_no_space by exact Hbs.
  rewrite base64_encode_length. cbn [Nat.eqb].
  rewrite base64_encode_split.
  rewrite strip_padding_chars by (auto using sextets_of_range, padding_cases).
  rewrite length_map, sextets_of_length.
  rewrite all_b64_values_chars by (now apply sextets_of_range).
  now rewrite sextets_to_bytes_of.
Qed.

Lemma btoa_bytes bs :
  forallb is_byte bs = true -> btoa bs = Ok (base64_encode bs).
Proof. intros Hbs. unfold btoa. fold is_byte. now rewrite Hbs. Qed.

(** * URI escaping *)

Lemma nibble_checked n : is_nibble n = true -> nibble_check n = true.
Proof.
  intros H. apply in_range_iff in H.
  apply (forallb_below nibble_check (Z.to_nat 16)); [vm_compute; reflexivity | lia].
Qed.

Lemma nibble_digit n :
  is_nibble n = true ->
  hex_value (hex_upper n) = Some n /\ (hex_upper n =? 117) = false
  /\ is_upper_hex (hex_upper n) = true
  /\ toUpperCase [hex_lower n] = [hex_upper n].
Proof.
  intros H. apply nibble_checked in H. unfold nibble_check in H.
  rewrite !andb_true_iff, negb_true_iff, bool_decide_eq_true in H.
  destruct H as [[[H Hu] Hx] Hup].
  destruct (hex_value (hex_upper n)) as [a|]; [|discriminate].
  apply Z.eqb_eq in H. subst a. auto.
Qed.

Lemma byte_nibbles b :
  is_byte b = true ->
  is_nibble (b / 16) = true /\ is_nibble (b mod 16) = true.
Proof.
  unfold is_byte, is_nibble. rewrite !in_range_iff. intros H. split; arith.
Qed.

Lemma hex2_percent b rest :
  is_byte b = true ->
  hex2 (hex_upper (b / 16) :: hex_upper (b mod 16) :: rest) = Some b.
Proof.
  intros Hb. destruct (byte_nibbles b Hb) as [Hh Hl].
  destruct (nibble_digit _ Hh) as (Eh & _), (nibble_digit _ Hl) as (El & _).
  unfold hex2. rewrite Eh, El. f_equal. apply in_range_iff in Hb. arith.
Qed.

Lemma hex_u4_digit h rest : (h =? 117) = false -> hex_u4 (h :: rest) = None.
Proof.
  intros Hh. unfold hex_u4.
  destruct rest as [|h1 [|h2 [|h3 [|h4 r]]]]; try reflexivity. now rewrite Hh.
Qed.

Lemma unescape_percent b tail :
  is_byte b = true ->
  unescape_from 0 (percent b ++ tail) = b :: unescape_from 0 tail.
Proof.
  intros Hb. unfold percent. cbn [app unescape_from]. rewrite Z.eqb_refl.
  rewrite hex_u4_digit
    by (now destruct (byte_nibbles b Hb) as [Hh _]; destruct (nibble_digit _ Hh) as (_ & ? & _)).
  now rewrite hex2_percent.
Qed.

Lemma unescape_percents bs tail :
  forallb is_byte bs = true ->
  unescape_from 0 (List.concat (List.map percent bs) ++ tail) = bs ++ unescape_from 0 tail.
Proof.
  induction bs as [|b bs IH]; [reflexivity|].
  cbn [forallb]. rewrite andb_true_iff. intros [Hb Hbs].
  cbn [List.map List.concat]. rewrite <- app_assoc.
  rewrite unescape_percent by exact Hb. cbn [app]. f_equal. now apply IH.
Qed.

Lemma uri_unreserved_ascii v :
  uri_unreserved v = true -> 0 <= v < 0x80 /\ v <> 37.
Proof.
  unfold uri_unreserved, is_alnum. rewrite !orb_true_iff, !in_range_iff.
  intros [H|H]; [lia|].
  apply existsb_exists in H. destruct H as (x & Hin & Heq).
  apply Z.eqb_eq in Heq. subst x. vm_compute in Hin.
  intuition (subst; lia).
Qed.

Lemma escape_unreserved_ascii v :
  escape_unreserved v = true -> 0 <= v < 0x80 /\ v <> 37.
Proof.
  unfold escape_unreserved, is_alnum. rewrite !orb_true_iff, !in_range_iff.
  intros [H|H]; [lia|].
  apply existsb_exists in H. destruct H as (x & Hin & Heq).
  apply Z.eqb_eq in Heq. subst x. vm_compute in Hin.
  intuition (subst; lia).
Qed.

Lemma unescape_encode_cp v tail :
  is_scalar v = true ->
  unescape_from 0 (uri_encode_cp v ++ tail) = utf8_encode_cp v ++ unescape_from 0 tail.
Proof.
  intros Hv. unfold uri_encode_cp. destruct (uri_unreserved v) eqn:E.
  - apply uri_unreserved_ascii in E. destruct E as [Hr Hne].
    unfold utf8_encode_cp. settle_tests. cbn [app unescape_from].
    now rewrite (eqb_false v 37).
  - apply unescape_percents. now apply utf8_encode_cp_bytes.
Qed.

Lemma unescape_uri_encoded vs :
  forallb is_scalar vs = true ->
  unescape (List.concat (List.map uri_encode_cp vs)) = utf8_encode vs.
Proof.
  unfold unescape. induction vs as [|v vs IH]; [reflexivity|].
  cbn [forallb]. rewrite andb_true_iff. intros [Hv Hvs].
  unfold utf8_encode. cbn [List.map List.concat].
  rewrite unescape_encode_cp by exact Hv. f_equal. now apply IH.
Qed.

Lemma uri_encode_cps_scalars vs :
  uri_encode_cps (List.map Some vs) = Ok (List.concat (List.map uri_encode_cp vs)).
Proof.
  induction vs as [|v vs IH]; [reflexivity|].
  cbn [List.map uri_encode_cps List.concat]. now rewrite IH.
Qed.

Lemma encodeURIComponent_wellFormed s :
  isWellFormed s = true ->
  encodeURIComponent s = Ok (List.concat (List.map uri_encode_cp (scalars s))).
Proof.
  intros Hwf. destruct (wellFormed_scalars s Hwf) as (Hcp & _ & _).
  unfold encodeURIComponent. rewrite Hcp. apply uri_encode_cps_scalars.
Qed.

Lemma Latin1_parse_bytes bs :
  forallb is_byte bs = true -> CryptoJS.Latin1_parse bs = bs.
Proof.
  unfold CryptoJS.Latin1_parse. induction bs as [|b bs IH]; [reflexivity|].
  cbn [forallb List.map]. rewrite andb_true_iff. intros [Hb Hbs].
  rewrite IH by exact Hbs. f_equal. apply in_range_iff in Hb. arith.
Qed.

Lemma Utf8_parse_wellFormed s :
  isWellFormed s = true -> CryptoJS.Utf8_parse s = Ok (utf8_bytes s).
Proof.
  intros Hwf. destruct (wellFormed_scalars s Hwf) as (_ & Hsc & _).
  unfold CryptoJS.Utf8_parse. rewrite encodeURIComponent_wellFormed by exact Hwf.
  cbn [rbind]. rewrite unescape_uri_encoded by exact Hsc.
  unfold utf8_bytes. now rewrite Latin1_parse_bytes by (now apply utf8_encode_bytes).
Qed.

(** ** Decoding what [escape] writes *)

Lemma escape_app a b : escape (a ++ b) = escape a ++ escape b.
Proof. unfold escape. now rewrite List.map_app, concat_app. Qed.

Lemma escape_unit_high b :
  0x80 <= b < 256 -> escape_unit b = percent b.
Proof.
  intros Hb. unfold escape_unit. destruct (escape_unreserved b) eqn:E.
  - apply escape_unreserved_ascii in E. lia.
  - now rewrite ltb_true by lia.
Qed.

Lemma pct_octets_percent n b tail :
  is_byte b = true ->
  pct_octets (S n) (percent b ++ tail)
  = match pct_octets n tail with Some bs => Some (b :: bs) | None => None end.
Proof.
  intros Hb. unfold percent. cbn [app pct_octets]. rewrite Z.eqb_refl.
  now rewrite hex2_percent.
Qed.

Lemma pct_octets_percents bs tail :
  forallb is_byte bs = true ->
  pct_octets (length bs) (List.concat (List.map percent bs) ++ tail) = Some bs.
Proof.
  induction bs as [|b bs IH]; [reflexivity|].
  cbn [forallb]. rewrite andb_true_iff. intros [Hb Hbs].
  cbn [length List.map List.concat]. rewrite <- app_assoc.
  rewrite pct_octets_percent by exact Hb. now rewrite IH.
Qed.

Lemma percents_length bs :
  length (List.concat (List.map percent bs)) = (3 * length bs)%nat.
Proof.
  induction bs as [|b bs IH]; [reflexivity|].
  cbn [List.map List.concat]. rewrite length_app, IH. cbn [percent length]. lia.
Qed.

Lemma uri_decode_from_skip x tail :
  uri_decode_from (length x) (x ++ tail) = uri_decode_from 0 tail.
Proof. induction x as [|c x IH]; [reflexivity | exact IH]. Qed.

(** The decoder at a [%]. *)
Lemma uri_decode_percent_eq rest :
  uri_decode_from 0 (37 :: rest) =
  match hex2 rest with
  | None => Throw URIError
  | Some b =>
      match leading_ones b with
      | O => r <-! uri_decode_from 2 rest;; Ok (b :: r)
      | S n' =>
          match n' with
          | O => Throw URIError
          | _ =>
              if (4 <? S n')%nat then Throw URIError
              else
                match pct_octets n' (skipn 2 rest) with
                | None => Throw URIError
                | Some more =>
                    match utf8_valid_cp (b :: more) with
                    | None => Throw URIError
                    | Some v =>
                        r <-! uri_decode_from (2 + 3 * n') rest;;
                        Ok (utf16_encode_cp v ++ r)
                    end
                end
          end
      end
  end.
Proof. reflexivity. Qed.

Lemma uri_decode_ascii_percent b tail :
  0 <= b < 0x80 ->
  uri_decode_from 0 (percent b ++ tail)
  = (r <-! uri_decode_from 0 tail;; Ok (b :: r)).
Proof.
  intros Hb. unfold percent. cbn [app]. rewrite uri_decode_percent_eq.
  rewrite hex2_percent by (apply in_range_iff; lia).
  unfold leading_ones. settle_tests. reflexivity.
Qed.

Lemma uri_decode_multibyte b0 more v tail :
  is_byte b0 = true -> forallb is_byte more = true ->
  leading_ones b0 = S (length more) ->
  (1 <= length more <= 3)%nat ->
  utf8_valid_cp (b0 :: more) = Some v ->
  uri_decode_from 0 (List.concat (List.map percent (b0 :: more)) ++ tail)
  = (r <-! uri_decode_from 0 tail;; Ok (utf16_encode_cp v ++ r)).
Proof.
  intros Hb0 Hmore Hlead Hlen Hvalid.
  cbn [List.map List.concat]. rewrite <- app_assoc. unfold percent at 1. cbn [app].
  rewrite uri_decode_percent_eq, hex2_percent by exact Hb0.
  rewrite Hlead. destruct (length more) as [|k] eqn:Ek; [lia|].
  cbv beta iota. rewrite <- Ek.
  rewrite (proj2 (Nat.ltb_ge _ _)) by lia.
  change (skipn 2 (?a :: ?b :: ?r)) with r.
  rewrite (pct_octets_percents more tail Hmore), Hvalid.
  match goal with
  | |- context [uri_decode_from ?k (?h1 :: ?h2 :: ?x ++ tail)] =>
      change (h1 :: h2 :: x ++ tail) with (([h1; h2] ++ x) ++ tail);
      replace k with (length ([h1; h2] ++ x))
        by (rewrite length_app, percents_length; cbn [length]; lia)
  end.
  now rewrite uri_decode_from_skip.
Qed.

Lemma uri_decode_escape_cp v tail :
  is_scalar v = true ->
  uri_decode_from 0 (escape (utf8_encode_cp v) ++ tail)
  = (r <-! uri_decode_from 0 tail;; Ok (utf16_encode_cp v ++ r)).
Proof.
  intros Hv.
  pose proof (utf8_encode_cp_bytes v Hv) as Hbytes.
  destruct (utf8_encode_cp_cases v Hv) as [[H E]|[[H E]|[(H & H' & E)|[H E]]]];
    rewrite E in *; unfold escape; cbn [List.map].
  - cbn [List.concat]. rewrite app_nil_r.
    unfold utf16_encode_cp. rewrite ltb_true by lia.
    unfold escape_unit. destruct (escape_unreserved v) eqn:Eu.
    + apply escape_unreserved_ascii in Eu.
      cbn [app uri_decode_from]. now rewrite (eqb_false v 37).
    + rewrite ltb_true by lia. now apply uri_decode_ascii_percent.
  - rewrite !escape_unit_high by arith.
    cbn [forallb] in Hbytes. apply andb_true_iff in Hbytes. destruct Hbytes as [B0 Bs].
    apply (uri_decode_multibyte _ [_]); try assumption; try (cbn [length]; lia).
    + unfold leading_ones. settle_tests. reflexivity.
    + unfold utf8_valid_cp. settle_tests. cbn [andb]. f_equal. arith.
  - rewrite !escape_unit_high by arith.
    cbn [forallb] in Hbytes. apply andb_true_iff in Hbytes. destruct Hbytes as [B0 Bs].
    apply (uri_decode_multibyte _ [_; _]); try assumption; try (cbn [length]; lia).
    + unfold leading_ones. settle_tests. reflexivity.
    + unfold utf8_valid_cp. repeat (progress (settle_tests; cbn [andb])); f_equal; arith.
  - rewrite !escape_unit_high by arith.
    cbn [forallb] in Hbytes. apply andb_true_iff in Hbytes. destruct Hbytes as [B0 Bs].
    apply (uri_decode_multibyte _ [_; _; _]); try assumption; try (cbn [length]; lia).
    + unfold leading_ones. settle_tests. reflexivity.
    + unfold utf8_valid_cp. repeat (progress (settle_tests; cbn [andb])); f_equal; arith.
Qed.

Lemma decodeURIComponent_escape vs :
  forallb is_scalar vs = true ->
  decodeURIComponent (escape (utf8_encode vs)) = Ok (utf16_encode vs).
Proof.
  unfold decodeURIComponent. induction vs as [|v vs IH]; [reflexivity|].
  cbn [forallb]. rewrite andb_true_iff. intros [Hv Hvs].
  unfold utf8_encode, utf16_encode. cbn [List.map List.concat].
  rewrite escape_app, uri_decode_escape_cp by exact Hv.
  fold (utf8_encode vs). rewrite IH by exact Hvs. reflexivity.
Qed.

(** * The codec: [encodeUtf8ToBase64] and [decodeBase64ToUtf8] *)

Lemma utf8_encode_cp_nonempty v : utf8_encode_cp v <> [].
Proof.
  unfold utf8_encode_cp.
  destruct (v <? 0x80); [discriminate|].
  destruct (v <? 0x800); [discriminate|].
  destruct (v <? 0x10000); discriminate.
Qed.

Lemma base64_encode_nonempty bs : bs <> [] -> base64_encode bs <> [].
Proof. destruct bs as [|a [|b [|c l]]]; [congruence | discriminate ..]. Qed.

Lemma utf8_bytes_nonempty s :
  isWellFormed s = true -> s <> [] -> utf8_bytes s <> [].
Proof.
  intros Hwf Hne. destruct (wellFormed_scalars s Hwf) as (_ & _ & Hs).
  unfold utf8_bytes, utf8_encode. destruct (scalars s) as [|v vs].
  - cbn in Hs. congruence.
  - cbn [List.map List.concat]. intros H. apply app_eq_nil in H.
    now apply (utf8_encode_cp_nonempty v).
Qed.

Lemma encodeUtf8ToBase64_wellFormed hasBuffer s :
  isWellFormed s = true ->
  encodeUtf8ToBase64 hasBuffer s = Ok (base64_encode (utf8_bytes s)).
Proof.
  intros Hwf. unfold encodeUtf8ToBase64.
  destruct s as [|c r]; [reflexivity|]. cbn [str_falsy].
  destruct hasBuffer.
  - unfold Buffer.toString_base64. now rewrite from_utf8_wellFormed.
  - destruct (wellFormed_scalars _ Hwf) as (_ & Hsc & _).
    rewrite encodeURIComponent_wellFormed by exact Hwf. cbn [rbind].
    rewrite unescape_uri_encoded by exact Hsc.
    apply btoa_bytes. now apply utf8_encode_bytes.
Qed.

Lemma decodeBase64ToUtf8_encoded hasBuffer wording vs :
  forallb is_scalar vs = true -> vs <> [] ->
  decodeBase64ToUtf8 hasBuffer wording (base64_encode (utf8_encode vs))
  = {| data := Some (utf16_encode vs); error := None |}.
Proof.
  intros Hvs Hne. pose proof (utf8_encode_bytes vs Hvs) as Hbytes.
  unfold decodeBase64ToUtf8.
  destruct (base64_encode (utf8_encode vs)) as [|c r] eqn:E.
  { exfalso. revert E. apply base64_encode_nonempty.
    destruct vs as [|v vs']; [congruence|]. unfold utf8_encode.
    cbn [List.map List.concat]. intros H. apply app_eq_nil in H.
    now apply (utf8_encode_cp_nonempty v). }
  cbn [str_falsy]. rewrite <- E. destruct hasBuffer.
  - change (base64_encode (utf8_encode vs))
      with (Buffer.toString_base64 (utf8_encode vs)).
    rewrite from_base64_encoded by exact Hbytes.
    unfold Buffer.toString_utf8. now rewrite utf8_decode_lossy_encode.
  - rewrite atob_encoded by exact Hbytes. cbn [rbind].
    now rewrite decodeURIComponent_escape.
Qed.

(** C2. For every well-formed string [s] (the strings that have a UTF-8
    form: the empty string, ASCII, CJK, emoji written as surrogate pairs),
    with or without a [Buffer] global, encoding succeeds and decoding the
    result gives back [{ data: s }] with no [error]. *)
Theorem base64_round_trip (hasBuffer : bool) (wording : exn -> jsstring) (s : jsstring) :
  isWellFormed s = true ->
  exists b,
    encodeUtf8ToBase64 hasBuffer s = Ok b
    /\ decodeBase64ToUtf8 hasBuffer wording b = {| data := Some s; error := None |}.
Proof.
  intros Hwf. exists (base64_encode (utf8_bytes s)).
  split; [now apply encodeUtf8ToBase64_wellFormed|].
  destruct (wellFormed_scalars s Hwf) as (_ & Hsc & Hs).
  destruct s as [|c r]; [reflexivity|].
  unfold utf8_bytes. rewrite decodeBase64ToUtf8_encoded; [now rewrite Hs | exact Hsc |].
  intros E. rewrite E in Hs. discriminate.
Qed.

Lemma base64_round_trip_witness :
  isWellFormed [0x4E2D; 0xD83D; 0xDE00; 0x61] = true
  /\ exists b,
       encodeUtf8ToBase64 false [0x4E2D; 0xD83D; 0xDE00; 0x61] = Ok b
       /\ decodeBase64ToUtf8 false sample_wording b
          = {| data := Some [0x4E2D; 0xD83D; 0xDE00; 0x61]; error := None |}.
Proof.
  split; [reflexivity|]. apply base64_round_trip. reflexivity.
Defined.

(** ** What the decoder rejects *)

Lemma all_b64_values_none d c :
  In c d -> b64_value c = None -> all_b64_values d = None.
Proof.
  induction d as [|x d IH]; [easy|]. intros [->|Hin] Hc; cbn [all_b64_values].
  - now rewrite Hc.
  - rewrite (IH Hin Hc). now destruct (b64_value x).
Qed.

Lemma strip_padding_keeps d c :
  In c d -> (c =? b64_pad) = false -> In c (strip_padding d).
Proof.
  intros Hin Hc. unfold strip_padding.
  destruct (rev d) as [|p [|q r]] eqn:Hrev; [exact Hin| |].
  - destruct (Z.eqb_spec p b64_pad) as [->|_]; [|exact Hin].
    apply in_rev in Hin. rewrite Hrev in Hin. destruct Hin as [<-|[]].
    now rewrite Z.eqb_refl in Hc.
  - apply in_rev in Hin. rewrite Hrev in Hin.
    destruct (Z.eqb_spec p b64_pad) as [->|_]; [|apply in_rev; now rewrite Hrev].
    destruct Hin as [<-|Hin]; [now rewrite Z.eqb_refl in Hc|].
    destruct (Z.eqb_spec q b64_pad) as [->|_].
    + destruct Hin as [<-|Hin]; [now rewrite Z.eqb_refl in Hc|]. now apply in_rev in Hin.
    + now apply in_rev in Hin.
Qed.

(** [strip_padding] takes at most two characters from the end, and only
    [=]. *)
Lemma strip_padding_prefix d :
  exists t, d = strip_padding d ++ t /\ (length t <= 2)%nat
            /\ forall c, In c t -> c = b64_pad.
Proof.
  unfold strip_padding.
  destruct (rev d) as [|p [|q r]] eqn:Hrev.
  - exists []. rewrite app_nil_r. split; [reflexivity|]. split; [cbn; lia | easy].
  - apply (f_equal (@rev Z)) in Hrev. rewrite rev_involutive in Hrev. cbn in Hrev.
    destruct (Z.eqb_spec p b64_pad) as [E|_].
    + exists [p]. split; [exact Hrev|]. split; [cbn; lia|]. intros c [<-|[]]. exact E.
    + exists []. rewrite app_nil_r. split; [reflexivity|]. split; [cbn; lia | easy].
  - apply (f_equal (@rev Z)) in Hrev. rewrite rev_involutive in Hrev.
    cbn [rev] in Hrev. rewrite <- app_assoc in Hrev. cbn [app] in Hrev.
    destruct (Z.eqb_spec p b64_pad) as [Ep|_].
    + destruct (Z.eqb_spec q b64_pad) as [Eq|_].
      * exists [q; p]. split; [exact Hrev|]. split; [cbn; lia|].
        intros c [<-|[<-|[]]]; assumption.
      * exists [p]. cbn [rev]. rewrite <- app_assoc. split; [exact Hrev|].
        split; [cbn; lia|]. intros c [<-|[]]. exact Ep.
    + exists []. rewrite app_nil_r. split; [reflexivity|]. split; [cbn; lia | easy].
Qed.

Lemma strip_padding_keeps_inner before c after :
  c <> b64_pad \/ after <> [] ->
  In b64_pad (strip_padding (before ++ b64_pad :: c :: after)).
Proof.
  intros Hc. set (d := before ++ b64_pad :: c :: after).
  destruct (strip_padding_prefix d) as (t & Hd & Hlen & Hpad).
  assert (Hsplit : (before ++ [b64_pad]) ++ c :: after = strip_padding d ++ t).
  { rewrite <- app_assoc. exact Hd. }
  apply app_eq_app in Hsplit. destruct Hsplit as (l & [[H1 H2]|[H1 H2]]).
  - assert (Hct : c = b64_pad) by (apply Hpad; rewrite H2; apply in_or_app; right; now left).
    destruct Hc as [Hc|Hafter]; [contradiction|].
    assert (l = []).
    { destruct l as [|x l]; [reflexivity|]. exfalso.
      apply (f_equal (@length Z)) in H2. rewrite length_app in H2. cbn [length] in H2.
      destruct after; [congruence | cbn [length] in H2; lia]. }
    subst l. rewrite app_nil_r in H1. rewrite <- H1. apply in_or_app. right. now left.
  - rewrite H1. apply in_or_app. left. apply in_or_app. right. now left.
Qed.

Lemma atob_rejects_value s d :
  d = List.filter (fun c => negb (is_ascii_whitespace c)) s ->
  (exists c, In c (if (length d mod 4 =? 0)%nat then strip_padding d else d)
             /\ b64_value c = None) ->
  atob s = Throw InvalidCharacterError.
Proof.
  intros -> (c & Hin & Hc). unfold atob. cbv zeta.
  match goal with
  | |- context [all_b64_values ?x] =>
      replace (all_b64_values x) with (@None (list Z))
        by (symmetry; exact (all_b64_values_none _ c Hin Hc))
  end.
  match goal with |- (if ?b then _ else _) = _ => now destruct b end.
Qed.

Lemma decode_without_buffer_rejected wording input :
  atob input = Throw InvalidCharacterError ->
  decodeBase64ToUtf8 false wording input = atob_rejected wording.
Proof.
  intros H. unfold decodeBase64ToUtf8. destruct input as [|c r]; [discriminate|].
  cbn [str_falsy]. now rewrite H.
Qed.

(** With a [Buffer] global nothing is ever reported: [Buffer.from] and
    [toString] do not throw, so the [catch] of that branch is never
    entered. *)
Lemma decodeBase64ToUtf8_with_buffer wording input :
  error (decodeBase64ToUtf8 true wording input) = None.
Proof. unfold decodeBase64ToUtf8. destruct (str_falsy input); reflexivity. Qed.

Example buffer_skips_stray_characters :
  existsb stray (lit "YQ!=") = true
  /\ decodeBase64ToUtf8 true sample_wording (lit "YQ!=")
     = {| data := Some (lit "a"); error := None |}.
Proof. split; vm_compute; reflexivity. Qed.

(** ** What the decoder accepts *)

Lemma node_sextets_no_space s :
  node_sextets (List.filter (fun c => negb (is_ascii_whitespace c)) s) = node_sextets s.
Proof.
  induction s as [|c s IH]; [reflexivity|]. cbn [List.filter].
  destruct (is_ascii_whitespace c) eqn:E; cbn [negb].
  - cbn [node_sextets]. unfold is_ascii_whitespace in E.
    rewrite !orb_true_iff, !Z.eqb_eq in E.
    destruct E as [[[[-> | ->] | ->] | ->] | ->]; exact IH.
  - cbn [node_sextets]. now rewrite IH.
Qed.

Lemma filter_no_space_twice s :
  List.filter (fun c => negb (is_ascii_whitespace c))
    (List.filter (fun c => negb (is_ascii_whitespace c)) s)
  = List.filter (fun c => negb (is_ascii_whitespace c)) s.
Proof.
  apply forallb_filter_id. apply forallb_forall. intros c Hin.
  now apply filter_In in Hin.
Qed.

Lemma from_base64_no_space s :
  Buffer.from_base64 s = Buffer.from_base64 (without_white_space s).
Proof. unfold Buffer.from_base64, without_white_space. now rewrite node_sextets_no_space. Qed.

Lemma atob_no_space s : atob s = atob (without_white_space s).
Proof. unfold atob, without_white_space. now rewrite filter_no_space_twice. Qed.

Lemma body_no_space bs :
  forallb is_byte bs = true ->
  without_white_space (base64_body bs) = base64_body bs.
Proof.
  intros Hbs. apply forallb_filter_id. apply forallb_forall. intros c Hin.
  apply in_map_iff in Hin. destruct Hin as (n & <- & Hn).
  pose proof (sextets_of_range bs Hbs) as Hr. rewrite forallb_forall in Hr.
  destruct (sextet_char n (Hr n Hn)) as (_ & _ & _ & Hw). now rewrite Hw.
Qed.

(** The text of [bs] without its padding is taken as it is. *)
Lemma atob_body bs :
  forallb is_byte bs = true -> atob (base64_body bs) = Ok bs.
Proof.
  intros Hbs. pose proof (sextets_of_range bs Hbs) as Hr.
  rewrite atob_no_space, body_no_space by exact Hbs. unfold atob.
  fold (without_white_space (base64_body bs)). rewrite body_no_space by exact Hbs.
  cbv zeta.
  assert (Hstrip : (if (length (base64_body bs) mod 4 =? 0)%nat
                    then strip_padding (base64_body bs) else base64_body bs)
                   = base64_body bs).
  { destruct (_ =? 0)%nat; [|reflexivity].
    pose proof (strip_padding_chars (sextets_of bs) [] Hr (or_introl eq_refl)) as H.
    rewrite app_nil_r in H. exact H. }
  rewrite Hstrip. unfold base64_body.
  rewrite length_map, sextets_of_length.
  rewrite all_b64_values_chars by exact Hr.
  now rewrite sextets_to_bytes_of.
Qed.

Lemma from_base64_body bs pad :
  forallb is_byte bs = true ->
  pad = [] \/ pad = padding_of bs ->
  Buffer.from_base64 (base64_body bs ++ pad) = bs.
Proof.
  intros Hbs Hpad. unfold Buffer.from_base64, base64_body.
  rewrite node_sextets_chars.
  - now apply sextets_to_bytes_of.
  - now apply sextets_of_range.
  - destruct Hpad as [->| ->]; [now left | apply padding_cases].
Qed.

(** The Base64 text of the string spelt by [vs], with or without its
    padding and with white space anywhere, decodes to that string. *)
Lemma decodeBase64ToUtf8_accepts hasBuffer wording input vs pad :
  forallb is_scalar vs = true ->
  without_white_space input = base64_body (utf8_encode vs) ++ pad ->
  pad = [] \/ pad = padding_of (utf8_encode vs) ->
  decodeBase64ToUtf8 hasBuffer wording input
  = {| data := Some (utf16_encode vs); error := None |}.
Proof.
  intros Hvs Hinput Hpad. pose proof (utf8_encode_bytes vs Hvs) as Hbytes.
  assert (Hbuf : Buffer.toString_utf8 (Buffer.from_base64 input) = utf16_encode vs).
  { rewrite from_base64_no_space, Hinput, from_base64_body by assumption.
    unfold Buffer.toString_utf8. now rewrite utf8_decode_lossy_encode. }
  assert (Hatob : atob input = Ok (utf8_encode vs)).
  { rewrite atob_no_space, Hinput. destruct Hpad as [->| ->].
    - rewrite app_nil_r. now apply atob_body.
    - unfold base64_body. rewrite <- base64_encode_split. now apply atob_encoded. }
  unfold decodeBase64ToUtf8. destruct input as [|c r].
  - cbn [str_falsy]. cbn in Hatob. injection Hatob as Hnil.
    destruct vs as [|v vs']; [reflexivity|]. exfalso.
    unfold utf8_encode in Hnil. cbn [List.map List.concat] in Hnil.
    symmetry in Hnil. apply app_eq_nil in Hnil.
    now apply (utf8_encode_cp_nonempty v).
  - cbn [str_falsy]. destruct hasBuffer.
    + now rewrite Hbuf.
    + rewrite Hatob. cbn [rbind]. now rewrite decodeURIComponent_escape.
Qed.

(** C9, as amended. The empty string decodes to itself, as [data]; every
    input yields exactly one of [data] and [error] (every exception of the
    host is caught). Where [atob] decodes (no [Buffer] global) the result
    is the [error] of [atob], in the host's words, and no [data], for an
    input with a character that is neither white space, nor of the
    alphabet, nor [=]; for an input that contains [=] while its length
    without white space is not a multiple of four; for an input in which,
    white space apart, a [=] is followed by anything but one last [=];
    and for an input of characters of the alphabet whose number is 1
    modulo 4. White space and omitted padding are not errors: the Base64
    text of a string, with its padding or without it and with white
    space anywhere, decodes to [{ data }] of that string, with or
    without [Buffer]. *)
Theorem decodeBase64ToUtf8_outcomes (wording : exn -> jsstring) :
  (forall hasBuffer,
     decodeBase64ToUtf8 hasBuffer wording [] = {| data := Some []; error := None |})
  /\ (forall hasBuffer input,
        let r := decodeBase64ToUtf8 hasBuffer wording input in
        (is_some (data r) = true /\ error r = None)
        \/ (data r = None /\ is_some (error r) = true))
  /\ (forall input,
        existsb stray input = true ->
        decodeBase64ToUtf8 false wording input = atob_rejected wording)
  /\ (forall input,
        (length (without_white_space input) mod 4 <> 0)%nat ->
        In b64_pad input ->
        decodeBase64ToUtf8 false wording input = atob_rejected wording)
  /\ (forall input before c after,
        without_white_space input = before ++ b64_pad :: c :: after ->
        c <> b64_pad \/ after <> [] ->
        decodeBase64ToUtf8 false wording input = atob_rejected wording)
  /\ (forall input,
        forallb in_alphabet (without_white_space input) = true ->
        (length (without_white_space input) mod 4 = 1)%nat ->
        decodeBase64ToUtf8 false wording input = atob_rejected wording)
  /\ (forall hasBuffer input vs pad,
        forallb is_scalar vs = true ->
        without_white_space input = base64_body (utf8_encode vs) ++ pad ->
        pad = [] \/ pad = padding_of (utf8_encode vs) ->
        decodeBase64ToUtf8 hasBuffer wording input
        = {| data := Some (utf16_encode vs); error := None |}).
Proof.
  split; [reflexivity|]. split; [|split; [|split; [|split; [|split]]]].
  - intros hasBuffer input. unfold decodeBase64ToUtf8.
    destruct (str_falsy input); [left; split; reflexivity|].
    destruct hasBuffer; [left; split; reflexivity|].
    destruct (rbind _ _); [left | right]; split; reflexivity.
  - intros input H. apply decode_without_buffer_rejected.
    apply existsb_exists in H. destruct H as (c & Hin & Hc).
    unfold stray, outside_alphabet, in_alphabet in Hc.
    rewrite !andb_true_iff, !negb_true_iff in Hc.
    destruct Hc as [Hws [Hal Hpad]].
    eapply atob_rejects_value; [reflexivity|]. exists c. split.
    + assert (Hd : In c (List.filter (fun c => negb (is_ascii_whitespace c)) input))
        by (apply filter_In; split; [exact Hin | now rewrite Hws]).
      destruct (_ =? 0)%nat; [now apply strip_padding_keeps | exact Hd].
    + now destruct (b64_value c).
  - intros input Hlen Hin. apply decode_without_buffer_rejected.
    eapply atob_rejects_value; [reflexivity|]. exists b64_pad. split; [|reflexivity].
    unfold without_white_space in Hlen. apply Nat.eqb_neq in Hlen. rewrite Hlen.
    apply filter_In. split; [exact Hin | reflexivity].
  - intros input before c after Hinput Hc. apply decode_without_buffer_rejected.
    eapply atob_rejects_value; [reflexivity|]. exists b64_pad. split; [|reflexivity].
    fold (without_white_space input). rewrite Hinput.
    destruct (_ =? 0)%nat.
    + now apply strip_padding_keeps_inner.
    + apply in_or_app. right. now left.
  - intros input Hal Hlen. apply decode_without_buffer_rejected.
    unfold atob. fold (without_white_space input). cbv zeta.
    rewrite Hlen. cbn [Nat.eqb]. rewrite Hlen. reflexivity.
  - intros hasBuffer input vs pad. apply decodeBase64ToUtf8_accepts.
Qed.

Lemma decodeBase64ToUtf8_outcomes_witness :
  without_white_space (lit "YQ=a") = lit "YQ" ++ b64_pad :: 97 :: []
  /\ (97 <> b64_pad \/ @nil Z <> [])
  /\ decodeBase64ToUtf8 false sample_wording (lit "YQ=a") = atob_rejected sample_wording
  /\ forallb is_scalar (lit "a") = true
  /\ without_white_space (lit " Y Q") = base64_body (utf8_encode (lit "a")) ++ []
  /\ decodeBase64ToUtf8 false sample_wording (lit " Y Q")
     = {| data := Some (lit "a"); error := None |}.
Proof.
  assert (H1 : without_white_space (lit "YQ=a") = lit "YQ" ++ b64_pad :: 97 :: [])
    by reflexivity.
  assert (H2 : 97 <> b64_pad \/ @nil Z <> []) by (left; discriminate).
  assert (H3 : forallb is_scalar (lit "a") = true) by reflexivity.
  assert (H4 : without_white_space (lit " Y Q") = base64_body (utf8_encode (lit "a")) ++ [])
    by reflexivity.
  split; [exact H1|]. split; [exact H2|]. split.
  - exact (proj1 (proj2 (proj2 (proj2 (proj2 (decodeBase64ToUtf8_outcomes sample_wording)))))
             (lit "YQ=a") (lit "YQ") 97 [] H1 H2).
  - split; [exact H3|]. split; [exact H4|].
    exact (proj2 (proj2 (proj2 (proj2 (proj2 (proj2
             (decodeBase64ToUtf8_outcomes sample_wording))))))
             false (lit " Y Q") (lit "a") [] H3 H4 (or_introl eq_refl)).
Defined.

(** C9, as stated, fails: a leading space is outside the alphabet and
    ["YQ"] lacks its padding; both decode to ["a"] without an [error],
    whichever decoder is at hand. *)
Lemma decodeBase64ToUtf8_stray_accepted :
  existsb outside_alphabet (lit " YQ==") = true
  /\ decodeBase64ToUtf8 true sample_wording (lit " YQ==")
     = {| data := Some (lit "a"); error := None |}
  /\ decodeBase64ToUtf8 false sample_wording (lit " YQ==")
     = {| data := Some (lit "a"); error := None |}
  /\ decodeBase64ToUtf8 true sample_wording (lit "YQ")
     = {| data := Some (lit "a"); error := None |}
  /\ decodeBase64ToUtf8 false sample_wording (lit "YQ")
     = {| data := Some (lit "a"); error := None |}.
Proof. repeat split; vm_compute; reflexivity. Qed.

(** * Running the monad *)

Lemma bind_ok {A B} (m : M A) (k : A -> M B) st a st' :
  m st = (Ok a, st') -> bind m k st = k a st'.
Proof. intros H. unfold bind. now rewrite H. Qed.

Lemma writeStorage_run key value st :
  writeStorage key value st = (Ok tt, put_doc key value st).
Proof.
  destruct st as [[m|] d p u s]; reflexivity.
Qed.

(** * The signer *)

Lemma le_bytes4_bytes x : forallb is_byte (le_bytes4 x) = true.
Proof.
  unfold le_bytes4, is_byte. cbn [forallb].
  rewrite !andb_true_iff, !in_range_iff. repeat split; arith.
Qed.

Lemma md5_digest_shape msg :
  length (md5 msg) = 16%nat /\ forallb is_byte (md5 msg) = true.
Proof.
  unfold md5. destruct (fold_left _ _ _) as [[[a b] c] d].
  split; [reflexivity|]. rewrite !forallb_app, !le_bytes4_bytes. reflexivity.
Qed.

Lemma hex_string_length digit bs :
  length (hex_string digit bs) = (2 * length bs)%nat.
Proof.
  unfold hex_string. induction bs as [|b bs IH]; [reflexivity|].
  cbn [List.map List.concat length app]. rewrite IH. lia.
Qed.

Lemma hex_string_upper bs :
  forallb is_byte bs = true ->
  forallb is_upper_hex (hex_string hex_upper bs) = true
  /\ toUpperCase (hex_string hex_lower bs) = hex_string hex_upper bs.
Proof.
  unfold hex_string. induction bs as [|b bs IH]; [easy|].
  cbn [forallb]. rewrite andb_true_iff. intros [Hb Hbs].
  destruct (IH Hbs) as [IH1 IH2]. destruct (byte_nibbles b Hb) as [Hh Hl].
  destruct (nibble_digit _ Hh) as (_ & _ & Xh & Uh).
  destruct (nibble_digit _ Hl) as (_ & _ & Xl & Ul).
  cbn [List.map List.concat app forallb]. split.
  - now rewrite Xh, Xl, IH1.
  - unfold toUpperCase in *. cbn [List.map] in *.
    injection Uh as ->. injection Ul as ->. now rewrite IH2.
Qed.

Lemma md5_hex_shape s :
  length (md5_hex s) = 32%nat /\ forallb is_upper_hex (md5_hex s) = true.
Proof.
  unfold md5_hex. destruct (md5_digest_shape (utf8_bytes s)) as [Hlen Hbytes].
  rewrite hex_string_length, Hlen. split; [reflexivity|].
  now apply hex_string_upper.
Qed.

Lemma md5UpperHex_wellFormed tauri input :
  isWellFormed input = true -> input <> [] ->
  md5UpperHex tauri input = Ok (md5_hex input).
Proof.
  intros Hwf Hne. unfold md5UpperHex.
  destruct input as [|c r]; [congruence|]. cbn [str_falsy].
  unfold invoke_md5_upper_hex, native_md5_upper_hex. rewrite Hwf.
  destruct tauri.
  - unfold md5_hex. now rewrite from_utf8_wellFormed.
  - unfold CryptoJS.MD5. rewrite Utf8_parse_wellFormed by exact Hwf. cbn [rbind].
    unfold CryptoJS.toString_Hex, md5_hex. f_equal.
    apply hex_string_upper, md5_digest_shape.
Qed.

(** C8, as amended. For a well-formed input, [md5UpperHex] returns the
    empty string when the input is empty (the guard of its first line) and
    otherwise the MD5 digest of the UTF-8 bytes of the input as 32
    upper-case hexadecimal digits, inside and outside the Tauri shell. *)
Theorem md5UpperHex_spec (tauri : bool) (input : jsstring) :
  isWellFormed input = true ->
  md5UpperHex tauri input = Ok (if str_falsy input then [] else md5_hex input)
  /\ length (md5_hex input) = 32%nat
  /\ forallb is_upper_hex (md5_hex input) = true.
Proof.
  intros Hwf. split; [|apply md5_hex_shape].
  destruct input as [|c r]; [reflexivity|].
  now apply md5UpperHex_wellFormed.
Qed.

Lemma md5UpperHex_spec_witness :
  isWellFormed (lit "20240115093000eyJhIjoxfQ==secret") = true
  /\ md5UpperHex false (lit "20240115093000eyJhIjoxfQ==secret")
     = Ok (if str_falsy (lit "20240115093000eyJhIjoxfQ==secret") then []
           else md5_hex (lit "20240115093000eyJhIjoxfQ==secret")).
Proof.
  split; [reflexivity|].
  apply (md5UpperHex_spec false (lit "20240115093000eyJhIjoxfQ==secret")). reflexivity.
Defined.

(** C8, as stated, fails: the digest of the empty byte sequence is
    [D41D8CD98F00B204E9800998ECF8427E], but [md5UpperHex] of the empty
    string is the empty string. *)
Lemma md5UpperHex_empty_not_hashed :
  md5_hex [] = lit "D41D8CD98F00B204E9800998ECF8427E"
  /\ md5UpperHex true [] = Ok []
  /\ md5UpperHex false [] = Ok []
  /\ md5UpperHex false [] <> Ok (md5_hex []).
Proof.
  split; [vm_compute; reflexivity|]. split; [reflexivity|]. split; [reflexivity|].
  vm_compute. discriminate.
Qed.

(** * Time stamps *)

Lemma addLeadingZeros_2 n :
  0 <= n < 100 -> padded_ok 2 n = true.
Proof. apply (forallb_below (padded_ok 2) (Z.to_nat 100)). vm_compute. reflexivity. Qed.

Lemma addLeadingZeros_4 n :
  0 <= n < 10000 -> padded_ok 4 n = true.
Proof. apply (forallb_below (padded_ok 4) (Z.to_nat 10000)). vm_compute. reflexivity. Qed.

Lemma getTimestamp_14_digits d :
  calendar_date d = true ->
  length (getTimestamp d) = 14%nat /\ forallb is_digit (getTimestamp d) = true.
Proof.
  unfold calendar_date. rewrite !andb_true_iff, !in_range_iff.
  intros (((((Hy & Hm) & Hd) & Hh) & Hmi) & Hs).
  unfold getTimestamp.
  set (year := if 0 <? getFullYear d then getFullYear d else 1 - getFullYear d).
  assert (Hyear : 0 <= year < 10000).
  { subst year. destruct (Z.ltb_spec 0 (getFullYear d)); lia. }
  pose proof (addLeadingZeros_4 year Hyear) as P1.
  pose proof (addLeadingZeros_2 (getMonth d + 1) ltac:(lia)) as P2.
  pose proof (addLeadingZeros_2 (getDate d) ltac:(lia)) as P3.
  pose proof (addLeadingZeros_2 (getHours d) ltac:(lia)) as P4.
  pose proof (addLeadingZeros_2 (getMinutes d) ltac:(lia)) as P5.
  pose proof (addLeadingZeros_2 (getSeconds d) ltac:(lia)) as P6.
  unfold padded_ok in *.
  rewrite andb_true_iff, Nat.eqb_eq in P1, P2, P3, P4, P5, P6.
  rewrite !length_app, !forallb_app.
  destruct P1 as [-> ->], P2 as [-> ->], P3 as [-> ->], P4 as [-> ->],
           P5 as [-> ->], P6 as [-> ->].
  split; reflexivity.
Qed.

Lemma addLeadingZeros_two n :
  0 <= n < 100 -> addLeadingZeros n 2 = two_digits n.
Proof.
  intros H. apply (bool_decide_eq_true_1 (addLeadingZeros n 2 = two_digits n)).
  apply (forallb_below (written_as 2 two_digits) (Z.to_nat 100));
    [vm_compute; reflexivity | lia].
Qed.

Lemma addLeadingZeros_four n :
  0 <= n < 10000 -> addLeadingZeros n 4 = four_digits n.
Proof.
  intros H. apply (bool_decide_eq_true_1 (addLeadingZeros n 4 = four_digits n)).
  apply (forallb_below (written_as 4 four_digits) (Z.to_nat 10000));
    [vm_compute; reflexivity | lia].
Qed.

(** In the years 1 to 9999 a time stamp is the date written digit by
    digit. *)
Lemma getTimestamp_digits d :
  calendar_date d = true -> 0 < getFullYear d ->
  getTimestamp d = yyyyMMddHHmmss d.
Proof.
  unfold calendar_date. rewrite !andb_true_iff, !in_range_iff.
  intros (((((Hy & Hm) & Hd) & Hh) & Hmi) & Hs) Py.
  unfold getTimestamp, yyyyMMddHHmmss. rewrite (ltb_true 0 (getFullYear d) Py).
  rewrite addLeadingZeros_four by lia. rewrite !addLeadingZeros_two by lia.
  reflexivity.
Qed.

(** * What a FormData holds *)

Lemma toWellFormed_wellFormed s : isWellFormed s = true -> toWellFormed s = s.
Proof.
  intros Hwf. destruct (wellFormed_scalars s Hwf) as (Hcp & _ & Hs).
  unfold toWellFormed. rewrite Hcp, List.map_map. exact Hs.
Qed.

Lemma ascii_wellFormed s :
  forallb (in_range 0 127) s = true -> isWellFormed s = true.
Proof.
  unfold isWellFormed. induction s as [|c s IH]; [reflexivity|].
  cbn [forallb]. rewrite andb_true_iff, in_range_iff. intros [Hc Hs].
  specialize (IH Hs). apply andb_true_iff in IH. destruct IH as [IH1 IH2].
  rewrite code_points_bmp.
  - cbn [forallb]. rewrite IH1, IH2. unfold is_code_unit.
    rewrite (proj2 (Z.leb_le 0 c)) by lia. rewrite (ltb_true c 65536) by lia. reflexivity.
  - unfold is_high_surrogate. rewrite (proj2 (Z.leb_gt 55296 c)) by lia. reflexivity.
  - unfold is_low_surrogate. rewrite (proj2 (Z.leb_gt 56320 c)) by lia. reflexivity.
Qed.

Lemma md5_hex_wellFormed s : isWellFormed (md5_hex s) = true.
Proof.
  apply ascii_wellFormed. destruct (md5_hex_shape s) as [_ H].
  rewrite forallb_forall in *. intros c Hc. specialize (H c Hc).
  unfold is_upper_hex in H. apply orb_true_iff in H.
  apply in_range_iff. rewrite !in_range_iff in H. lia.
Qed.

(** * executeMultipartRequest *)

Section Executor.
Variable host : Host.
Variable options : RequestOptions.
Variable st : State.

Lemma resolve_timestamp_run :
  exists st1,
    (match opt_forceTime options with
     | Some t => ret t
     | None =>
         match pr_timestamp (opt_request options) with
         | Some t => ret t
         | None => d <- newDate host;; ret (getTimestamp d)
         end
     end) st = (Ok (resolved_timestamp host options st), st1)
    /\ sent st1 = sent st /\ perf_read st1 = perf_read st
    /\ localStorage st1 = localStorage st
    /\ dates_read st1
       = (if is_some (opt_forceTime options)
             || is_some (pr_timestamp (opt_request options))
          then dates_read st else S (dates_read st)).
Proof.
  unfold resolved_timestamp.
  destruct (opt_forceTime options); [eexists; repeat split|].
  destruct (pr_timestamp (opt_request options)); eexists; repeat split.
Qed.

Lemma payload_resolved :
  match pr_dataB64 (opt_request options) with
  | Some b => if (0 <? length b)%nat then b else []
  | None => []
  end = resolved_payload options.
Proof.
  unfold resolved_payload. destruct (pr_dataB64 (opt_request options)) as [[|c b]|]; reflexivity.
Qed.

(** The run, case by case: without a signature nothing leaves; with one,
    one request leaves and the network decides. *)
Lemma executeMultipartRequest_cases :
  let request := opt_request options in
  let timestamp := resolved_timestamp host options st in
  let payload := resolved_payload options in
  match md5UpperHex (tauri host) (timestamp ++ payload ++ pr_password request) with
  | Throw e =>
      exists st', executeMultipartRequest host options st = (Throw e, st')
                  /\ sent st' = sent st /\ perf_read st' = perf_read st
                  /\ localStorage st' = localStorage st
  | Ok sign =>
      let req := request_sent options timestamp payload sign in
      exists st',
        executeMultipartRequest host options st
        = (res <-! fetch host req;;
           text <-! res_text res;;
           Ok (execution_of res text (performance_now host (perf_read st))
                 (performance_now host (S (perf_read st))) timestamp sign), st')
        /\ sent st' = sent st ++ [req]
        /\ localStorage st' = localStorage st
        /\ dates_read st'
           = (if is_some (opt_forceTime options)
                 || is_some (pr_timestamp (opt_request options))
              then dates_read st else S (dates_read st))
  end.
Proof.
  intros request timestamp payload.
  destruct resolve_timestamp_run as (st1 & Hts & Hsent & Hperf & Hls & Hdates).
  destruct (md5UpperHex (tauri host) (timestamp ++ payload ++ pr_password request))
    as [sign|e] eqn:Hsign.
  - cbv zeta. set (req := request_sent options timestamp payload sign).
    assert (Hrun : executeMultipartRequest host options st =
      (res <- doFetch host req;;
       text <- lift (res_text res);;
       finishedAt <- performanceNow host;;
       ret {| ex_responseText := text; ex_status := Some (res_status res);
              ex_ok := res_ok res;
              ex_durationMs :=
                Math_round (finishedAt - performance_now host (perf_read st1))%Q;
              ex_timestamp := timestamp; ex_sign := sign |})
        {| localStorage := localStorage st1; dates_read := dates_read st1;
           perf_read := S (perf_read st1); uuids_drawn := uuids_drawn st1;
           sent := sent st1 |}).
    { unfold executeMultipartRequest. rewrite (bind_ok _ _ _ _ _ Hts).
      rewrite payload_resolved. fold request timestamp payload.
      rewrite Hsign. reflexivity. }
    rewrite Hrun. unfold bind, doFetch, lift, performanceNow, ret.
    cbn [sent perf_read localStorage]. rewrite Hperf, Hsent, Hls.
    destruct (fetch host req) as [res|e]; cbn [rbind];
      [destruct (res_text res) as [text|e]; cbn [rbind]|];
      eexists; (split; [reflexivity|]); cbn [sent localStorage dates_read];
      (split; [reflexivity|]); (split; [reflexivity | exact Hdates]).
  - exists st1. split; [|repeat split; assumption].
    unfold executeMultipartRequest. rewrite (bind_ok _ _ _ _ _ Hts).
    rewrite payload_resolved. fold request timestamp payload.
    rewrite Hsign. reflexivity.
Qed.

(** Once the signature is there, one request leaves, whatever the network
    answers; an answer whose body can be read makes the execution return. *)
Lemma executeMultipartRequest_run (sign : jsstring) :
  let request := opt_request options in
  let timestamp := resolved_timestamp host options st in
  let payload := resolved_payload options in
  let req := request_sent options timestamp payload sign in
  md5UpperHex (tauri host) (timestamp ++ payload ++ pr_password request) = Ok sign ->
  sent (snd (executeMultipartRequest host options st)) = sent st ++ [req]
  /\ (forall ex, returns (executeMultipartRequest host options) st ex ->
        ex_timestamp ex = timestamp /\ ex_sign ex = sign)
  /\ (forall res text, fetch host req = Ok res -> res_text res = Ok text ->
        exists ex, returns (executeMultipartRequest host options) st ex
                   /\ ex_responseText ex = text
                   /\ ex_status ex = Some (res_status res)
                   /\ ex_ok ex = res_ok res).
Proof.
  intros request timestamp payload req Hsign.
  pose proof executeMultipartRequest_cases as H. cbv zeta in H.
  fold request timestamp payload in H. rewrite Hsign in H. fold req in H.
  destruct H as (st' & Hrun & Hsent & _).
  unfold returns. rewrite Hrun. cbn [snd]. split; [exact Hsent|]. split.
  - intros ex [s Hex]. destruct (fetch host req) as [res|]; [|discriminate].
    cbn [rbind] in Hex. destruct (res_text res); [|discriminate].
    cbn [rbind] in Hex. injection Hex as <- _. split; reflexivity.
  - intros res text -> Htext. cbn [rbind]. rewrite Htext. cbn [rbind].
    eexists. split; [eexists; reflexivity|]. repeat split.
Qed.

(** C10. The effective timestamp is the forced one when given, else the
    request's when present, else the clock's date written
    [yyyyMMddHHmmss]: year, month counted from 1, day, hour, minute and
    second, 14 digits in all (for the years 1 to 9999); the effective
    payload is [dataB64] when non-empty, else the empty string, whatever
    [dataRaw] is. When the signer has returned, the one request that
    leaves carries the fields [appkey], [timestamp], [data], [sign],
    [ver] in this order, [ver] being ["1"] when [request.ver] is empty,
    and the execution returned reports that timestamp and signature;
    when the signer throws, so does the executor and nothing leaves. A
    [FormData] holds its values as [USVString]s, which for a string
    without lone surrogates is the string itself. *)
Theorem executeMultipartRequest_fields :
  let request := opt_request options in
  let timestamp := resolved_timestamp host options st in
  let payload := resolved_payload options in
  (timestamp = match opt_forceTime options with
               | Some forced => forced
               | None =>
                   match pr_timestamp request with
                   | Some stored => stored
                   | None => getTimestamp (clock host (dates_read st))
                   end
               end)
  /\ (forall d, calendar_date d = true -> 0 < getFullYear d ->
        getTimestamp d = yyyyMMddHHmmss d
        /\ length (getTimestamp d) = 14%nat
        /\ forallb is_digit (getTimestamp d) = true)
  /\ (payload = match pr_dataB64 request with
                | Some b => if str_falsy b then [] else b
                | None => []
                end)
  /\ match md5UpperHex (tauri host) (timestamp ++ payload ++ pr_password request) with
     | Ok sign =>
         sent (snd (executeMultipartRequest host options st)) =
           sent st ++ [{| http_url := pr_url request; http_method := lit "POST";
                          http_body :=
                            [(lit "appkey", toWellFormed (pr_appkey request));
                             (lit "timestamp", toWellFormed timestamp);
                             (lit "data", toWellFormed payload);
                             (lit "sign", toWellFormed sign);
                             (lit "ver", toWellFormed (if str_falsy (pr_ver request)
                                                       then lit "1" else pr_ver request))];
                          http_abort_after := opt_timeoutMs options |}]
         /\ (forall ex, returns (executeMultipartRequest host options) st ex ->
               ex_timestamp ex = timestamp /\ ex_sign ex = sign)
     | Throw e =>
         fst (executeMultipartRequest host options st) = Throw e
         /\ sent (snd (executeMultipartRequest host options st)) = sent st
     end
  /\ (forall s, isWellFormed s = true -> toWellFormed s = s).
Proof.
  intros request timestamp payload.
  split; [reflexivity|]. split; [|split; [|split; [|exact toWellFormed_wellFormed]]].
  - intros d Hd Hy. split; [now apply getTimestamp_digits|].
    now apply getTimestamp_14_digits.
  - unfold payload, resolved_payload. fold request.
    destruct (pr_dataB64 request) as [[|c b]|]; reflexivity.
  - pose proof executeMultipartRequest_cases as H. cbv zeta in H.
    fold request timestamp payload in H.
    destruct (md5UpperHex (tauri host) (timestamp ++ payload ++ pr_password request))
      as [sign|e] eqn:Hsign.
    + destruct (executeMultipartRequest_run sign Hsign) as (Hsent & Hret & _).
      split; [exact Hsent | exact Hret].
    + destruct H as (st' & Hrun & Hsent & _). rewrite Hrun. split; [reflexivity | exact Hsent].
Qed.

(** C1. When the concatenation [timestamp ++ dataB64 ++ password] of the
    effective values is non-empty (and well-formed, so that it has UTF-8
    bytes), the signature [executeMultipartRequest] obtains from
    [md5UpperHex] is the MD5 digest of those bytes as 32 upper-case
    hexadecimal digits: it is the [sign] field of the request that leaves
    and the [sign] of the execution returned. *)
Theorem executeMultipartRequest_sign :
  let request := opt_request options in
  let timestamp := resolved_timestamp host options st in
  let payload := resolved_payload options in
  let input := timestamp ++ payload ++ pr_password request in
  input <> [] ->
  isWellFormed input = true ->
  md5UpperHex (tauri host) input = Ok (md5_hex input)
  /\ length (md5_hex input) = 32%nat
  /\ forallb is_upper_hex (md5_hex input) = true
  /\ (exists req,
        sent (snd (executeMultipartRequest host options st)) = sent st ++ [req]
        /\ In (lit "sign", md5_hex input) (http_body req))
  /\ (forall ex, returns (executeMultipartRequest host options) st ex ->
        ex_sign ex = md5_hex input).
Proof.
  intros request timestamp payload input Hne Hwf.
  pose proof (md5UpperHex_wellFormed (tauri host) input Hwf Hne) as Hsign.
  destruct (executeMultipartRequest_run (md5_hex input) Hsign)
    as (Hsent & Hret & _).
  split; [exact Hsign|]. split; [apply md5_hex_shape|]. split; [apply md5_hex_shape|].
  split.
  - exists (request_sent options timestamp payload (md5_hex input)).
    split; [exact Hsent|]. unfold request_sent, multipart_fields. cbn [http_body].
    rewrite (toWellFormed_wellFormed (md5_hex input) (md5_hex_wellFormed input)).
    cbn [In]. auto.
  - intros ex Hex. now apply Hret.
Qed.

End Executor.

Lemma executeMultipartRequest_sign_witness :
  let input := lit "20240115093000" ++ lit "eyJhIjoxfQ==" ++ lit "secret" in
  input <> []
  /\ isWellFormed input = true
  /\ md5UpperHex (tauri sample_host) input = Ok (md5_hex input)
  /\ md5_hex input = lit "73C98F0652469629488F74D8503171F7".
Proof.
  cbv zeta. split; [discriminate|]. split; [reflexivity|]. split.
  - apply (executeMultipartRequest_sign sample_host sample_options state0);
      [discriminate | reflexivity].
  - vm_compute. reflexivity.
Defined.

Lemma executeMultipartRequest_fields_witness :
  let options :=
    {| opt_request :=
         {| pr_url := lit "https://example.test/api"; pr_appkey := lit "demo";
            pr_password := lit "secret"; pr_ver := [];
            pr_timestamp := None;
            pr_dataRaw := lit "{}"; pr_dataB64 := Some (lit "eyJhIjoxfQ==") |};
       opt_timeoutMs := 1000; opt_forceTime := None |} in
  calendar_date sample_date = true /\ 0 < getFullYear sample_date
  /\ getTimestamp sample_date = lit "20240115093000"
  /\ sent (snd (executeMultipartRequest sample_host options state0)) =
       [{| http_url := lit "https://example.test/api"; http_method := lit "POST";
           http_body :=
             [(lit "appkey", lit "demo"); (lit "timestamp", lit "20240115093000");
              (lit "data", lit "eyJhIjoxfQ==");
              (lit "sign", lit "73C98F0652469629488F74D8503171F7");
              (lit "ver", lit "1")];
           http_abort_after := 1000 |}].
Proof.
  cbv zeta.
  pose proof (executeMultipartRequest_fields sample_host
    {| opt_request :=
         {| pr_url := lit "https://example.test/api"; pr_appkey := lit "demo";
            pr_password := lit "secret"; pr_ver := [];
            pr_timestamp := None;
            pr_dataRaw := lit "{}"; pr_dataB64 := Some (lit "eyJhIjoxfQ==") |};
       opt_timeoutMs := 1000; opt_forceTime := None |} state0) as H.
  cbv zeta in H. destruct H as (_ & Hgen & _ & Hsend & _).
  assert (Hcal : calendar_date sample_date = true) by reflexivity.
  assert (Hyear : 0 < getFullYear sample_date) by reflexivity.
  split; [exact Hcal|]. split; [exact Hyear|]. split.
  - exact (proj1 (Hgen sample_date Hcal Hyear)).
  - match type of Hsend with
    | match ?m with _ => _ end =>
        assert (Hsign : m = Ok (lit "73C98F0652469629488F74D8503171F7"))
          by (vm_compute; reflexivity)
    end.
    rewrite Hsign in Hsend. exact (proj1 Hsend).
Defined.

(** * Running the store *)

Lemma jsstring_eqb_eq (a b : jsstring) : jsstring_eqb a b = true <-> a = b.
Proof. unfold jsstring_eqb. apply bool_decide_eq_true. Qed.

Lemma jsstring_eqb_refl (a : jsstring) : jsstring_eqb a a = true.
Proof. now apply jsstring_eqb_eq. Qed.

Lemma jsstring_eqb_neq (a b : jsstring) : jsstring_eqb a b = false <-> a <> b.
Proof. unfold jsstring_eqb. apply bool_decide_eq_false. Qed.

Lemma saveGroups_run data st :
  saveGroups data st = (Ok tt, put_doc GROUPS_KEY data st).
Proof. apply writeStorage_run. Qed.

Lemma saveHistory_run data st :
  saveHistory data st = (Ok tt, put_doc HISTORY_KEY data st).
Proof. apply writeStorage_run. Qed.

(** A map whose body always returns relates the two lists pointwise. *)
Lemma mapM_returns {A B} (f : A -> M B) (R : A -> B -> Prop) :
  (forall a st, exists b st', f a st = (Ok b, st') /\ R a b) ->
  forall l st, exists l' st', mapM f l st = (Ok l', st') /\ Forall2 R l l'.
Proof.
  intros Hf l. induction l as [|a l IH]; intros st.
  - exists [], st. split; [reflexivity | constructor].
  - destruct (Hf a st) as (b & st1 & Hb & HR).
    destruct (IH st1) as (l' & st2 & Hl & HF).
    exists (b :: l'), st2. split.
    + simpl. rewrite (bind_ok _ _ _ _ _ Hb), (bind_ok _ _ _ _ _ Hl). reflexivity.
    + now constructor.
Qed.

(** * pushHistory *)

Lemma pushHistory_run e h st :
  pushHistory e h st =
  (Ok {| items := slice0 (e :: items h) (history_limit h);
         limit := Some (history_limit h) |},
   put_doc HISTORY_KEY
     (json_of_StorageHistory
        {| items := slice0 (e :: items h) (history_limit h);
           limit := Some (history_limit h) |}) st).
Proof.
  unfold pushHistory. fold (history_limit h).
  rewrite (bind_ok _ _ _ _ _ (saveHistory_run _ st)). reflexivity.
Qed.

Lemma firstn_removelast {A} (l : list A) (a : A) :
  firstn (length l) (a :: l) = removelast (a :: l).
Proof.
  revert a. induction l as [|b l IH]; intros a; [reflexivity|].
  cbn [length firstn]. rewrite IH. reflexivity.
Qed.

(** C3, as amended. When the limit in force ([h.limit], else 500) is not
    negative, [pushHistory(e, h)] returns the first [limit] elements of
    [e] followed by [h.items], records that limit, and so holds at most
    [limit] items; pushing into a history of exactly [limit] items drops
    exactly the last one. *)
Theorem pushHistory_bounded (e : HistoryItem) (h : StorageHistory) (st : State) :
  0 <= history_limit h ->
  exists r,
    returns (pushHistory e h) st r
    /\ items r = firstn (Z.to_nat (history_limit h)) (e :: items h)
    /\ limit r = Some (history_limit h)
    /\ Z.of_nat (length (items r)) <= history_limit h
    /\ (Z.of_nat (length (items h)) = history_limit h ->
        items r = removelast (e :: items h)).
Proof.
  intros Hlim. eexists. split; [eexists; apply pushHistory_run|].
  cbn [items limit].
  assert (Hs : slice0 (e :: items h) (history_limit h)
               = firstn (Z.to_nat (history_limit h)) (e :: items h)).
  { unfold slice0. destruct (Z.ltb_spec (history_limit h) 0) as [?|_]; [lia|].
    destruct (Z.le_gt_cases (history_limit h) (Z.of_nat (length (e :: items h)))) as [Hle|Hgt].
    - now rewrite Z.min_l.
    - rewrite Z.min_r by lia. rewrite Nat2Z.id.
      rewrite !firstn_all2; [reflexivity | lia | lia]. }
  rewrite Hs. repeat split.
  - rewrite length_firstn. lia.
  - intros Hfull. rewrite <- firstn_removelast. f_equal. lia.
Qed.

Lemma pushHistory_bounded_witness :
  let h := {| items := [sample_entry "a"; sample_entry "b"]; limit := Some 2 |} in
  0 <= history_limit h
  /\ exists r,
       returns (pushHistory (sample_entry "c") h) state0 r
       /\ items r = firstn (Z.to_nat (history_limit h)) (sample_entry "c" :: items h)
       /\ limit r = Some (history_limit h)
       /\ Z.of_nat (length (items r)) <= history_limit h
       /\ (Z.of_nat (length (items h)) = history_limit h ->
           items r = removelast (sample_entry "c" :: items h)).
Proof.
  cbv zeta. split.
  - vm_compute. discriminate.
  - apply pushHistory_bounded. vm_compute. discriminate.
Defined.

(** C3, as stated, fails for a negative limit: [slice(0, -1)] drops one
    element from the end, so two items remain under a limit of -1. *)
Lemma pushHistory_negative_limit :
  let h := {| items := [sample_entry "a"; sample_entry "b"]; limit := Some (-1) |} in
  exists r,
    returns (pushHistory (sample_entry "c") h) state0 r
    /\ items r = [sample_entry "c"; sample_entry "a"]
    /\ ~ Z.of_nat (length (items r)) <= history_limit h.
Proof.
  cbv zeta. eexists. split; [eexists; apply pushHistory_run|].
  split; [reflexivity|]. vm_compute. intros H. apply H. reflexivity.
Qed.

(** * Groups *)

Section Groups.
Variable host : Host.

Lemma existsb_Forall2 {A B} (f : A -> bool) (g : B -> bool) l l' :
  Forall2 (fun a b => f a = true -> g b = true) l l' ->
  existsb f l = true -> existsb g l' = true.
Proof.
  induction 1 as [|a b l l' Hab _ IH]; simpl; [easy|].
  rewrite !orb_true_iff. intros [Ha|Hl]; [left; auto | right; auto].
Qed.

Lemma Forall2_weaken {A B} (R R' : A -> B -> Prop) l l' :
  (forall a b, R a b -> R' a b) -> Forall2 R l l' -> Forall2 R' l l'.
Proof. intros HR. induction 1; constructor; auto. Qed.

Lemma findIndex_none {A} (pred : A -> bool) (arr : list A) :
  (findIndex pred arr =? -1) = negb (existsb pred arr).
Proof.
  induction arr as [|x arr IH]; [reflexivity|].
  simpl. destruct (pred x); [reflexivity|]. simpl.
  assert (Hge : -1 <= findIndex pred arr).
  { clear. induction arr as [|y arr IH]; simpl; [lia|].
    destruct (pred y); [lia|]. destruct (findIndex pred arr =? -1); lia. }
  destruct (findIndex pred arr =? -1) eqn:E; rewrite <- IH; [reflexivity|].
  apply Z.eqb_neq in E. apply Z.eqb_neq. lia.
Qed.

Lemma upsertPreset_run groupId preset existing st :
  exists groups' st',
    upsertPreset host groupId preset existing st =
      (Ok {| groups := groups'; lastUsedGroupId := Some groupId;
             lastUsedPresetId := Some (p_id preset) |}, st')
    /\ Forall2 (upsert_rel groupId preset) (groups existing) groups'.
Proof.
  unfold upsertPreset.
  match goal with |- context [mapM ?f _] =>
    destruct (mapM_returns f (upsert_rel groupId preset)) with (l := groups existing) (st := st)
      as (gs & st1 & Hrun & Hrel)
  end.
  - intros g s. destruct (jsstring_eqb (g_id g) groupId) eqn:E; simpl.
    + apply jsstring_eqb_eq in E. eexists _, _. split; [reflexivity|].
      split; [congruence|]. intros _. cbn. repeat split.
      unfold upserted. rewrite findIndex_none.
      destruct (existsb _ (g_presets g)); reflexivity.
    + apply jsstring_eqb_neq in E. exists g, s. split; [reflexivity|].
      split; [reflexivity | congruence].
  - exists gs. eexists. split; [|exact Hrel].
    rewrite (bind_ok _ _ _ _ _ Hrun), (bind_ok _ _ _ _ _ (saveGroups_run _ _)).
    reflexivity.
Qed.

Lemma lookup_map_if {A} (f : A -> A) (l : list A) k p :
  l !! k = Some p -> List.map f l !! k = Some (f p).
Proof.
  revert k. induction l as [|a l IH]; intros [|k]; simpl; try discriminate.
  - now intros [= ->].
  - apply IH.
Qed.

(** C6. For a group [g] at position [i] whose id is [groupId]:
    [upsertPreset] returns; the group at position [i] of the result keeps
    id and name; if [g] holds a preset with the id of [preset], its preset
    list has the same length and at every position the old preset, or
    [preset] where the id matches; otherwise it is the old list with
    [preset] appended; groups with another id are unchanged; and the last
    used ids are [groupId] and [preset.id]. *)
Theorem upsertPreset_replaces_or_appends
    (groupId : jsstring) (preset : PresetItem)
    (existing : StorageGroups) (st : State) (i : nat) (g : GroupItem) :
  groups existing !! i = Some g ->
  g_id g = groupId ->
  exists r g',
    returns (upsertPreset host groupId preset existing) st r
    /\ lastUsedGroupId r = Some groupId
    /\ lastUsedPresetId r = Some (p_id preset)
    /\ length (groups r) = length (groups existing)
    /\ groups r !! i = Some g'
    /\ g_id g' = g_id g /\ g_name g' = g_name g
    /\ (if existsb (fun p => jsstring_eqb (p_id p) (p_id preset)) (g_presets g)
        then length (g_presets g') = length (g_presets g)
             /\ forall k p, g_presets g !! k = Some p ->
                  g_presets g' !! k =
                    Some (if jsstring_eqb (p_id p) (p_id preset) then preset else p)
        else g_presets g' = g_presets g ++ [preset])
    /\ (forall j g2, groups existing !! j = Some g2 -> g_id g2 <> groupId ->
        groups r !! j = Some g2).
Proof.
  intros Hi Hid.
  destruct (upsertPreset_run groupId preset existing st)
    as (gs & st' & Hrun & Hrel).
  destruct (Forall2_lookup_l _ _ _ _ _ Hrel Hi) as (g' & Hi' & Hne & Heq).
  destruct (Heq Hid) as (Hgid & Hname & Hpresets).
  eexists _, g'. split; [eexists; exact Hrun|]. cbn [groups lastUsedGroupId lastUsedPresetId].
  repeat split; try assumption.
  - symmetry. eapply Forall2_length, Hrel.
  - rewrite Hpresets. unfold upserted.
    destruct (existsb _ (g_presets g)); [|reflexivity].
    split; [apply length_map|]. intros k p Hk.
    now apply (lookup_map_if (fun p => if jsstring_eqb (p_id p) (p_id preset) then preset else p)).
  - intros j g2 Hj Hne2.
    destruct (Forall2_lookup_l _ _ _ _ _ Hrel Hj) as (g2' & Hj' & Hsame & _).
    rewrite Hj'. f_equal. now apply Hsame.
Qed.

(** ** Runs of the other operations *)

Lemma deleteGroup_run groupId existing st :
  exists r st',
    deleteGroup groupId existing st = (Ok r, st')
    /\ groups r = List.filter (fun g => negb (jsstring_eqb (g_id g) groupId)) (groups existing)
    /\ lastUsedGroupId r =
         (if bool_decide (lastUsedGroupId existing = Some groupId)
          then None else lastUsedGroupId existing)
    /\ lastUsedPresetId r =
         match lastUsedPresetId existing with
         | Some last =>
             if negb (str_falsy last) && preset_exists last existing
             then Some last else None
         | None => None
         end.
Proof.
  unfold deleteGroup. eexists _, _. split.
  - rewrite (bind_ok _ _ _ _ _ (saveGroups_run _ _)). reflexivity.
  - repeat split.
Qed.

Lemma renameGroup_run groupId name existing st :
  exists groups' st',
    renameGroup host groupId name existing st =
      (Ok {| groups := groups'; lastUsedGroupId := lastUsedGroupId existing;
             lastUsedPresetId := lastUsedPresetId existing |}, st')
    /\ Forall2 same_group (groups existing) groups'.
Proof.
  unfold renameGroup.
  match goal with |- context [mapM ?f _] =>
    destruct (mapM_returns f same_group) with (l := groups existing) (st := st)
      as (gs & st1 & Hrun & Hrel)
  end.
  - intros g s. destruct (jsstring_eqb (g_id g) groupId);
      eexists _, _; (split; [reflexivity | split; reflexivity]).
  - exists gs. eexists. split; [|exact Hrel].
    rewrite (bind_ok _ _ _ _ _ Hrun), (bind_ok _ _ _ _ _ (saveGroups_run _ _)).
    reflexivity.
Qed.

Lemma clonePreset_run groupId preset existing st :
  exists groups' st',
    clonePreset host groupId preset existing st =
      (Ok {| groups := groups'; lastUsedGroupId := lastUsedGroupId existing;
             lastUsedPresetId := lastUsedPresetId existing |}, st')
    /\ Forall2 grown_group (groups existing) groups'.
Proof.
  unfold clonePreset.
  unfold bind at 1. cbn [generateId]. unfold bind at 1. cbn [newDate].
  match goal with |- context [bind (mapM ?f _) _ ?s] =>
    destruct (mapM_returns f grown_group) with (l := groups existing) (st := s)
      as (gs & st1 & Hrun & Hrel)
  end.
  - intros g s. destruct (jsstring_eqb (g_id g) groupId);
      eexists _, _; (split; [reflexivity | split; [reflexivity|]]).
    + cbn. intros p Hp. apply in_or_app. now left.
    + auto.
  - exists gs. eexists. split; [|exact Hrel].
    rewrite (bind_ok _ _ _ _ _ Hrun), (bind_ok _ _ _ _ _ (saveGroups_run _ _)).
    reflexivity.
Qed.

Lemma deletePreset_run groupId presetId existing st :
  exists groups' st',
    deletePreset host groupId presetId existing st =
      (Ok {| groups := groups'; lastUsedGroupId := lastUsedGroupId existing;
             lastUsedPresetId :=
               if bool_decide (lastUsedPresetId existing = Some presetId)
               then None else lastUsedPresetId existing |}, st')
    /\ Forall2 (pruned_group presetId) (groups existing) groups'.
Proof.
  unfold deletePreset.
  match goal with |- context [mapM ?f _] =>
    destruct (mapM_returns f (pruned_group presetId)) with (l := groups existing) (st := st)
      as (gs & st1 & Hrun & Hrel)
  end.
  - intros g s. destruct (jsstring_eqb (g_id g) groupId);
      eexists _, _; (split; [reflexivity | split; [reflexivity|]]).
    + cbn. intros p Hp Hne. apply filter_In. split; [exact Hp|].
      apply negb_true_iff. now apply jsstring_eqb_neq.
    + auto.
  - exists gs. eexists. split; [|exact Hrel].
    rewrite (bind_ok _ _ _ _ _ Hrun), (bind_ok _ _ _ _ _ (saveGroups_run _ _)).
    reflexivity.
Qed.

Lemma createGroup_run name existing st :
  exists g st',
    createGroup host name existing st =
      (Ok {| groups := groups existing ++ [g]; lastUsedGroupId := Some (g_id g);
             lastUsedPresetId := None |}, st')
    /\ g_presets g = [].
Proof.
  unfold createGroup.
  exists {| g_id := randomUUID host (uuids_drawn st); g_name := name;
            g_presets := [];
            g_updatedAt := toISOString (clock host (dates_read st)) |}.
  eexists. split; [|reflexivity].
  unfold bind at 1. cbn [generateId]. unfold bind at 1. cbn [newDate].
  rewrite (bind_ok _ _ _ _ _ (saveGroups_run _ _)). reflexivity.
Qed.

(** ** Existence of groups and presets across a pointwise relation *)

Lemma group_exists_Forall2 gid (R : GroupItem -> GroupItem -> Prop) gs gs' :
  (forall g g', R g g' -> g_id g' = g_id g) ->
  Forall2 R gs gs' ->
  existsb (fun g => jsstring_eqb (g_id g) gid) gs = true ->
  existsb (fun g => jsstring_eqb (g_id g) gid) gs' = true.
Proof.
  intros Hid HF. apply existsb_Forall2.
  eapply Forall2_weaken; [|exact HF]. intros g g' HR. cbn.
  now rewrite (Hid _ _ HR).
Qed.

Lemma preset_exists_Forall2 pid (R : GroupItem -> GroupItem -> Prop) gs gs' :
  (forall g g', R g g' ->
     forall p, In p (g_presets g) -> p_id p = pid ->
               exists p', In p' (g_presets g') /\ p_id p' = pid) ->
  Forall2 R gs gs' ->
  existsb (fun g => existsb (fun p => jsstring_eqb (p_id p) pid) (g_presets g)) gs = true ->
  existsb (fun g => existsb (fun p => jsstring_eqb (p_id p) pid) (g_presets g)) gs' = true.
Proof.
  intros Hp HF. apply existsb_Forall2.
  eapply Forall2_weaken; [|exact HF]. intros g g' HR. cbn.
  rewrite !existsb_exists. intros (p & Hin & Heq).
  apply jsstring_eqb_eq in Heq.
  destruct (Hp _ _ HR p Hin Heq) as (p' & Hin' & Heq').
  exists p'. split; [exact Hin'|]. now apply jsstring_eqb_eq.
Qed.

Lemma last_used_resolve_split s :
  last_used_resolve s = true <->
  (forall gid, lastUsedGroupId s = Some gid -> group_exists gid s = true)
  /\ (forall pid, lastUsedPresetId s = Some pid -> preset_exists pid s = true).
Proof.
  unfold last_used_resolve. rewrite andb_true_iff.
  destruct (lastUsedGroupId s), (lastUsedPresetId s); split.
  all: try (intros [H1 H2]; split; intros ? [= <-] || intros ? [=]; assumption).
  all: intros [H1 H2]; split; auto.
Qed.

Lemma upserted_has_preset preset presets :
  exists p', In p' (upserted preset presets) /\ p_id p' = p_id preset.
Proof.
  unfold upserted.
  destruct (existsb _ presets) eqn:E.
  - apply existsb_exists in E. destruct E as (p & Hin & Heq).
    exists preset. split; [|reflexivity].
    apply in_map_iff. exists p. now rewrite Heq.
  - exists preset. split; [|reflexivity]. apply in_or_app. right. now left.
Qed.

(** C5, as amended. From an aggregate whose last used ids resolve:
    [createGroup], [renameGroup], [deletePreset] and [clonePreset] return
    an aggregate whose last used ids resolve; so does [upsertPreset] when
    [groupId] names an existing group; and after [deleteGroup] the last
    used group id, when present, names an existing group. *)
Theorem store_operations_keep_last_used
    (existing : StorageGroups) (st : State) :
  last_used_resolve existing = true ->
  (forall name, exists r,
      returns (createGroup host name existing) st r /\ last_used_resolve r = true)
  /\ (forall groupId name, exists r,
      returns (renameGroup host groupId name existing) st r
      /\ last_used_resolve r = true)
  /\ (forall groupId presetId, exists r,
      returns (deletePreset host groupId presetId existing) st r
      /\ last_used_resolve r = true)
  /\ (forall groupId preset, exists r,
      returns (clonePreset host groupId preset existing) st r
      /\ last_used_resolve r = true)
  /\ (forall groupId preset, group_exists groupId existing = true -> exists r,
      returns (upsertPreset host groupId preset existing) st r
      /\ last_used_resolve r = true)
  /\ (forall groupId, exists r,
      returns (deleteGroup groupId existing) st r
      /\ forall gid, lastUsedGroupId r = Some gid -> group_exists gid r = true).
Proof.
  intros Hinv. apply last_used_resolve_split in Hinv. destruct Hinv as [Hg Hp].
  repeat apply conj.
  - intros name.
    destruct (createGroup_run name existing st) as (g & st' & Hrun & _).
    eexists. split; [eexists; exact Hrun|].
    unfold last_used_resolve, group_exists. cbn.
    rewrite existsb_app. cbn. rewrite jsstring_eqb_refl. now rewrite orb_true_r.
  - intros groupId name.
    destruct (renameGroup_run groupId name existing st) as (gs & st' & Hrun & Hrel).
    eexists. split; [eexists; exact Hrun|].
    apply last_used_resolve_split. cbn. split.
    + intros gid Hgid. eapply group_exists_Forall2; [|exact Hrel|now apply Hg].
      now intros ? ? [? _].
    + intros pid Hpid. eapply preset_exists_Forall2; [|exact Hrel|now apply Hp].
      intros g g' [_ Hpr] p Hin <-. exists p. now rewrite Hpr.
  - intros groupId presetId.
    destruct (deletePreset_run groupId presetId existing st)
      as (gs & st' & Hrun & Hrel).
    eexists. split; [eexists; exact Hrun|].
    apply last_used_resolve_split. cbn. split.
    + intros gid Hgid. eapply group_exists_Forall2; [|exact Hrel|now apply Hg].
      now intros ? ? [? _].
    + intros pid. case_bool_decide as Hd; [discriminate|]. intros Hpid.
      eapply preset_exists_Forall2; [|exact Hrel|now apply Hp].
      intros g g' [_ Hpr] p Hin Heq. exists p. split; [|exact Heq].
      apply Hpr; [exact Hin|]. congruence.
  - intros groupId preset.
    destruct (clonePreset_run groupId preset existing st)
      as (gs & st' & Hrun & Hrel).
    eexists. split; [eexists; exact Hrun|].
    apply last_used_resolve_split. cbn. split.
    + intros gid Hgid. eapply group_exists_Forall2; [|exact Hrel|now apply Hg].
      now intros ? ? [? _].
    + intros pid Hpid. eapply preset_exists_Forall2; [|exact Hrel|now apply Hp].
      intros g g' [_ Hpr] p Hin Heq. exists p. auto.
  - intros groupId preset Hex.
    destruct (upsertPreset_run groupId preset existing st)
      as (gs & st' & Hrun & Hrel).
    eexists. split; [eexists; exact Hrun|].
    apply last_used_resolve_split. cbn. split.
    + intros gid [= <-]. eapply group_exists_Forall2; [|exact Hrel|exact Hex].
      intros g g' [Hne Heq].
      destruct (decide (g_id g = groupId)) as [E|E];
        [now apply Heq | now rewrite (Hne E)].
    + intros pid [= <-]. unfold group_exists in Hex.
      revert Hex. apply existsb_Forall2.
      eapply Forall2_weaken; [|exact Hrel]. intros g g' [_ Heq]. cbn.
      intros E. apply jsstring_eqb_eq in E. destruct (Heq E) as (_ & _ & Hpr).
      rewrite Hpr. apply existsb_exists.
      destruct (upserted_has_preset preset (g_presets g)) as (p' & Hin & Hid).
      exists p'. split; [exact Hin|]. now apply jsstring_eqb_eq.
  - intros groupId.
    destruct (deleteGroup_run groupId existing st) as (r & st' & Hrun & Hgs & Hlg & _).
    exists r. split; [eexists; exact Hrun|].
    intros gid. rewrite Hlg. case_bool_decide as Hd; [discriminate|]. intros Hgid.
    specialize (Hg gid Hgid). unfold group_exists in *. rewrite Hgs.
    apply existsb_exists in Hg. destruct Hg as (g & Hin & Heq).
    apply existsb_exists. exists g. split; [|exact Heq].
    apply filter_In. split; [exact Hin|]. apply negb_true_iff, jsstring_eqb_neq.
    apply jsstring_eqb_eq in Heq. congruence.
Qed.

End Groups.

Lemma store_operations_keep_last_used_witness :
  last_used_resolve sample_groups = true
  /\ exists r,
       returns (createGroup sample_host (lit "new") sample_groups) state0 r
       /\ last_used_resolve r = true.
Proof.
  assert (H : last_used_resolve sample_groups = true) by (vm_compute; reflexivity).
  split; [exact H|].
  exact (proj1 (store_operations_keep_last_used sample_host sample_groups state0 H)
               (lit "new")).
Defined.

Lemma upsertPreset_replaces_or_appends_witness :
  groups sample_groups !! 0%nat = Some (sample_group "g1" [sample_preset "p1"; sample_preset "p2"])
  /\ g_id (sample_group "g1" [sample_preset "p1"; sample_preset "p2"]) = lit "g1"
  /\ exists r g',
       returns (upsertPreset sample_host (lit "g1") (sample_preset "p2") sample_groups) state0 r
       /\ lastUsedGroupId r = Some (lit "g1")
       /\ groups r !! 0%nat = Some g'.
Proof.
  split; [reflexivity|]. split; [reflexivity|].
  destruct (upsertPreset_replaces_or_appends sample_host (lit "g1") (sample_preset "p2")
              sample_groups state0 0%nat
              (sample_group "g1" [sample_preset "p1"; sample_preset "p2"]))
    as (r & g' & Hr & Hg & _ & _ & Hi & _); [reflexivity | reflexivity |].
  exists r, g'. auto.
Defined.

(** C5, as stated, fails: [upsertPreset] on an unknown group id changes
    no group and still records that id and the preset's id as last used. *)
Lemma upsertPreset_unknown_group_breaks_last_used :
  let existing := {| groups := [sample_group "g1" []];
                     lastUsedGroupId := Some (lit "g1");
                     lastUsedPresetId := None |} in
  last_used_resolve existing = true
  /\ exists r,
       returns (upsertPreset sample_host (lit "nope") (sample_preset "p1") existing) state0 r
       /\ groups r = groups existing
       /\ lastUsedGroupId r = Some (lit "nope")
       /\ last_used_resolve r = false.
Proof.
  cbv zeta. split; [vm_compute; reflexivity|].
  eexists. split.
  - eexists. vm_compute. reflexivity.
  - vm_compute. auto.
Qed.

(** C4. The code at the failing input: deleting the group that holds the
    last used preset clears [lastUsedGroupId] but keeps [lastUsedPresetId],
    which then names no preset (the check scans the groups as they were
    before the deletion). *)
Theorem deleteGroup_keeps_dangling_lastUsedPresetId :
  let existing := {| groups := [sample_group "g1" [sample_preset "p1"]; sample_group "g2" []];
                     lastUsedGroupId := Some (lit "g1");
                     lastUsedPresetId := Some (lit "p1") |} in
  exists r,
    returns (deleteGroup (lit "g1") existing) state0 r
    /\ r = {| groups := [sample_group "g2" []];
              lastUsedGroupId := None;
              lastUsedPresetId := Some (lit "p1") |}
    /\ preset_exists (lit "p1") r = false.
Proof.
  cbv zeta. eexists. split.
  - eexists. vm_compute. reflexivity.
  - split; vm_compute; reflexivity.
Qed.

(** * importAll *)

Lemma storage_keys_differ : GROUPS_KEY <> HISTORY_KEY.
Proof. vm_compute. discriminate. Qed.

(** Reading back what was put under the two keys. *)
Lemma load_after_put g h st :
  is_some (localStorage st) = true ->
  returns loadGroups (put_doc HISTORY_KEY h (put_doc GROUPS_KEY g st)) g
  /\ returns loadHistory (put_doc HISTORY_KEY h (put_doc GROUPS_KEY g st)) h.
Proof.
  destruct st as [[m|] d p u sn]; [intros _ | discriminate].
  split; eexists; unfold loadGroups, loadHistory, readStorage, put_doc;
    cbn [localStorage fmap option_fmap option_map];
    unfold bind, ensureWindow; cbn [localStorage].
  - rewrite lookup_insert_ne by (apply not_eq_sym, storage_keys_differ).
    rewrite lookup_insert_eq. reflexivity.
  - rewrite lookup_insert_eq. reflexivity.
Qed.

(** C7, as amended. When the payload is an object whose [groups] and
    [history] properties are both truthy, [importAll] stores the two
    values under their keys (if there is a [localStorage]) and returns
    them, and [loadGroups] and [loadHistory] then read them back; for
    every other payload it returns [null] and leaves the state as it
    was. *)
Theorem importAll_spec (data : unknown) (st : State) :
  importAll data st =
    (if import_accepts data
     then match get_prop data (lit "groups"), get_prop data (lit "history") with
          | Some g, Some h =>
              (Ok (Some (g, h)), put_doc HISTORY_KEY h (put_doc GROUPS_KEY g st))
          | _, _ => (Ok None, st)
          end
     else (Ok None, st))
  /\ (import_accepts data = true ->
      exists g h,
        get_prop data (lit "groups") = Some g
        /\ get_prop data (lit "history") = Some h
        /\ returns (importAll data) st (Some (g, h))
        /\ (is_some (localStorage st) = true ->
            returns loadGroups (snd (importAll data st)) g
            /\ returns loadHistory (snd (importAll data st)) h)).
Proof.
  assert (Hrun : importAll data st =
    (if import_accepts data
     then match get_prop data (lit "groups"), get_prop data (lit "history") with
          | Some g, Some h =>
              (Ok (Some (g, h)), put_doc HISTORY_KEY h (put_doc GROUPS_KEY g st))
          | _, _ => (Ok None, st)
          end
     else (Ok None, st))).
  { unfold importAll, import_accepts.
    destruct (falsy data); [reflexivity|].
    destruct (typeof_object data); [|reflexivity]. cbn [negb orb andb].
    destruct (get_prop data (lit "groups")) as [g|]; [|reflexivity].
    destruct (falsy (Some g)); [reflexivity|].
    destruct (get_prop data (lit "history")) as [h|]; [|reflexivity].
    destruct (falsy (Some h)); [reflexivity|]. cbn [negb orb andb].
    rewrite (bind_ok _ _ _ _ _ (saveGroups_run _ _)).
    rewrite (bind_ok _ _ _ _ _ (saveHistory_run _ _)). reflexivity. }
  split; [exact Hrun|]. intros Hacc. unfold returns. rewrite Hrun, Hacc.
  unfold import_accepts in Hacc. rewrite !andb_true_iff, !negb_true_iff in Hacc.
  destruct Hacc as [[_ Hg] Hh].
  destruct (get_prop data (lit "groups")) as [g|]; [|discriminate].
  destruct (get_prop data (lit "history")) as [h|]; [|discriminate].
  exists g, h. split; [reflexivity|]. split; [reflexivity|].
  split; [eexists; reflexivity|]. intros Hls. cbn [snd].
  now apply load_after_put.
Qed.

Lemma importAll_spec_witness :
  let data := Some (JObj [(lit "groups", JObj [(lit "groups", JArr [])]);
                          (lit "history", JObj [(lit "items", JArr [])])]) in
  import_accepts data = true
  /\ exists g h,
       get_prop data (lit "groups") = Some g
       /\ get_prop data (lit "history") = Some h
       /\ returns (importAll data) state0 (Some (g, h))
       /\ (is_some (localStorage state0) = true ->
           returns loadGroups (snd (importAll data state0)) g
           /\ returns loadHistory (snd (importAll data state0)) h).
Proof.
  cbv zeta.
  assert (H : import_accepts
                (Some (JObj [(lit "groups", JObj [(lit "groups", JArr [])]);
                             (lit "history", JObj [(lit "items", JArr [])])])) = true)
    by (vm_compute; reflexivity).
  split; [exact H|].
  exact (proj2 (importAll_spec _ state0) H).
Defined.

(** C7, as stated, fails: an object that has both properties, one of
    them [null], is answered with [null] and nothing is written. *)
Lemma importAll_null_field_rejected :
  let data := Some (JObj [(lit "groups", JNull); (lit "history", JObj [(lit "items", JArr [])])]) in
  has_both_props data = true
  /\ importAll data state0 = (Ok None, state0).
Proof. cbv zeta. split; vm_compute; reflexivity. Qed.

(** * What the store operations write *)

Lemma keeps_store_refl st : keeps_store st st.
Proof. split; reflexivity. Qed.

Lemma keeps_store_trans st1 st2 st3 :
  keeps_store st1 st2 -> keeps_store st2 st3 -> keeps_store st1 st3.
Proof. intros [H1 H2] [H3 H4]. split; congruence. Qed.

Lemma put_doc_stored key doc st st1 :
  keeps_store st st1 -> stored_after st (put_doc key doc st1) key doc.
Proof. intros [Hs Hl]. split; cbn [put_doc sent localStorage]; congruence. Qed.

Lemma put_doc_twice key doc1 doc2 st st1 st2 :
  stored_after st st1 key doc1 -> stored_after st1 st2 key doc2 ->
  stored_after st st2 key doc2.
Proof.
  intros [Hs1 Hl1] [Hs2 Hl2]. split; [congruence|].
  rewrite Hl2, Hl1. destruct (localStorage st) as [m|]; [|reflexivity].
  cbn. f_equal. apply insert_insert_eq.
Qed.

(** A map whose body always returns and leaves the store alone. *)
Lemma mapM_returns_keeping {A B} (f : A -> M B) (R : A -> B -> Prop) :
  (forall a st, exists b st', f a st = (Ok b, st') /\ R a b /\ keeps_store st st') ->
  forall l st, exists l' st',
    mapM f l st = (Ok l', st') /\ Forall2 R l l' /\ keeps_store st st'.
Proof.
  intros Hf l. induction l as [|a l IH]; intros st.
  - exists [], st. split; [reflexivity|]. split; [constructor | apply keeps_store_refl].
  - destruct (Hf a st) as (b & st1 & Hb & HR & K1).
    destruct (IH st1) as (l' & st2 & Hl & HF & K2).
    exists (b :: l'), st2. split; [|split].
    + cbn [mapM]. rewrite (bind_ok _ _ _ _ _ Hb), (bind_ok _ _ _ _ _ Hl). reflexivity.
    + now constructor.
    + eapply keeps_store_trans; eassumption.
Qed.

(** A map whose body returns its argument as it is changes nothing. *)
Lemma mapM_untouched {A} (f : A -> M A) (l : list A) st :
  Forall (fun a => f a = ret a) l -> mapM f l st = (Ok l, st).
Proof.
  induction 1 as [|a l Ha _ IH]; [reflexivity|].
  cbn [mapM]. rewrite Ha. unfold bind at 1, ret at 1.
  rewrite (bind_ok _ _ _ _ _ IH). reflexivity.
Qed.

Section GroupsStored.
Variable host : Host.

Lemma upsertPreset_stored groupId preset existing st :
  exists gs st1,
    upsertPreset host groupId preset existing st
      = (let r := {| groups := gs; lastUsedGroupId := Some groupId;
                     lastUsedPresetId := Some (p_id preset) |} in
         (Ok r, put_doc GROUPS_KEY (json_of_StorageGroups r) st1))
    /\ keeps_store st st1
    /\ Forall2 (edited_group groupId (fun n => n) (upserted preset)) (groups existing) gs.
Proof.
  unfold upsertPreset.
  match goal with |- context [mapM ?f _] =>
    destruct (mapM_returns_keeping f (edited_group groupId (fun n => n) (upserted preset)))
      with (l := groups existing) (st := st) as (gs & st1 & Hrun & Hrel & K)
  end.
  - intros g s. destruct (jsstring_eqb (g_id g) groupId) eqn:E; cbn [negb].
    + apply jsstring_eqb_eq in E. eexists _, _. split; [reflexivity|].
      split; [|split; reflexivity].
      split; [congruence|]. intros _. cbn. repeat split.
      unfold upserted. rewrite findIndex_none.
      destruct (existsb _ (g_presets g)); reflexivity.
    + apply jsstring_eqb_neq in E. exists g, s. split; [reflexivity|].
      split; [|apply keeps_store_refl]. split; [reflexivity | congruence].
  - exists gs, st1. split; [|split; [exact K|exact Hrel]].
    rewrite (bind_ok _ _ _ _ _ Hrun), (bind_ok _ _ _ _ _ (saveGroups_run _ _)).
    reflexivity.
Qed.

Lemma renameGroup_stored groupId name existing st :
  exists gs st1,
    renameGroup host groupId name existing st
      = (let r := {| groups := gs; lastUsedGroupId := lastUsedGroupId existing;
                     lastUsedPresetId := lastUsedPresetId existing |} in
         (Ok r, put_doc GROUPS_KEY (json_of_StorageGroups r) st1))
    /\ keeps_store st st1
    /\ Forall2 (edited_group groupId (fun _ => name) (fun ps => ps)) (groups existing) gs.
Proof.
  unfold renameGroup.
  match goal with |- context [mapM ?f _] =>
    destruct (mapM_returns_keeping f (edited_group groupId (fun _ => name) (fun ps => ps)))
      with (l := groups existing) (st := st) as (gs & st1 & Hrun & Hrel & K)
  end.
  - intros g s. destruct (jsstring_eqb (g_id g) groupId) eqn:E.
    + apply jsstring_eqb_eq in E. eexists _, _. split; [reflexivity|].
      split; [|split; reflexivity].
      split; [congruence|]. intros _. cbn. repeat split.
    + apply jsstring_eqb_neq in E. exists g, s. split; [reflexivity|].
      split; [|apply keeps_store_refl]. split; [reflexivity | congruence].
  - exists gs, st1. split; [|split; [exact K|exact Hrel]].
    rewrite (bind_ok _ _ _ _ _ Hrun), (bind_ok _ _ _ _ _ (saveGroups_run _ _)).
    reflexivity.
Qed.

Lemma deletePreset_stored groupId presetId existing st :
  exists gs st1,
    deletePreset host groupId presetId existing st
      = (let r := {| groups := gs; lastUsedGroupId := lastUsedGroupId existing;
                     lastUsedPresetId :=
                       if bool_decide (lastUsedPresetId existing = Some presetId)
                       then None else lastUsedPresetId existing |} in
         (Ok r, put_doc GROUPS_KEY (json_of_StorageGroups r) st1))
    /\ keeps_store st st1
    /\ Forall2 (edited_group groupId (fun n => n) (without_preset presetId))
               (groups existing) gs.
Proof.
  unfold deletePreset.
  match goal with |- context [mapM ?f _] =>
    destruct (mapM_returns_keeping f (edited_group groupId (fun n => n) (without_preset presetId)))
      with (l := groups existing) (st := st) as (gs & st1 & Hrun & Hrel & K)
  end.
  - intros g s. destruct (jsstring_eqb (g_id g) groupId) eqn:E; cbn [negb].
    + apply jsstring_eqb_eq in E. eexists _, _. split; [reflexivity|].
      split; [|split; reflexivity].
      split; [congruence|]. intros _. cbn. repeat split.
    + apply jsstring_eqb_neq in E. exists g, s. split; [reflexivity|].
      split; [|apply keeps_store_refl]. split; [reflexivity | congruence].
  - exists gs, st1. split; [|split; [exact K|exact Hrel]].
    rewrite (bind_ok _ _ _ _ _ Hrun), (bind_ok _ _ _ _ _ (saveGroups_run _ _)).
    reflexivity.
Qed.

Lemma clonePreset_stored groupId preset existing st :
  exists gs st1,
    clonePreset host groupId preset existing st
      = (let r := {| groups := gs; lastUsedGroupId := lastUsedGroupId existing;
                     lastUsedPresetId := lastUsedPresetId existing |} in
         (Ok r, put_doc GROUPS_KEY (json_of_StorageGroups r) st1))
    /\ keeps_store st st1
    /\ Forall2 (edited_group groupId (fun n => n)
                  (fun ps => ps ++ [clone_of host st preset]))
               (groups existing) gs.
Proof.
  unfold clonePreset.
  unfold bind at 1. cbn [generateId]. unfold bind at 1. cbn [newDate].
  cbn [localStorage dates_read perf_read uuids_drawn sent].
  fold (clone_of host st preset).
  match goal with |- context [bind (mapM ?f _) _ ?s] =>
    destruct (mapM_returns_keeping f
                (edited_group groupId (fun n => n) (fun ps => ps ++ [clone_of host st preset])))
      with (l := groups existing) (st := s) as (gs & st1 & Hrun & Hrel & K)
  end.
  - intros g s. destruct (jsstring_eqb (g_id g) groupId) eqn:E.
    + apply jsstring_eqb_eq in E. eexists _, _. split; [reflexivity|].
      split; [|split; reflexivity].
      split; [congruence|]. intros _. cbn. repeat split.
    + apply jsstring_eqb_neq in E. exists g, s. split; [reflexivity|].
      split; [|apply keeps_store_refl]. split; [reflexivity | congruence].
  - exists gs, st1. split; [|split; [|exact Hrel]].
    + rewrite (bind_ok _ _ _ _ _ Hrun), (bind_ok _ _ _ _ _ (saveGroups_run _ _)).
      reflexivity.
    + destruct K as [K1 K2]. split; [exact K1 | exact K2].
Qed.

End GroupsStored.

(** * Store operations, one by one *)

Lemma writes_through_of {A} key (enc : A -> json) (m : M A) st r st1 :
  m st = (Ok r, put_doc key (enc r) st1) -> keeps_store st st1 ->
  writes_through key enc m st.
Proof. intros H K. exists r, (put_doc key (enc r) st1). split; [exact H|]. now apply put_doc_stored. Qed.

Lemma createGroup_stored host name existing st :
  let g := {| g_id := randomUUID host (uuids_drawn st); g_name := name; g_presets := [];
              g_updatedAt := toISOString (clock host (dates_read st)) |} in
  let r := {| groups := groups existing ++ [g]; lastUsedGroupId := Some (g_id g);
              lastUsedPresetId := None |} in
  exists st1,
    createGroup host name existing st = (Ok r, put_doc GROUPS_KEY (json_of_StorageGroups r) st1)
    /\ keeps_store st st1
    /\ uuids_drawn st1 = S (uuids_drawn st).
Proof.
  intros g r. unfold createGroup.
  unfold bind at 1. cbn [generateId]. unfold bind at 1. cbn [newDate].
  eexists. split; [|split].
  - rewrite (bind_ok _ _ _ _ _ (saveGroups_run _ _)). reflexivity.
  - split; reflexivity.
  - reflexivity.
Qed.

Lemma deleteGroup_stored groupId existing st :
  exists r,
    deleteGroup groupId existing st = (Ok r, put_doc GROUPS_KEY (json_of_StorageGroups r) st)
    /\ groups r = List.filter (fun g => negb (jsstring_eqb (g_id g) groupId)) (groups existing)
    /\ lastUsedGroupId r =
         (if bool_decide (lastUsedGroupId existing = Some groupId)
          then None else lastUsedGroupId existing).
Proof.
  unfold deleteGroup. eexists. split.
  - rewrite (bind_ok _ _ _ _ _ (saveGroups_run _ _)). reflexivity.
  - split; reflexivity.
Qed.

(** X1. Each of the six operations on the groups aggregate returns, and
    when it has returned [r] the only thing that has happened to the
    store is that the JSON text of [r] stands under the groups key: the
    history key and every other key are as before, nothing was sent, and
    without a [localStorage] there is still none. *)
Theorem group_operations_write_through
    (host : Host) (st : State) (existing : StorageGroups)
    (groupId presetId name : jsstring) (preset : PresetItem) :
  writes_through GROUPS_KEY json_of_StorageGroups
    (upsertPreset host groupId preset existing) st
  /\ writes_through GROUPS_KEY json_of_StorageGroups (createGroup host name existing) st
  /\ writes_through GROUPS_KEY json_of_StorageGroups (deleteGroup groupId existing) st
  /\ writes_through GROUPS_KEY json_of_StorageGroups
       (deletePreset host groupId presetId existing) st
  /\ writes_through GROUPS_KEY json_of_StorageGroups
       (renameGroup host groupId name existing) st
  /\ writes_through GROUPS_KEY json_of_StorageGroups
       (clonePreset host groupId preset existing) st.
Proof.
  repeat split.
  - destruct (upsertPreset_stored host groupId preset existing st) as (gs & st1 & H & K & _).
    eapply writes_through_of; eassumption.
  - destruct (createGroup_stored host name existing st) as (st1 & H & K & _).
    eapply writes_through_of; eassumption.
  - destruct (deleteGroup_stored groupId existing st) as (r & H & _).
    eapply writes_through_of; [exact H | apply keeps_store_refl].
  - destruct (deletePreset_stored host groupId presetId existing st) as (gs & st1 & H & K & _).
    eapply writes_through_of; eassumption.
  - destruct (renameGroup_stored host groupId name existing st) as (gs & st1 & H & K & _).
    eapply writes_through_of; eassumption.
  - destruct (clonePreset_stored host groupId preset existing st) as (gs & st1 & H & K & _).
    eapply writes_through_of; eassumption.
Qed.

(** * History *)

Lemma slice0_firstn {A} (l : list A) (n : Z) :
  0 <= n -> slice0 l n = firstn (Z.to_nat n) l.
Proof.
  intros Hn. unfold slice0. destruct (Z.ltb_spec n 0) as [?|_]; [lia|].
  destruct (Z.le_gt_cases n (Z.of_nat (length l))) as [Hle|Hgt].
  - now rewrite Z.min_l.
  - rewrite Z.min_r by lia. rewrite Nat2Z.id.
    rewrite !firstn_all2; [reflexivity | lia | lia].
Qed.

Lemma firstn_app_firstn {A} (l t : list A) (k : nat) : forall n,
  (n <= k)%nat -> firstn n (l ++ firstn k t) = firstn n (l ++ t).
Proof.
  induction l as [|x l IH]; intros n Hn.
  - cbn [app]. rewrite firstn_firstn. f_equal. lia.
  - destruct n as [|m]; [reflexivity|]. cbn [app firstn]. f_equal. apply IH. lia.
Qed.

(** X2. [pushHistory] and [clearHistory] write what they return under the
    history key and touch nothing else; [clearHistory] returns the empty
    history with the default limit of 500 whatever limit was in force,
    so that the next push keeps exactly its entry under the limit 500. *)
Theorem history_operations_write_through
    (st : State) (e : HistoryItem) (h : StorageHistory) :
  writes_through HISTORY_KEY json_of_StorageHistory (pushHistory e h) st
  /\ writes_through HISTORY_KEY json_of_StorageHistory clearHistory st
  /\ exists h0 st0 r,
       clearHistory st = (Ok h0, st0)
       /\ h0 = {| items := []; limit := Some 500 |}
       /\ returns (pushHistory e h0) st0 r
       /\ r = {| items := [e]; limit := Some 500 |}.
Proof.
  split; [|split].
  - eapply writes_through_of; [apply pushHistory_run | apply keeps_store_refl].
  - eapply writes_through_of; [|apply keeps_store_refl].
    unfold clearHistory. rewrite (bind_ok _ _ _ _ _ (saveHistory_run _ _)). reflexivity.
  - eexists _, _, _. split; [|split; [reflexivity|split]].
    + unfold clearHistory. rewrite (bind_ok _ _ _ _ _ (saveHistory_run _ _)). reflexivity.
    + eexists. apply pushHistory_run.
    + reflexivity.
Qed.

Lemma pushAll_run es : forall h st,
  0 <= history_limit h ->
  exists r st',
    pushAll es h st = (Ok r, st')
    /\ (es <> [] ->
        items r = firstn (Z.to_nat (history_limit h)) (rev es ++ items h)
        /\ limit r = Some (history_limit h)
        /\ stored_after st st' HISTORY_KEY (json_of_StorageHistory r))
    /\ (es = [] -> r = h /\ st' = st).
Proof.
  induction es as [|e es IH]; intros h st Hlim.
  - exists h, st. split; [reflexivity|]. split; [congruence | auto].
  - cbn [pushAll]. rewrite (bind_ok _ _ _ _ _ (pushHistory_run e h st)).
    set (h1 := {| items := slice0 (e :: items h) (history_limit h);
                  limit := Some (history_limit h) |}).
    assert (Hl1 : history_limit h1 = history_limit h) by reflexivity.
    destruct (IH h1 (put_doc HISTORY_KEY (json_of_StorageHistory h1) st))
      as (r & st' & Hrun & Hne & Hnil); [now rewrite Hl1|].
    exists r, st'. split; [exact Hrun|]. split; [intros _ | congruence].
    destruct es as [|e2 es'].
    + destruct (Hnil eq_refl) as [-> ->]. split; [|split].
      * cbn [items h1 rev app]. now apply slice0_firstn.
      * reflexivity.
      * apply put_doc_stored, keeps_store_refl.
    + destruct (Hne ltac:(discriminate)) as (Hit & Hli & Hst). rewrite Hl1 in Hit, Hli.
      split; [|split].
      * rewrite Hit. cbn [items h1]. rewrite slice0_firstn by exact Hlim.
        change (rev (e :: e2 :: es')) with (rev (e2 :: es') ++ [e]).
        rewrite <- app_assoc. cbn [app].
        apply firstn_app_firstn. lia.
      * exact Hli.
      * eapply put_doc_twice; [|exact Hst]. apply put_doc_stored, keeps_store_refl.
Qed.

(** X3. Pushing the entries [es] (at least one) one after the other,
    each into the history the push before returned, under a limit in
    force that is not negative, gives the newest [limit] of all the
    entries, the last pushed first, records that limit, and leaves the
    last result under the history key. *)
Theorem pushHistory_sequence_keeps_newest
    (es : list HistoryItem) (h : StorageHistory) (st : State) :
  0 <= history_limit h -> es <> [] ->
  exists r st',
    pushAll es h st = (Ok r, st')
    /\ items r = firstn (Z.to_nat (history_limit h)) (rev es ++ items h)
    /\ limit r = Some (history_limit h)
    /\ stored_after st st' HISTORY_KEY (json_of_StorageHistory r).
Proof.
  intros Hlim Hne. destruct (pushAll_run es h st Hlim) as (r & st' & Hrun & H & _).
  exists r, st'. split; [exact Hrun | exact (H Hne)].
Qed.

Lemma pushHistory_sequence_keeps_newest_witness :
  let h := {| items := [sample_entry "a"; sample_entry "b"]; limit := Some 3 |} in
  let es := [sample_entry "c"; sample_entry "d"] in
  exists r st',
    pushAll es h state0 = (Ok r, st')
    /\ items r = firstn (Z.to_nat (history_limit h)) (rev es ++ items h)
    /\ limit r = Some (history_limit h)
    /\ stored_after state0 st' HISTORY_KEY (json_of_StorageHistory r).
Proof.
  cbv zeta.
  exact (pushHistory_sequence_keeps_newest
           [sample_entry "c"; sample_entry "d"]
           {| items := [sample_entry "a"; sample_entry "b"]; limit := Some 3 |}
           state0 ltac:(vm_compute; discriminate) ltac:(discriminate)).
Defined.

(** * Loading *)

Lemma readStorage_run key fallback st :
  readStorage key fallback st
  = (Ok (match stored_doc key st with Some d => d | None => fallback end), st).
Proof.
  unfold readStorage, stored_doc, bind, ensureWindow.
  destruct (localStorage st) as [m|]; [|reflexivity].
  destruct (m !! key); reflexivity.
Qed.

Lemma stored_doc_put key key' d st :
  stored_doc key (put_doc key' d st)
  = match localStorage st with
    | None => None
    | Some _ => if bool_decide (key' = key) then Some d else stored_doc key st
    end.
Proof.
  unfold stored_doc, put_doc. cbn [localStorage].
  destruct (localStorage st) as [m|]; [|reflexivity]. cbn.
  destruct (bool_decide_reflect (key' = key)) as [->|Hne].
  - apply lookup_insert_eq.
  - now apply lookup_insert_ne.
Qed.

(** X4. With a [localStorage], a document saved under one of the two
    keys is what the matching load returns next, and the other load still
    returns what it returned before: the two aggregates are stored
    independently. *)
Theorem save_then_load (d : json) (st : State) :
  is_some (localStorage st) = true ->
  fst (loadGroups (snd (saveGroups d st))) = Ok d
  /\ fst (loadHistory (snd (saveGroups d st))) = fst (loadHistory st)
  /\ fst (loadHistory (snd (saveHistory d st))) = Ok d
  /\ fst (loadGroups (snd (saveHistory d st))) = fst (loadGroups st).
Proof.
  intros Hw. rewrite saveGroups_run, saveHistory_run. cbn [snd].
  unfold loadGroups, loadHistory. rewrite !readStorage_run. cbn [fst].
  rewrite !stored_doc_put.
  destruct (localStorage st) as [m|]; [|discriminate].
  rewrite (bool_decide_eq_true_2 (GROUPS_KEY = GROUPS_KEY) eq_refl).
  rewrite (bool_decide_eq_true_2 (HISTORY_KEY = HISTORY_KEY) eq_refl).
  rewrite (bool_decide_eq_false_2 (GROUPS_KEY = HISTORY_KEY) storage_keys_differ).
  rewrite (bool_decide_eq_false_2 (HISTORY_KEY = GROUPS_KEY)
             (not_eq_sym storage_keys_differ)).
  repeat split.
Qed.

Lemma save_then_load_witness :
  is_some (localStorage state0) = true
  /\ fst (loadGroups (snd (saveGroups (JArr []) state0))) = Ok (JArr [])
  /\ fst (loadHistory (snd (saveGroups (JArr []) state0))) = fst (loadHistory state0)
  /\ fst (loadHistory (snd (saveHistory (JArr []) state0))) = Ok (JArr [])
  /\ fst (loadGroups (snd (saveHistory (JArr []) state0))) = fst (loadGroups state0).
Proof.
  split; [reflexivity|].
  exact (save_then_load (JArr []) state0 eq_refl).
Defined.

(** X5. Without a [localStorage] (no [window]) nothing is ever kept: a
    save changes nothing, and the loads answer with the empty defaults,
    [{ groups: [] }] and [{ items: [], limit: 500 }], also right after a
    save. Reading never changes the state. *)
Theorem no_window_nothing_kept (d : json) (st : State) :
  localStorage st = None ->
  saveGroups d st = (Ok tt, st)
  /\ saveHistory d st = (Ok tt, st)
  /\ loadGroups st = (Ok (JObj [(lit "groups", JArr [])]), st)
  /\ loadHistory st = (Ok (JObj [(lit "items", JArr []); (lit "limit", JNum 500)]), st).
Proof.
  intros Hn. unfold saveGroups, saveHistory, writeStorage, loadGroups, loadHistory,
    readStorage, bind, ensureWindow. rewrite Hn. repeat split.
Qed.

Lemma no_window_nothing_kept_witness :
  let st := {| localStorage := None; dates_read := 0; perf_read := 0;
               uuids_drawn := 0; sent := [] |} in
  localStorage st = None
  /\ saveGroups (JArr []) st = (Ok tt, st)
  /\ saveHistory (JArr []) st = (Ok tt, st)
  /\ loadGroups st = (Ok (JObj [(lit "groups", JArr [])]), st)
  /\ loadHistory st = (Ok (JObj [(lit "items", JArr []); (lit "limit", JNum 500)]), st).
Proof.
  cbv zeta. split; [reflexivity|].
  exact (no_window_nothing_kept (JArr [])
           {| localStorage := None; dates_read := 0; perf_read := 0;
              uuids_drawn := 0; sent := [] |} eq_refl).
Defined.

(** * deleteGroup *)

Lemma filter_id_none gid (gs : list GroupItem) :
  existsb (fun g => jsstring_eqb (g_id g) gid) gs = false ->
  List.filter (fun g => negb (jsstring_eqb (g_id g) gid)) gs = gs.
Proof.
  induction gs as [|g gs IH]; [reflexivity|]. cbn [existsb List.filter].
  intros H. apply orb_false_iff in H as [Hg Hgs]. rewrite Hg. cbn [negb].
  now rewrite IH.
Qed.

Lemma filter_id_gone gid (gs : list GroupItem) :
  existsb (fun g => jsstring_eqb (g_id g) gid)
          (List.filter (fun g => negb (jsstring_eqb (g_id g) gid)) gs) = false.
Proof.
  induction gs as [|g gs IH]; [reflexivity|]. cbn [List.filter].
  destruct (jsstring_eqb (g_id g) gid) eqn:E; cbn [negb]; [exact IH|].
  cbn [existsb]. now rewrite E, IH.
Qed.

(** X6. [deleteGroup] returns the groups whose id is not [groupId], in
    their order and unchanged; no group with that id is left; when there
    was none the list is as before; and deleting the same id again
    changes neither the groups nor [lastUsedGroupId]. *)
Theorem deleteGroup_removes_exactly
    (groupId : jsstring) (existing : StorageGroups) (st : State) :
  exists r st',
    deleteGroup groupId existing st = (Ok r, st')
    /\ group_exists groupId r = false
    /\ (forall g, In g (groups r) <-> In g (groups existing) /\ g_id g <> groupId)
    /\ groups r = List.filter (fun g => negb (jsstring_eqb (g_id g) groupId))
                               (groups existing)
    /\ (group_exists groupId existing = false -> groups r = groups existing)
    /\ exists r2,
         returns (deleteGroup groupId r) st' r2
         /\ groups r2 = groups r
         /\ lastUsedGroupId r2 = lastUsedGroupId r.
Proof.
  destruct (deleteGroup_stored groupId existing st) as (r & Hrun & Hg & Hl).
  exists r, (put_doc GROUPS_KEY (json_of_StorageGroups r) st).
  split; [exact Hrun|]. split; [|split; [|split; [|split]]].
  - unfold group_exists. rewrite Hg. apply filter_id_gone.
  - intros g. rewrite Hg, filter_In, negb_true_iff, jsstring_eqb_neq. reflexivity.
  - exact Hg.
  - intros Hno. rewrite Hg. now apply filter_id_none.
  - destruct (deleteGroup_stored groupId r (put_doc GROUPS_KEY (json_of_StorageGroups r) st))
      as (r2 & Hrun2 & Hg2 & Hl2).
    exists r2. split; [eexists; exact Hrun2|]. split.
    + rewrite Hg2. apply filter_id_none. rewrite Hg. apply filter_id_gone.
    + rewrite Hl2, Hl.
      destruct (bool_decide_reflect (lastUsedGroupId existing = Some groupId)) as [E|E].
      * reflexivity.
      * now rewrite bool_decide_eq_false_2.
Qed.

Lemma deleteGroup_removes_exactly_witness :
  group_exists (lit "nowhere") sample_groups = false
  /\ exists r st',
       deleteGroup (lit "nowhere") sample_groups state0 = (Ok r, st')
       /\ groups r = groups sample_groups.
Proof.
  split; [reflexivity|].
  destruct (deleteGroup_removes_exactly (lit "nowhere") sample_groups state0)
    as (r & st' & Hrun & _ & _ & _ & Hsame & _).
  exists r, st'. split; [exact Hrun | exact (Hsame eq_refl)].
Defined.

(** * Groups edited in place *)

Lemma Forall2_In_r {A B} (R : A -> B -> Prop) l l' b :
  Forall2 R l l' -> In b l' -> exists a, In a l /\ R a b.
Proof.
  induction 1 as [|a b' l l' Hab _ IH]; [easy|].
  intros [<-|Hin].
  - exists a. split; [now left | exact Hab].
  - destruct (IH Hin) as (a' & Ha' & HR). exists a'. split; [now right | exact HR].
Qed.

Lemma edited_group_id gid fn fp g g' :
  edited_group gid fn fp g g' -> g_id g' = g_id g.
Proof.
  intros [Hne Heq]. destruct (decide (g_id g = gid)) as [E|E].
  - now destruct (Heq E).
  - now rewrite (Hne E).
Qed.

Lemma edited_group_none gid fn fp gs gs' :
  existsb (fun g => jsstring_eqb (g_id g) gid) gs = false ->
  Forall2 (edited_group gid fn fp) gs gs' -> gs' = gs.
Proof.
  intros Hno HF. induction HF as [|g g' gs gs' [Hne _] _ IH]; [reflexivity|].
  cbn [existsb] in Hno. apply orb_false_iff in Hno as [Hg Hgs].
  apply jsstring_eqb_neq in Hg. rewrite (Hne Hg), (IH Hgs). reflexivity.
Qed.

Lemma edited_group_compose gid fn1 fp1 fn2 fp2 gs1 gs2 gs3 :
  Forall2 (edited_group gid fn1 fp1) gs1 gs2 ->
  Forall2 (edited_group gid fn2 fp2) gs2 gs3 ->
  Forall2 (edited_group gid (fun n => fn2 (fn1 n)) (fun ps => fp2 (fp1 ps))) gs1 gs3.
Proof.
  intros H12. revert gs3. induction H12 as [|a b l1 l2 Hab _ IH]; intros gs3 H23.
  - inversion H23. constructor.
  - inversion H23 as [|b' c l2' l3 Hbc H23' E1 E2]; subst. constructor; [|now apply IH].
    pose proof (edited_group_id _ _ _ _ _ Hab) as Hid.
    destruct Hab as [Hne1 Heq1], Hbc as [Hne2 Heq2]. split.
    + intros E. rewrite <- (Hne1 E). apply Hne2. now rewrite Hid.
    + intros E. destruct (Heq1 E) as (I1 & N1 & P1).
      destruct (Heq2 ltac:(congruence)) as (I2 & N2 & P2).
      repeat split; congruence.
Qed.

Lemma edited_group_ext gid fn fp fn' fp' gs gs' :
  (forall n, fn n = fn' n) -> (forall ps, fp ps = fp' ps) ->
  Forall2 (edited_group gid fn fp) gs gs' -> Forall2 (edited_group gid fn' fp') gs gs'.
Proof.
  intros Hn Hp. apply Forall2_weaken. intros g g' [Hne Heq]. split; [exact Hne|].
  intros E. destruct (Heq E) as (I & N & P). rewrite <- Hn, <- Hp. auto.
Qed.

Lemma find_preset_without pid ps : find_preset pid (without_preset pid ps) = None.
Proof.
  unfold find_preset, without_preset. induction ps as [|p ps IH]; [reflexivity|].
  cbn [List.filter]. destruct (jsstring_eqb (p_id p) pid) eqn:E; cbn [negb]; [exact IH|].
  cbn [List.find]. now rewrite E.
Qed.

Lemma find_preset_upserted preset ps :
  find_preset (p_id preset) (upserted preset ps) = Some preset.
Proof.
  unfold find_preset, upserted.
  destruct (existsb _ ps) eqn:E.
  - induction ps as [|p ps IH]; [discriminate|].
    cbn [existsb] in E. cbn [List.map List.find].
    destruct (jsstring_eqb (p_id p) (p_id preset)) eqn:Ep.
    + now rewrite jsstring_eqb_refl.
    + rewrite Ep. apply IH. exact E.
  - induction ps as [|p ps IH].
    + cbn. now rewrite jsstring_eqb_refl.
    + cbn [existsb] in E. apply orb_false_iff in E as [Ep Eps].
      cbn [app List.find]. rewrite Ep. now apply IH.
Qed.

Lemma map_replace_none preset ps :
  existsb (fun p => jsstring_eqb (p_id p) (p_id preset)) ps = false ->
  List.map (fun p => if jsstring_eqb (p_id p) (p_id preset) then preset else p) ps = ps.
Proof.
  induction ps as [|p ps IH]; [reflexivity|]. cbn [existsb List.map].
  intros E. apply orb_false_iff in E as [Ep Eps]. rewrite Ep. now rewrite IH.
Qed.

Lemma upserted_twice preset ps :
  upserted preset (upserted preset ps) = upserted preset ps.
Proof.
  assert (Hex : existsb (fun p => jsstring_eqb (p_id p) (p_id preset)) (upserted preset ps) = true).
  { destruct (upserted_has_preset preset ps) as (p' & Hin & Hid).
    apply existsb_exists. exists p'. split; [exact Hin|]. now apply jsstring_eqb_eq. }
  unfold upserted at 1. rewrite Hex. unfold upserted.
  destruct (existsb _ ps) eqn:E.
  - rewrite map_map. apply map_ext. intros p.
    destruct (jsstring_eqb (p_id p) (p_id preset)) eqn:Ep.
    + now rewrite jsstring_eqb_refl.
    + now rewrite Ep.
  - rewrite map_app. cbn [List.map]. rewrite jsstring_eqb_refl. now rewrite map_replace_none.
Qed.

Lemma without_upserted preset ps :
  without_preset (p_id preset) (upserted preset ps) = without_preset (p_id preset) ps.
Proof.
  unfold without_preset, upserted.
  destruct (existsb _ ps) eqn:E.
  - clear E. induction ps as [|p ps IH]; [reflexivity|].
    cbn [List.map List.filter].
    destruct (jsstring_eqb (p_id p) (p_id preset)) eqn:Ep.
    + rewrite jsstring_eqb_refl. cbn [negb]. exact IH.
    + rewrite Ep. cbn [negb]. now rewrite IH.
  - rewrite List.filter_app. cbn [List.filter]. rewrite jsstring_eqb_refl. cbn [negb].
    apply app_nil_r.
Qed.


Section GroupsEdited.
Variable host : Host.

(** X7. [deletePreset] leaves every group at its place; a group with
    another id is unchanged; a group named [groupId] keeps id and name
    and holds its former presets without those whose id is [presetId],
    in order, so that looking [presetId] up in it finds nothing;
    [lastUsedGroupId] is kept and [lastUsedPresetId] is not [presetId]
    afterwards. This holds also when no group is named [groupId]: the
    groups are as before and a last used [presetId] is forgotten all the
    same. *)
Theorem deletePreset_prunes
    (groupId presetId : jsstring) (existing : StorageGroups) (st : State) :
  exists r,
    returns (deletePreset host groupId presetId existing) st r
    /\ Forall2 (edited_group groupId (fun n => n) (without_preset presetId))
               (groups existing) (groups r)
    /\ (forall g', In g' (groups r) -> g_id g' = groupId ->
          find_preset presetId (g_presets g') = None)
    /\ lastUsedGroupId r = lastUsedGroupId existing
    /\ lastUsedPresetId r <> Some presetId
    /\ (lastUsedPresetId existing <> Some presetId ->
        lastUsedPresetId r = lastUsedPresetId existing)
    /\ (group_exists groupId existing = false -> groups r = groups existing).
Proof.
  destruct (deletePreset_stored host groupId presetId existing st)
    as (gs & st1 & Hrun & _ & Hrel).
  cbv zeta in Hrun. eexists. split; [eexists; exact Hrun|].
  cbn [groups lastUsedGroupId lastUsedPresetId].
  split; [exact Hrel|]. split; [|split; [reflexivity|split; [|split]]].
  - intros g' Hin Hid. destruct (Forall2_In_r _ _ _ _ Hrel Hin) as (g & _ & HR).
    pose proof (edited_group_id _ _ _ _ _ HR) as Hid'.
    destruct HR as [_ Heq]. destruct (Heq ltac:(congruence)) as (_ & _ & ->).
    apply find_preset_without.
  - destruct (bool_decide_reflect (lastUsedPresetId existing = Some presetId)); [discriminate | assumption].
  - intros Hne. now rewrite bool_decide_eq_false_2.
  - intros Hno. eapply edited_group_none; eassumption.
Qed.

(** X8. [renameGroup] leaves every group at its place; a group named
    [groupId] keeps id and presets and is called [name]; every other
    group and both last used ids are unchanged. When no group is named
    [groupId] the aggregate comes back as it was, no clock is read, and
    the same aggregate is written once more. *)
Theorem renameGroup_renames
    (groupId name : jsstring) (existing : StorageGroups) (st : State) :
  (exists r,
     returns (renameGroup host groupId name existing) st r
     /\ Forall2 (edited_group groupId (fun _ => name) (fun ps => ps))
                (groups existing) (groups r)
     /\ lastUsedGroupId r = lastUsedGroupId existing
     /\ lastUsedPresetId r = lastUsedPresetId existing)
  /\ (group_exists groupId existing = false ->
      renameGroup host groupId name existing st
      = (Ok existing, put_doc GROUPS_KEY (json_of_StorageGroups existing) st)).
Proof.
  split.
  - destruct (renameGroup_stored host groupId name existing st)
      as (gs & st1 & Hrun & _ & Hrel).
    cbv zeta in Hrun. eexists. split; [eexists; exact Hrun|].
    split; [exact Hrel|]. split; reflexivity.
  - intros Hno. unfold renameGroup.
    rewrite (bind_ok _ _ _ (groups existing) st).
    + rewrite (bind_ok _ _ _ _ _ (saveGroups_run _ _)). now destruct existing.
    + apply mapM_untouched. unfold group_exists in Hno.
      induction (groups existing) as [|g gs IH]; [constructor|].
      cbn [existsb] in Hno. apply orb_false_iff in Hno as [Hg Hgs].
      constructor; [now rewrite Hg | now apply IH].
Qed.

(** X9. [clonePreset] leaves every group at its place and appends to each
    group named [groupId] one copy of [preset]: a preset with a freshly
    drawn id, the name of [preset] followed by [" Copy"], the same
    request and the time of the clock; the presets that were there stay
    in front of it, other groups are unchanged, and the last used ids
    stay as they were (the copy is not selected). [preset] need not be a
    preset of that group. *)
Theorem clonePreset_appends_copy
    (groupId : jsstring) (preset : PresetItem) (existing : StorageGroups) (st : State) :
  exists r,
    returns (clonePreset host groupId preset existing) st r
    /\ Forall2 (edited_group groupId (fun n => n)
                  (fun ps => ps ++ [clone_of host st preset]))
               (groups existing) (groups r)
    /\ lastUsedGroupId r = lastUsedGroupId existing
    /\ lastUsedPresetId r = lastUsedPresetId existing.
Proof.
  destruct (clonePreset_stored host groupId preset existing st)
    as (gs & st1 & Hrun & _ & Hrel).
  cbv zeta in Hrun. eexists. split; [eexists; exact Hrun|].
  split; [exact Hrel|]. split; reflexivity.
Qed.

(** X10. After [upsertPreset], looking the id of [preset] up in any group
    named [groupId] finds [preset] itself; and upserting the same preset
    into the result again changes no group but for [updatedAt], and no
    last used id. *)
Theorem upsertPreset_then_find
    (groupId : jsstring) (preset : PresetItem) (existing : StorageGroups) (st : State) :
  exists r st',
    upsertPreset host groupId preset existing st = (Ok r, st')
    /\ (forall g', In g' (groups r) -> g_id g' = groupId ->
          find_preset (p_id preset) (g_presets g') = Some preset)
    /\ exists r2,
         returns (upsertPreset host groupId preset r) st' r2
         /\ Forall2 same_content (groups r) (groups r2)
         /\ lastUsedGroupId r2 = lastUsedGroupId r
         /\ lastUsedPresetId r2 = lastUsedPresetId r.
Proof.
  destruct (upsertPreset_stored host groupId preset existing st)
    as (gs & st1 & Hrun & _ & Hrel).
  cbv zeta in Hrun. eexists _, _. split; [exact Hrun|].
  cbn [groups lastUsedGroupId lastUsedPresetId]. split.
  - intros g' Hin Hid. destruct (Forall2_In_r _ _ _ _ Hrel Hin) as (g & _ & HR).
    pose proof (edited_group_id _ _ _ _ _ HR) as Hid'.
    destruct HR as [_ Heq]. destruct (Heq ltac:(congruence)) as (_ & _ & ->).
    apply find_preset_upserted.
  - match type of Hrun with _ = (Ok ?r, ?s) =>
      destruct (upsertPreset_stored host groupId preset r s)
        as (gs2 & st2 & Hrun2 & _ & Hrel2)
    end.
    cbv zeta in Hrun2. cbn [groups] in Hrel2.
    eexists. split; [eexists; exact Hrun2|]. cbn [groups lastUsedGroupId lastUsedPresetId].
    split; [|split; reflexivity].
    clear Hrun Hrun2. revert gs2 Hrel2.
    induction Hrel as [|g g1 l l1 Hgg1 _ IH]; intros gs2 Hrel2.
    + inversion Hrel2. constructor.
    + inversion Hrel2 as [|g1' g2 l1' l2 Hg12 Hrel2' E1 E2]; subst.
      constructor; [|now apply IH].
      pose proof (edited_group_id _ _ _ _ _ Hgg1) as Hid1.
      destruct Hgg1 as [_ Heq1], Hg12 as [Hne2 Heq2].
      destruct (decide (g_id g1 = groupId)) as [E|E].
      * destruct (Heq2 E) as (I2 & N2 & P2). destruct (Heq1 ltac:(congruence)) as (_ & _ & P1).
        repeat split; [exact I2 | exact N2 |].
        rewrite P2, P1. apply upserted_twice.
      * rewrite (Hne2 E). repeat split.
Qed.

(** X11. Deleting from [groupId] the preset that was just upserted there
    gives, in every group named [groupId], the presets that were there
    before without those having the id of [preset] (so the former list
    itself when the id was new); other groups are as before;
    [lastUsedGroupId] stays [groupId] and [lastUsedPresetId] is
    forgotten. *)
Theorem upsertPreset_then_deletePreset
    (groupId : jsstring) (preset : PresetItem) (existing : StorageGroups) (st : State) :
  exists r st' r2,
    upsertPreset host groupId preset existing st = (Ok r, st')
    /\ returns (deletePreset host groupId (p_id preset) r) st' r2
    /\ Forall2 (edited_group groupId (fun n => n) (without_preset (p_id preset)))
               (groups existing) (groups r2)
    /\ lastUsedGroupId r2 = Some groupId
    /\ lastUsedPresetId r2 = None.
Proof.
  destruct (upsertPreset_stored host groupId preset existing st)
    as (gs & st1 & Hrun & _ & Hrel).
  cbv zeta in Hrun.
  match type of Hrun with _ = (Ok ?r, ?s) =>
    destruct (deletePreset_stored host groupId (p_id preset) r s)
      as (gs2 & st2 & Hrun2 & _ & Hrel2)
  end.
  cbv zeta in Hrun2. cbn [groups lastUsedGroupId lastUsedPresetId] in Hrun2, Hrel2.
  eexists _, _, _. split; [exact Hrun|]. split; [eexists; exact Hrun2|].
  cbn [groups lastUsedGroupId lastUsedPresetId]. split; [|split].
  - eapply edited_group_ext; [| |eapply edited_group_compose; eassumption].
    + reflexivity.
    + intros ps. cbn beta. apply without_upserted.
  - reflexivity.
  - now rewrite bool_decide_eq_true_2.
Qed.

End GroupsEdited.

Lemma deletePreset_prunes_witness :
  group_exists (lit "nowhere") sample_groups = false
  /\ exists r,
       returns (deletePreset sample_host (lit "nowhere") (lit "p1") sample_groups) state0 r
       /\ groups r = groups sample_groups
       /\ lastUsedPresetId r <> Some (lit "p1").
Proof.
  split; [reflexivity|].
  destruct (deletePreset_prunes sample_host (lit "nowhere") (lit "p1") sample_groups state0)
    as (r & Hrun & _ & _ & _ & Hlast & _ & Hsame).
  exists r. split; [exact Hrun|]. split; [exact (Hsame eq_refl) | exact Hlast].
Defined.

Lemma renameGroup_renames_witness :
  group_exists (lit "nowhere") sample_groups = false
  /\ renameGroup sample_host (lit "nowhere") (lit "n") sample_groups state0
     = (Ok sample_groups, put_doc GROUPS_KEY (json_of_StorageGroups sample_groups) state0).
Proof.
  split; [reflexivity|].
  exact (proj2 (renameGroup_renames sample_host (lit "nowhere") (lit "n") sample_groups state0) eq_refl).
Defined.

Lemma upsertPreset_then_find_witness :
  exists r st' g',
    upsertPreset sample_host (lit "g2") (sample_preset "p9") sample_groups state0 = (Ok r, st')
    /\ In g' (groups r) /\ g_id g' = lit "g2"
    /\ find_preset (lit "p9") (g_presets g') = Some (sample_preset "p9").
Proof.
  destruct (upsertPreset_then_find sample_host (lit "g2") (sample_preset "p9") sample_groups state0)
    as (r & st' & Hrun & Hfind & _).
  pose proof Hrun as Hr. vm_compute in Hr. injection Hr as Hr _.
  exists r, st', (sample_group "g2" [sample_preset "p9"]).
  assert (Hin : In (sample_group "g2" [sample_preset "p9"]) (groups r)).
  { rewrite <- Hr. right. left. reflexivity. }
  split; [exact Hrun|]. split; [exact Hin|]. split; [reflexivity|].
  exact (Hfind _ Hin eq_refl).
Defined.

(** * ensureGroupWithPreset *)




(** * Export and import *)

(** X13. The object [exportAll] returns, written as JSON and read back,
    is always taken by [importAll]: both aggregates are written under
    their keys and returned, and with a [localStorage] the two loads
    then return exactly the exported aggregates. *)
Theorem export_then_import (g : StorageGroups) (h : StorageHistory) (st : State) :
  let doc := json_of_export (exportAll g h) in
  let st' := put_doc HISTORY_KEY (json_of_StorageHistory h)
               (put_doc GROUPS_KEY (json_of_StorageGroups g) st) in
  import_accepts (Some doc) = true
  /\ importAll (Some doc) st
     = (Ok (Some (json_of_StorageGroups g, json_of_StorageHistory h)), st')
  /\ (is_some (localStorage st) = true ->
      returns loadGroups st' (json_of_StorageGroups g)
      /\ returns loadHistory st' (json_of_StorageHistory h)).
Proof.
  cbv zeta. split; [reflexivity|]. split.
  - unfold importAll, json_of_export, exportAll. cbn [fst snd falsy typeof_object negb orb].
    unfold get_prop. cbn [assoc].
    replace (jsstring_eqb (lit "groups") (lit "groups")) with true by reflexivity.
    replace (jsstring_eqb (lit "groups") (lit "history")) with false by reflexivity.
    replace (jsstring_eqb (lit "history") (lit "history")) with true by reflexivity.
    cbn [falsy json_of_StorageGroups json_of_StorageHistory orb].
    rewrite (bind_ok _ _ _ _ _ (saveGroups_run _ _)).
    rewrite (bind_ok _ _ _ _ _ (saveHistory_run _ _)). reflexivity.
  - apply load_after_put.
Qed.

Lemma export_then_import_witness :
  let g := sample_groups in
  let h := {| items := [sample_entry "a"]; limit := Some 500 |} in
  is_some (localStorage state0) = true
  /\ returns loadGroups (put_doc HISTORY_KEY (json_of_StorageHistory h)
                          (put_doc GROUPS_KEY (json_of_StorageGroups g) state0))
             (json_of_StorageGroups g)
  /\ returns loadHistory (put_doc HISTORY_KEY (json_of_StorageHistory h)
                           (put_doc GROUPS_KEY (json_of_StorageGroups g) state0))
             (json_of_StorageHistory h).
Proof.
  cbv zeta. split; [reflexivity|].
  exact (proj2 (proj2 (export_then_import sample_groups
                         {| items := [sample_entry "a"]; limit := Some 500 |} state0))
               eq_refl).
Defined.

(** * A group created and deleted *)

Lemma filter_id_app_new gid (gs : list GroupItem) (g : GroupItem) :
  g_id g = gid ->
  existsb (fun x => jsstring_eqb (g_id x) gid) gs = false ->
  List.filter (fun x => negb (jsstring_eqb (g_id x) gid)) (gs ++ [g]) = gs.
Proof.
  intros Hg Hno. rewrite List.filter_app, filter_id_none by exact Hno.
  cbn [List.filter]. rewrite Hg, jsstring_eqb_refl. cbn [negb]. apply app_nil_r.
Qed.

(** X14. [createGroup] appends one group with a freshly drawn id, the
    given name and no presets, and makes it the last used group with no
    last used preset. When the drawn id is new among the groups,
    deleting that group again gives back the former list of groups, with
    no last used group and no last used preset. *)
Theorem createGroup_then_deleteGroup
    (host : Host) (name : jsstring) (existing : StorageGroups) (st : State) :
  exists r st' g,
    createGroup host name existing st = (Ok r, st')
    /\ groups r = groups existing ++ [g]
    /\ g_id g = randomUUID host (uuids_drawn st) /\ g_name g = name /\ g_presets g = []
    /\ lastUsedGroupId r = Some (g_id g) /\ lastUsedPresetId r = None
    /\ (group_exists (g_id g) existing = false ->
        exists r2,
          returns (deleteGroup (g_id g) r) st' r2
          /\ groups r2 = groups existing
          /\ lastUsedGroupId r2 = None /\ lastUsedPresetId r2 = None).
Proof.
  destruct (createGroup_stored host name existing st) as (st1 & Hrun & _).
  cbv zeta in Hrun. eexists _, _, _. split; [exact Hrun|].
  cbn [groups g_id g_name g_presets lastUsedGroupId lastUsedPresetId].
  repeat (split; [reflexivity|]).
  intros Hfresh.
  match type of Hrun with _ = (Ok ?r, ?s) =>
    destruct (deleteGroup_run (randomUUID host (uuids_drawn st)) r s)
      as (r2 & s2 & Hrun2 & Hg2 & Hl2 & Hp2)
  end.
  cbn [groups lastUsedGroupId lastUsedPresetId] in Hg2, Hl2, Hp2.
  exists r2. split; [eexists; exact Hrun2|]. split; [|split].
  - rewrite Hg2. now apply filter_id_app_new.
  - rewrite Hl2. now rewrite bool_decide_eq_true_2.
  - exact Hp2.
Qed.

Lemma createGroup_then_deleteGroup_witness :
  group_exists (randomUUID sample_host (uuids_drawn state0)) sample_groups = false
  /\ exists r st' g,
       createGroup sample_host (lit "new") sample_groups state0 = (Ok r, st')
       /\ groups r = groups sample_groups ++ [g]
       /\ g_id g = randomUUID sample_host (uuids_drawn state0)
       /\ exists r2,
            returns (deleteGroup (g_id g) r) st' r2
            /\ groups r2 = groups sample_groups
            /\ lastUsedGroupId r2 = None /\ lastUsedPresetId r2 = None.
Proof.
  split; [reflexivity|].
  destruct (createGroup_then_deleteGroup sample_host (lit "new") sample_groups state0)
    as (r & st' & g & Hrun & Hg & Hid & _ & _ & _ & _ & Hdel).
  exists r, st', g. split; [exact Hrun|]. split; [exact Hg|]. split; [exact Hid|].
  apply Hdel. rewrite Hid. reflexivity.
Defined.

(** * The codec in its two environments *)

Lemma uri_encode_cps_lone cps :
  forallb (fun o : option Z => match o with Some _ => true | None => false end) cps = false ->
  uri_encode_cps cps = Throw URIError.
Proof.
  induction cps as [|[v|] cps IH]; [discriminate| |reflexivity].
  cbn [forallb andb uri_encode_cps]. intros H. now rewrite (IH H).
Qed.

Lemma encodeURIComponent_lone s :
  forallb is_code_unit s = true -> isWellFormed s = false ->
  encodeURIComponent s = Throw URIError.
Proof.
  unfold isWellFormed. intros -> H. cbn [andb] in H.
  now apply uri_encode_cps_lone.
Qed.

Lemma decode_encoded_wellFormed hasBuffer wording s :
  isWellFormed s = true ->
  decodeBase64ToUtf8 hasBuffer wording (base64_encode (utf8_bytes s))
  = {| data := Some s; error := None |}.
Proof.
  intros Hwf. destruct (wellFormed_scalars s Hwf) as (_ & Hsc & Hs).
  destruct s as [|c r]; [reflexivity|].
  unfold utf8_bytes. rewrite decodeBase64ToUtf8_encoded; [now rewrite Hs | exact Hsc |].
  intros E. rewrite E in Hs. discriminate.
Qed.

(** X15. On a string without lone surrogates the two branches of
    [encodeUtf8ToBase64] return the same text, the Base64 form of the
    UTF-8 bytes. On a string with a lone surrogate they part: with a
    [Buffer] global the call returns (the surrogate is written as
    U+FFFD), without one it throws the [URIError] of
    [encodeURIComponent], which nothing catches. *)
Theorem encodeUtf8ToBase64_branches (s : jsstring) :
  forallb is_code_unit s = true ->
  (isWellFormed s = true ->
   encodeUtf8ToBase64 true s = Ok (base64_encode (utf8_bytes s))
   /\ encodeUtf8ToBase64 false s = Ok (base64_encode (utf8_bytes s)))
  /\ (isWellFormed s = false ->
      encodeUtf8ToBase64 true s = Ok (base64_encode (Buffer.from_utf8 s))
      /\ encodeUtf8ToBase64 false s = Throw URIError).
Proof.
  intros Hcu. split.
  - intros Hwf. split; now apply encodeUtf8ToBase64_wellFormed.
  - intros Hill. destruct s as [|c r]; [discriminate|].
    unfold encodeUtf8ToBase64. cbn [str_falsy]. split; [reflexivity|].
    now rewrite encodeURIComponent_lone.
Qed.

Lemma encodeUtf8ToBase64_branches_witness :
  forallb is_code_unit [0x61; 0xD800] = true
  /\ isWellFormed [0x61; 0xD800] = false
  /\ encodeUtf8ToBase64 true [0x61; 0xD800] = Ok (lit "Ye+/vQ==")
  /\ encodeUtf8ToBase64 false [0x61; 0xD800] = Throw URIError.
Proof.
  split; [reflexivity|]. split; [reflexivity|].
  destruct (proj2 (encodeUtf8ToBase64_branches [0x61; 0xD800] eq_refl) eq_refl) as [H1 H2].
  split; [exact H1 | exact H2].
Defined.

(** X16. What one environment encodes the other decodes: for a string
    without lone surrogates, encoding with or without [Buffer] and
    decoding with or without [Buffer] gives the string back. So the
    encoder is injective on such strings: equal encodings, from whichever
    branches, come from equal strings. *)
Theorem base64_across_environments
    (enc dec enc' : bool) (wording : exn -> jsstring) (s s' : jsstring) :
  isWellFormed s = true -> isWellFormed s' = true ->
  (exists b, encodeUtf8ToBase64 enc s = Ok b
             /\ decodeBase64ToUtf8 dec wording b = {| data := Some s; error := None |})
  /\ (encodeUtf8ToBase64 enc s = encodeUtf8ToBase64 enc' s' -> s = s').
Proof.
  intros Hwf Hwf'. split.
  - exists (base64_encode (utf8_bytes s)).
    split; [now apply encodeUtf8ToBase64_wellFormed | now apply decode_encoded_wellFormed].
  - rewrite !encodeUtf8ToBase64_wellFormed by assumption. intros [= E].
    pose proof (decode_encoded_wellFormed true wording s Hwf) as D.
    rewrite E, (decode_encoded_wellFormed true wording s' Hwf') in D. congruence.
Qed.

Lemma base64_across_environments_witness :
  isWellFormed [0x4E2D; 0xD83D; 0xDE00; 0x61] = true
  /\ exists b,
       encodeUtf8ToBase64 true [0x4E2D; 0xD83D; 0xDE00; 0x61] = Ok b
       /\ decodeBase64ToUtf8 false sample_wording b
          = {| data := Some [0x4E2D; 0xD83D; 0xDE00; 0x61]; error := None |}.
Proof.
  split; [reflexivity|].
  exact (proj1 (base64_across_environments true false true sample_wording
                  [0x4E2D; 0xD83D; 0xDE00; 0x61] [] eq_refl eq_refl)).
Defined.

(** ** The shape of what is encoded *)

Lemma base64_encode_length_eq bs :
  Z.of_nat (length (base64_encode bs)) = 4 * ((Z.of_nat (length bs) + 2) / 3).
Proof.
  induction bs as [| | |a b c l IH] using list_ind3; try reflexivity.
  cbn [base64_encode length]. rewrite !Nat2Z.inj_succ. rewrite IH.
  replace (Z.succ (Z.succ (Z.succ (Z.of_nat (length l)))) + 2)
    with (Z.of_nat (length l) + 2 + 1 * 3) by lia.
  rewrite Z.div_add by lia. lia.
Qed.

(** X17. What [encodeUtf8ToBase64] returns for a string without lone
    surrogates is, on both branches, a run of characters of the Base64
    alphabet followed by no, one or two [=]; it holds four characters
    for every three UTF-8 bytes of the input, rounded up, and no white
    space. *)
Theorem encodeUtf8ToBase64_shape (hasBuffer : bool) (s : jsstring) :
  isWellFormed s = true ->
  exists body pad,
    encodeUtf8ToBase64 hasBuffer s = Ok (body ++ pad)
    /\ forallb in_alphabet body = true
    /\ (pad = [] \/ pad = [b64_pad] \/ pad = [b64_pad; b64_pad])
    /\ Z.of_nat (length (body ++ pad)) = 4 * ((Z.of_nat (length (utf8_bytes s)) + 2) / 3)
    /\ forallb (fun c => negb (is_ascii_whitespace c)) (body ++ pad) = true.
Proof.
  intros Hwf. destruct (wellFormed_scalars s Hwf) as (_ & Hsc & _).
  pose proof (utf8_encode_bytes _ Hsc) as Hbytes. fold (utf8_bytes s) in Hbytes.
  exists (List.map b64_char (sextets_of (utf8_bytes s))), (padding_of (utf8_bytes s)).
  rewrite <- base64_encode_split.
  split; [now apply encodeUtf8ToBase64_wellFormed|].
  split; [|split; [apply padding_cases|split; [apply base64_encode_length_eq|]]].
  - apply forallb_forall. intros c Hin. apply in_map_iff in Hin.
    destruct Hin as (n & <- & Hn).
    pose proof (sextets_of_range _ Hbytes) as Hr. rewrite forallb_forall in Hr.
    destruct (sextet_char n (Hr n Hn)) as (Hv & _). unfold in_alphabet. now rewrite Hv.
  - pose proof (base64_encode_no_space _ Hbytes) as Hf.
    rewrite <- Hf. apply forallb_forall. intros c Hin. now apply filter_In in Hin.
Qed.

Lemma encodeUtf8ToBase64_shape_witness :
  isWellFormed [123; 34; 97; 34; 58; 49; 125] = true
  /\ exists body pad,
       encodeUtf8ToBase64 false [123; 34; 97; 34; 58; 49; 125] = Ok (body ++ pad)
       /\ forallb in_alphabet body = true
       /\ (pad = [] \/ pad = [b64_pad] \/ pad = [b64_pad; b64_pad])
       /\ Z.of_nat (length (body ++ pad))
          = 4 * ((Z.of_nat (length (utf8_bytes [123; 34; 97; 34; 58; 49; 125])) + 2) / 3)
       /\ forallb (fun c => negb (is_ascii_whitespace c)) (body ++ pad) = true.
Proof.
  split; [reflexivity|].
  exact (encodeUtf8ToBase64_shape false [123; 34; 97; 34; 58; 49; 125] eq_refl).
Defined.

(** ** White space *)

(** X18. [decodeBase64ToUtf8] does not see ASCII white space (tab, line
    feed, form feed, carriage return, space): on both branches an input
    gives what the input without its white space gives, and an input of
    white space alone gives [{ data: [] }] like the empty input. *)
Theorem decodeBase64ToUtf8_ignores_white_space
    (hasBuffer : bool) (wording : exn -> jsstring) (input : jsstring) :
  decodeBase64ToUtf8 hasBuffer wording input
  = decodeBase64ToUtf8 hasBuffer wording
      (List.filter (fun c => negb (is_ascii_whitespace c)) input).
Proof.
  set (d := List.filter (fun c => negb (is_ascii_whitespace c)) input).
  assert (Hbuf : Buffer.from_base64 input = Buffer.from_base64 d).
  { unfold Buffer.from_base64, d. now rewrite node_sextets_no_space. }
  assert (Hatob : atob input = atob d).
  { unfold atob, d. now rewrite filter_no_space_twice. }
  unfold decodeBase64ToUtf8.
  destruct input as [|c r]; [reflexivity|]. cbn [str_falsy].
  destruct d as [|c' r'] eqn:Ed; cbn [str_falsy].
  - destruct hasBuffer.
    + rewrite Hbuf. reflexivity.
    + rewrite Hatob. reflexivity.
  - destruct hasBuffer.
    + now rewrite Hbuf.
    + now rewrite Hatob.
Qed.

(** * The signer outside the Tauri shell *)

(** X19. Outside the Tauri shell [md5UpperHex] returns the empty string
    for the empty input, the MD5 digest of the UTF-8 bytes as 32
    upper-case hexadecimal digits for a string without lone surrogates,
    and for a string with a lone surrogate it throws: the [URIError] of
    the fallback's [encodeURIComponent] leaves the [catch] block. *)
Theorem md5UpperHex_outside_tauri (input : jsstring) :
  forallb is_code_unit input = true ->
  md5UpperHex false input
  = if str_falsy input then Ok []
    else if isWellFormed input then Ok (md5_hex input)
    else Throw URIError.
Proof.
  intros Hcu. destruct input as [|c r] eqn:E; [reflexivity|]. rewrite <- E in *.
  assert (Hne : input <> []) by (rewrite E; discriminate).
  replace (str_falsy input) with false by (rewrite E; reflexivity).
  destruct (isWellFormed input) eqn:Hwf.
  - now apply md5UpperHex_wellFormed.
  - unfold md5UpperHex. rewrite E. cbn [str_falsy]. rewrite <- E.
    unfold invoke_md5_upper_hex, CryptoJS.MD5, CryptoJS.Utf8_parse.
    now rewrite encodeURIComponent_lone.
Qed.

Lemma md5UpperHex_outside_tauri_witness :
  forallb is_code_unit [0x61; 0xDC00] = true
  /\ md5UpperHex false [0x61; 0xDC00] = Throw URIError.
Proof.
  split; [reflexivity|].
  exact (md5UpperHex_outside_tauri [0x61; 0xDC00] eq_refl).
Defined.

(** * The executor, outcome by outcome *)

(** X20. When [md5UpperHex] throws, [executeMultipartRequest] rejects
    with that exception before anything is sent and before the
    stopwatch is started. *)
Theorem executeMultipartRequest_unsigned_not_sent
    (host : Host) (options : RequestOptions) (st : State) (e : exn) :
  md5UpperHex (tauri host)
    (resolved_timestamp host options st ++ resolved_payload options
     ++ pr_password (opt_request options)) = Throw e ->
  exists st',
    executeMultipartRequest host options st = (Throw e, st')
    /\ sent st' = sent st /\ perf_read st' = perf_read st
    /\ localStorage st' = localStorage st.
Proof.
  intros Hsign. pose proof (executeMultipartRequest_cases host options st) as H.
  cbv zeta in H. rewrite Hsign in H. exact H.
Qed.

Lemma executeMultipartRequest_unsigned_not_sent_witness :
  let options :=
    {| opt_request :=
         {| pr_url := lit "https://example.test/api"; pr_appkey := lit "demo";
            pr_password := [0xD800]; pr_ver := lit "1";
            pr_timestamp := Some (lit "20240115093000");
            pr_dataRaw := lit "{}"; pr_dataB64 := None |};
       opt_timeoutMs := 1000; opt_forceTime := None |} in
  exists st',
    executeMultipartRequest sample_host options state0 = (Throw URIError, st')
    /\ sent st' = sent state0 /\ perf_read st' = perf_read state0
    /\ localStorage st' = localStorage state0.
Proof.
  cbv zeta.
  exact (executeMultipartRequest_unsigned_not_sent sample_host
           {| opt_request :=
                {| pr_url := lit "https://example.test/api"; pr_appkey := lit "demo";
                   pr_password := [0xD800]; pr_ver := lit "1";
                   pr_timestamp := Some (lit "20240115093000");
                   pr_dataRaw := lit "{}"; pr_dataB64 := None |};
              opt_timeoutMs := 1000; opt_forceTime := None |}
           state0 URIError ltac:(vm_compute; reflexivity)).
Defined.




(** X22. An execution that returned can be replayed from the history:
    executing the snapshot that [handleSend] keeps (the request with
    the time stamp of the execution), at any later time and state, sends
    a request equal to the one first sent, field by field, signature
    included; the clock is not consulted. *)
Theorem replay_sends_same_request
    (host : Host) (options : RequestOptions) (st st2 : State) (ex : RequestExecution) :
  returns (executeMultipartRequest host options) st ex ->
  let again := {| opt_request := snapshot (opt_request options) ex;
                  opt_timeoutMs := opt_timeoutMs options;
                  opt_forceTime := None |} in
  exists req,
    sent (snd (executeMultipartRequest host options st)) = sent st ++ [req]
    /\ sent (snd (executeMultipartRequest host again st2)) = sent st2 ++ [req]
    /\ dates_read (snd (executeMultipartRequest host again st2)) = dates_read st2
    /\ http_body req
       = multipart_fields (opt_request options) (ex_timestamp ex)
           (resolved_payload options) (ex_sign ex).
Proof.
  intros [st' Hret] again.
  pose proof (executeMultipartRequest_cases host options st) as H. cbv zeta in H.
  destruct (md5UpperHex (tauri host) _) as [sign|e] eqn:Hsign.
  2:{ destruct H as (s & Hrun & _). rewrite Hrun in Hret. discriminate. }
  destruct H as (s & Hrun & Hsent & _).
  assert (Hex : ex_timestamp ex = resolved_timestamp host options st /\ ex_sign ex = sign).
  { rewrite Hrun in Hret. destruct (fetch host _) as [res|]; [|discriminate].
    cbn [rbind] in Hret. destruct (res_text res); [|discriminate].
    cbn [rbind] in Hret. injection Hret as <- _. split; reflexivity. }
  destruct Hex as [Hts Hsg].
  pose proof (executeMultipartRequest_cases host again st2) as H2. cbv zeta in H2.
  assert (Hts2 : resolved_timestamp host again st2 = resolved_timestamp host options st).
  { unfold resolved_timestamp, again. cbn [opt_forceTime opt_request snapshot pr_timestamp].
    exact Hts. }
  assert (Hpl2 : resolved_payload again = resolved_payload options).
  { unfold resolved_payload, again. cbn [opt_request snapshot pr_dataB64]. reflexivity. }
  rewrite Hts2, Hpl2 in H2.
  change (pr_password (opt_request again)) with (pr_password (opt_request options)) in H2.
  rewrite Hsign in H2. destruct H2 as (s2 & Hrun2 & Hsent2 & _ & Hdates2).
  exists (request_sent options (resolved_timestamp host options st)
            (resolved_payload options) sign).
  rewrite Hrun, Hrun2. cbn [snd]. split; [exact Hsent|]. split; [exact Hsent2|].
  split; [exact Hdates2 | rewrite Hts, Hsg; reflexivity].
Qed.

Lemma replay_sends_same_request_witness :
  let ex := {| ex_responseText := lit "ok"; ex_status := Some 200; ex_ok := true;
               ex_durationMs := 1; ex_timestamp := lit "20240115093000";
               ex_sign := lit "73C98F0652469629488F74D8503171F7" |} in
  let again := {| opt_request := snapshot (opt_request sample_options) ex;
                  opt_timeoutMs := opt_timeoutMs sample_options;
                  opt_forceTime := None |} in
  returns (executeMultipartRequest sample_host sample_options) state0 ex
  /\ exists req,
       sent (snd (executeMultipartRequest sample_host sample_options state0))
         = sent state0 ++ [req]
       /\ sent (snd (executeMultipartRequest sample_host again state0))
          = sent state0 ++ [req]
       /\ dates_read (snd (executeMultipartRequest sample_host again state0))
          = dates_read state0
       /\ http_body req
          = multipart_fields (opt_request sample_options) (ex_timestamp ex)
              (resolved_payload sample_options) (ex_sign ex).
Proof.
  cbv zeta.
  assert (H : returns (executeMultipartRequest sample_host sample_options) state0
                {| ex_responseText := lit "ok"; ex_status := Some 200; ex_ok := true;
                   ex_durationMs := 1; ex_timestamp := lit "20240115093000";
                   ex_sign := lit "73C98F0652469629488F74D8503171F7" |}).
  { eexists. vm_compute. reflexivity. }
  split; [exact H|].
  exact (replay_sends_same_request sample_host sample_options state0 state0 _ H).
Defined.

(** * Time stamps read back *)

Lemma addLeadingZeros_value_2 n :
  0 <= n < 100 -> unpadded_ok 2 n = true.
Proof. apply (forallb_below (unpadded_ok 2) (Z.to_nat 100)). vm_compute. reflexivity. Qed.

Lemma addLeadingZeros_value_4 n :
  0 <= n < 10000 -> unpadded_ok 4 n = true.
Proof. apply (forallb_below (unpadded_ok 4) (Z.to_nat 10000)). vm_compute. reflexivity. Qed.

Lemma app_inj_length {A} (a a' b b' : list A) :
  length a = length a' -> a ++ b = a' ++ b' -> a = a' /\ b = b'.
Proof.
  revert a'. induction a as [|x a IH]; intros [|y a'] Hl H; try discriminate.
  - now split.
  - cbn in H. injection H as -> H. injection Hl as Hl.
    destruct (IH a' Hl H) as [-> ->]. now split.
Qed.

Lemma addLeadingZeros_inj (w : nat) (n m : Z) :
  padded_ok w n = true -> padded_ok w m = true ->
  unpadded_ok w n = true -> unpadded_ok w m = true ->
  forall r r', addLeadingZeros n w ++ r = addLeadingZeros m w ++ r' -> n = m /\ r = r'.
Proof.
  unfold padded_ok, unpadded_ok. rewrite !andb_true_iff, !Nat.eqb_eq, !Z.eqb_eq.
  intros [Ln _] [Lm _] Vn Vm r r' H.
  assert (Hl : length (addLeadingZeros n w) = length (addLeadingZeros m w)) by congruence.
  destruct (app_inj_length _ _ _ _ Hl H) as [E ->].
  split; [|reflexivity]. rewrite <- Vn, <- Vm. now rewrite E.
Qed.

Ltac padded_field :=
  first [ apply addLeadingZeros_2; lia | apply addLeadingZeros_value_2; lia
        | apply addLeadingZeros_4; lia | apply addLeadingZeros_value_4; lia ].

(** X23. [getTimestamp] loses nothing: two dates of the years 1 to 9999
    with the same 14-digit time stamp agree in year, month, day, hour,
    minute and second. *)
Theorem getTimestamp_injective (d1 d2 : jsDate) :
  calendar_date d1 = true -> calendar_date d2 = true ->
  0 < getFullYear d1 -> 0 < getFullYear d2 ->
  getTimestamp d1 = getTimestamp d2 ->
  getFullYear d1 = getFullYear d2 /\ getMonth d1 = getMonth d2
  /\ getDate d1 = getDate d2 /\ getHours d1 = getHours d2
  /\ getMinutes d1 = getMinutes d2 /\ getSeconds d1 = getSeconds d2.
Proof.
  unfold calendar_date. rewrite !andb_true_iff, !in_range_iff.
  intros (((((Hy1 & Hm1) & Hd1) & Hh1) & Hmi1) & Hs1)
         (((((Hy2 & Hm2) & Hd2) & Hh2) & Hmi2) & Hs2) Py1 Py2.
  unfold getTimestamp.
  rewrite (ltb_true 0 (getFullYear d1) Py1), (ltb_true 0 (getFullYear d2) Py2).
  intros H.
  apply addLeadingZeros_inj in H as [Ey H];
    [|padded_field ..].
  apply addLeadingZeros_inj in H as [Em H];
    [|padded_field ..].
  apply addLeadingZeros_inj in H as [Ed H];
    [|padded_field ..].
  apply addLeadingZeros_inj in H as [Eh H];
    [|padded_field ..].
  apply addLeadingZeros_inj in H as [Emi H];
    [|padded_field ..].
  rewrite <- (app_nil_r (addLeadingZeros (getSeconds d1) 2)) in H.
  rewrite <- (app_nil_r (addLeadingZeros (getSeconds d2) 2)) in H.
  apply addLeadingZeros_inj in H as [Es _];
    [|padded_field ..].
  repeat split; lia.
Qed.

Lemma getTimestamp_injective_witness :
  calendar_date sample_date = true /\ 0 < getFullYear sample_date
  /\ getTimestamp sample_date = getTimestamp sample_date
  /\ getFullYear sample_date = getFullYear sample_date.
Proof.
  split; [reflexivity|]. split; [reflexivity|]. split; [reflexivity|].
  exact (proj1 (getTimestamp_injective sample_date sample_date
                  eq_refl eq_refl eq_refl eq_refl eq_refl)).
Defined.
